(** * useChat: the keyed chat store of packages/web/src/hooks/useChat.ts

    A shallow embedding of the zustand store created by [useChatState]:
    the store record, every operation the hook exposes, and the helper
    closures they call.  JavaScript exceptions are explicit outcomes, the
    [set] calls of zustand are explicit whole-store replacements that leave
    a snapshot behind, and the external collaborators ([useChatApi], the
    prompt provider, the model catalog, [uuid]) are the fields of a record
    the engine is parameterised by.  What a run of [post] meets beyond their
    answers (a stream that raises, a rejected request, the moment the
    detached title task completes) is a second parameter, [Weather]. *)

From Stdlib Require Import ZArith Ascii String.
From stdpp Require Import base option list strings pretty gmap fin_maps.

Local Open Scope string_scope.
Local Open Scope list_scope.

(** ** Strings

    A JavaScript string is a sequence of UTF-16 code units.  The two
    regular expressions of this file only ever test a code unit against
    ASCII characters, so a string is modelled as Rocq's [string]; a code
    unit outside ASCII behaves like any character that is none of
    [<], [/], [>] and the letters of [output]. *)

Module Str.

(** [s.replace(/(<output>|<\/output>)/g, '')]: one left-to-right pass.  At
    a position where one of the two markers starts, the marker is dropped
    and the scan goes on behind it; any other character is kept.  [skip]
    counts the characters of a matched marker still to be dropped. *)
Fixpoint stripFrom (skip : nat) (s : string) : string :=
  match s with
  | EmptyString => EmptyString
  | String c s' =>
      match skip with
      | S k => stripFrom k s'
      | O =>
          if String.prefix "<output>" s then stripFrom 7 s'
          else if String.prefix "</output>" s then stripFrom 8 s'
          else String c (stripFrom 0 s')
      end
  end.

Definition stripMarkers (s : string) : string := stripFrom 0 s.

Definition isSlash (c : ascii) : bool := Ascii.eqb c "/"%char.

Fixpoint allSlashes (s : string) : bool :=
  match s with
  | EmptyString => true
  | String c s' => isSlash c && allSlashes s'
  end.

Fixpoint noSlash (s : string) : bool :=
  match s with
  | EmptyString => true
  | String c s' => negb (isSlash c) && noSlash s'
  end.

(** The longest prefix of [s] without a slash: what [[^/]+] consumes once
    it has started. *)
Fixpoint takeSegment (s : string) : string :=
  match s with
  | EmptyString => EmptyString
  | String c s' => if isSlash c then EmptyString else String c (takeSegment s')
  end.

(** [id.match(/([^/]+)/)]: the leftmost, longest run of characters other
    than a slash; [None] is JavaScript's [null] (no such character). *)
Fixpoint firstSegment (s : string) : option string :=
  match s with
  | EmptyString => None
  | String c s' => if isSlash c then firstSegment s' else Some (takeSegment s)
  end.

(** No character of [s] is a left angle bracket. *)
Fixpoint noLt (s : string) : bool :=
  match s with
  | EmptyString => true
  | String c s' => negb (Ascii.eqb c "<"%char) && noLt s'
  end.

(** [f1 + f2 + ... + fN] *)
Definition joinAll (frags : list string) : string :=
  foldr String.append EmptyString frags.

(** Does [p] occur in [s] as a contiguous piece? *)
Fixpoint occursIn (p s : string) : bool :=
  String.prefix p s ||
  match s with
  | EmptyString => false
  | String _ s' => occursIn p s'
  end.

End Str.

(** ** Data model *)

Inductive Role := System | User | Assistant.

#[global] Instance Role_eq_dec : EqDecision Role.
Proof. solve_decision. Defined.

(** Modelled from the spec: the message types [UnrecordedMessage],
    [ToBeRecordedMessage], [RecordedMessage] and [ShownMessage] are declared
    in the package [generative-ai-use-cases-jp].  They are one object shape
    whose optional properties are present or [undefined]; [None] is
    [undefined].  The spec's [id], [usecaseTag], [modelTag] and [createdAt]
    are the properties [messageId], [usecase], [llmType] and [createdDate]
    the code reads and writes. *)
Record Message := mkMessage {
  role : Role;
  content : string;
  messageId : option string;
  usecase : option string;
  llmType : option string;
  createdDate : option string;
  feedback : option string
}.

#[global] Instance Message_eq_dec : EqDecision Message.
Proof. solve_decision. Defined.

(** The object literal [{ role, content }]. *)
Definition unrecorded (r : Role) (c : string) : Message :=
  mkMessage r c None None None None None.

(** Modelled from the spec: the type [Chat] (the spec's ChatRef) is declared
    in the package [generative-ai-use-cases-jp]; the code reads [chatId] and
    reads and writes [title]. *)
Record Chat := mkChat {
  chatId : string;
  title : string
}.

#[global] Instance Chat_eq_dec : EqDecision Chat.
Proof. solve_decision. Defined.

(** Modelled from the spec: the type [Model] is declared outside this file;
    the code reads [modelId] and writes [sessionId]. *)
Record Model := mkModel {
  modelId : string;
  sessionId : option string
}.

(** One entry of [chats]. *)
Record Conversation := mkConversation {
  chat : option Chat;
  messages : list Message
}.

(** The data part of the zustand store.  The three fields are plain
    JavaScript objects used as dictionaries; a [gmap] holds their own
    properties.  A read [obj[id]] that finds no own property goes on to
    [Object.prototype]: see [inherited], and the operations that test such
    a read ([init], [getCurrentSystemContext], [sendFeedback], the hook).
    Inside [produce] a write [draft[id] = ...] adds an own property, except
    for the key [__proto__]: see [initChat]. *)
Record Store := mkStore {
  chats : gmap string Conversation;
  modelIds : gmap string string;
  loading : gmap string bool
}.

Definition emptyStore : Store := mkStore ∅ ∅ ∅.

Definition withChats (f : gmap string Conversation → gmap string Conversation)
    (st : Store) : Store :=
  mkStore (f (chats st)) (modelIds st) (loading st).

(** ** Effects *)

(** What the engine does to the outside: requests to the collaborators and
    lines on the console, newest first. *)
Inductive Event :=
  | ConsoleError (msg : string)
  | CreateChat
  | CreateMessages (cid : string) (batch : list Message)
  | UpdateFeedback (cid created fb : string)
  | PredictStream (model : Model) (history : list Message)
      (extraSuffix : option string) (stopSequences : option (list string))
  | PredictTitle (c : option Chat) (history : list Message)
  | MutateListChat.

(** The store, the stores replaced by a [set] so far (newest first), the
    events so far (newest first), and how many identifiers [uuid] has
    handed out. *)
Record World := mkWorld {
  store : Store;
  snapshots : list Store;
  events : list Event;
  drawn : nat
}.

Definition initialWorld : World := mkWorld emptyStore [] [] 0.

(** What is thrown: [TypeError], by reading a property of [undefined];
    [DraftError], by immer when a write to its draft is refused;
    [Rejected], the error a collaborator fails with. *)
Inductive JsError := TypeError | DraftError | Rejected.

(** An exception does not roll the store back: both outcomes carry the
    world they end in. *)
Inductive Outcome (A : Type) :=
  | Returned (a : A) (w : World)
  | Thrown (e : JsError) (w : World).
Arguments Returned {A} a w.
Arguments Thrown {A} e w.

Definition Eng (A : Type) : Type := World → Outcome A.

Definition ret {A} (a : A) : Eng A := fun w => Returned a w.

Definition bind {A B} (m : Eng A) (k : A → Eng B) : Eng B :=
  fun w =>
    match m w with
    | Returned a w' => k a w'
    | Thrown e w' => Thrown e w'
    end.

Definition throw {A} (e : JsError) : Eng A := fun w => Thrown e w.

Notation "'do' x <- m ; k" := (bind m (fun x => k))
  (at level 10, x name, m at level 100, k at level 200).
Notation "m ;; k" := (bind m (fun _ => k))
  (at level 100, k at level 200, right associativity).

(** [get()]. *)
Definition getStore : Eng Store := fun w => Returned (store w) w.

(** [set(f)] with a callback that may throw: the store is replaced as a
    whole and the old one becomes a snapshot; when the callback throws,
    nothing is replaced. *)
Definition set (f : Store → option Store) : Eng unit :=
  fun w =>
    match f (store w) with
    | Some st' =>
        Returned tt (mkWorld st' (store w :: snapshots w) (events w) (drawn w))
    | None => Thrown TypeError w
    end.

Definition emit (e : Event) : Eng unit :=
  fun w => Returned tt (mkWorld (store w) (snapshots w) (e :: events w) (drawn w)).

(** [produce(state.chats, draft => ...)] on the entry [draft[id]]: reading
    a property of a missing entry throws.  So does calling a method of
    [draft[id].messages] when [id] is an inherited name without an own
    entry, the entry read being an object without [messages].  (The two
    closures that touch [draft[id].chat] alone, [setTitle] and
    [createChatIfNotExist], are called by [post] only, behind a push that
    has found an own entry.) *)
Definition onConversation (id : string) (f : Conversation → option Conversation)
    (st : Store) : option Store :=
  match chats st !! id with
  | Some conv =>
      match f conv with
      | Some conv' => Some (withChats <[id := conv']> st)
      | None => None
      end
  | None => None
  end.

(** ** Pieces of JavaScript *)

(** [l.slice(s, e)] with JavaScript's treatment of negative and
    out-of-range indices. *)
Definition jsSlice {A} (s e : Z) (l : list A) : list A :=
  let n := Z.of_nat (length l) in
  let from := if (s <? 0)%Z then Z.max (n + s) 0 else Z.min s n in
  let to := if (e <? 0)%Z then Z.max (n + e) 0 else Z.min e n in
  take (Z.to_nat (to - from)) (drop (Z.to_nat from) l).

(** [l.pop()]: the list without its last element, and that element. *)
Fixpoint jsPop {A} (l : list A) : option (list A * A) :=
  match l with
  | [] => None
  | x :: l' =>
      match jsPop l' with
      | None => Some ([], x)
      | Some (front, y) => Some (x :: front, y)
      end
  end.

(** [xs.indexOf(x)]: the first position holding [x], under [===]. *)
Fixpoint indexOf {A} `{EqDecision A} (x : A) (xs : list A) : option nat :=
  match xs with
  | [] => None
  | y :: ys => if decide (y = x) then Some 0 else S <$> indexOf x ys
  end.

(** [ms.findIndex(p)]. *)
Fixpoint findIndex {A} (p : A → bool) (xs : list A) : option nat :=
  match xs with
  | [] => None
  | y :: ys => if p y then Some 0 else S <$> findIndex p ys
  end.

(** A string in a condition: [undefined] and [''] are falsy. *)
Definition truthy (o : option string) : bool :=
  match o with
  | Some s => negb (String.eqb s "")
  | None => false
  end.

Definition isSystem (m : Message) : bool := bool_decide (role m = System).

(** The property names a plain object inherits from [Object.prototype].
    For such a name, [obj[name]] without an own property is not
    [undefined]: it is a method of the prototype, or the prototype itself
    for [__proto__]; either is truthy and has no property [messages] or
    [chat]. *)
Definition inheritedNames : list string :=
  ["__proto__"; "constructor"; "hasOwnProperty"; "isPrototypeOf";
   "propertyIsEnumerable"; "toLocaleString"; "toString"; "valueOf";
   "__defineGetter__"; "__defineSetter__"; "__lookupGetter__";
   "__lookupSetter__"].

Definition inherited (id : string) : bool :=
  existsb (String.eqb id) inheritedNames.

(** ** The collaborators

    [useChatApi], the prompt provider [getPrompter], the model catalog
    [findModelByModelId] and [uuid] live outside this file.  The engine
    only sees what they answer; the fields below are their answers when
    they answer, and [Weather] says which requests of a run are rejected
    instead.  The functions a caller hands to [post] ([preProcessInput],
    [postProcessOutput]) are taken to return. *)
Record Collaborators := mkCollaborators {
  (** [getPrompter(modelId).systemContext(id)] *)
  systemContext : string → string → string;
  findModelByModelId : string → option Model;
  (** the [n]-th identifier [uuid()] hands out *)
  uuid : nat → string;
  (** what [createChat()] answers when it answers, given how many events
      came before *)
  createChat : nat → Chat;
  (** what [createMessages] and [updateFeedback] answer when they answer *)
  createMessages : string → list Message → list Message;
  updateFeedback : string → string → string → Message;
  (** the fragments [predictStream(...)] yields before it ends or raises *)
  predictStream :
    Model → list Message → option string → option (list string) → list string;
  predictTitle : Chat → list Message → string
}.

(** What a run of [post] meets besides those answers. *)
Record Weather := mkWeather {
  (** the stream raises once the fragments of [predictStream] are consumed *)
  streamRaises : bool;
  (** [createChat()] is rejected *)
  createChatRejects : bool;
  (** [createMessages(...)] is rejected *)
  createMessagesRejects : bool;
  (** the detached title task completes while [post] awaits
      [createMessages]; otherwise it completes after [post] has returned,
      or never *)
  titleArrivesEarly : bool
}.

(** Every awaited call answers, and the title task is still pending when
    [post] returns. *)
Definition calm : Weather := mkWeather false false false false.

Definition raiseIf (b : bool) : Eng unit :=
  if b then throw Rejected else ret tt.

(** A task nobody awaits: what it throws is not thrown into the caller. *)
Definition detached (m : Eng unit) : Eng unit :=
  fun w =>
    match m w with
    | Returned _ w' => Returned tt w'
    | Thrown _ w' => Returned tt w'
    end.

Section Engine.

Variable env : Collaborators.

(** [get().modelIds[id] || ''], for an own entry or a key outside
    [inheritedNames].  (For an inherited name without an own entry the code
    hands on the inherited value, which is no string; what the prompt
    provider makes of it is not known here, and the properties of [init],
    [clear] and [restore] below are stated for the other keys.) *)
Definition getModelId (id : string) (st : Store) : string :=
  default "" (modelIds st !! id).

Definition setModelId (id newModelId : string) : Eng unit :=
  set (fun st =>
    Some (mkStore (chats st) (<[id := newModelId]> (modelIds st)) (loading st))).

Definition setLoading (id : string) (newLoading : bool) : Eng unit :=
  set (fun st =>
    Some (mkStore (chats st) (modelIds st) (<[id := newLoading]> (loading st)))).

(** [draft[id] = { chat, messages }] inside [produce].  For the key
    [__proto__] the assignment reaches the setter of [Object.prototype],
    which asks to change the prototype of the draft; immer refuses that
    and throws, so the callback of [set] throws and nothing is replaced. *)
Definition initChat (id : string) (ms : list Message) (c : option Chat) : Eng unit :=
  if String.eqb id "__proto__" then throw DraftError
  else set (fun st => Some (withChats <[id := mkConversation c ms]> st)).

(** The state [clear] leaves behind: the system message alone. *)
Definition blankConversation (id : string) (st : Store) : Conversation :=
  mkConversation None [unrecorded System (systemContext env (getModelId id st) id)].

Definition initChatWithSystemContext (id : string) : Eng unit :=
  do st <- getStore;
  initChat id [unrecorded System (systemContext env (getModelId id st) id)] None.

Definition setTitle (id newTitle : string) : Eng unit :=
  set (onConversation id (fun conv =>
    Some (match chat conv with
          | Some c => mkConversation (Some (mkChat (chatId c) newTitle)) (messages conv)
          | None => conv
          end))).

Definition omitUnusedMessageProperties (ms : list Message) : list Message :=
  map (fun m => unrecorded (role m) (content m)) ms.

(** The synchronous part of [setPredictedTitle]: the request goes out with
    the chat and the messages of that moment. *)
Definition setPredictedTitle (id : string) : Eng unit :=
  do st <- getStore;
  match chats st !! id with
  | Some conv =>
      emit (PredictTitle (chat conv) (omitUnusedMessageProperties (messages conv)))
  | None => throw TypeError
  end.

(** The rest of the detached task, at some later point of the schedule:
    the predicted title is set, then the list of chats is refreshed. *)
Definition titleTaskCompletes (id : string) (c : Chat) (history : list Message)
    : Eng unit :=
  setTitle id (predictTitle env c history) ;;
  emit MutateListChat.

Definition createChatIfNotExist (id : string) (c : option Chat) : Eng string :=
  match c with
  | Some c => ret (chatId c)
  | None =>
      fun w =>
        let newChat := createChat env (length (events w)) in
        (emit CreateChat ;;
         set (onConversation id (fun conv =>
           Some (mkConversation (Some newChat) (messages conv)))) ;;
         ret (chatId newChat)) w
  end.

(** [usecase] of a message that gets its identifier in the view [id]. *)
Definition usecaseTag (id : string) : string :=
  match Str.firstSegment id with
  | Some seg => "/" +:+ seg
  | None => id
  end.

(** [m.messageId = uuid(); m.usecase = ...] with the [n]-th identifier. *)
Definition identify (id : string) (n : nat) (m : Message) : Message :=
  mkMessage (role m) (content m) (Some (uuid env n)) (Some (usecaseTag id))
    (llmType m) (createdDate m) (feedback m).

(** The loop of [addMessageIdsToUnrecordedMessages] over the draft: the
    messages afterwards, the clones pushed to [toBeRecordedMessages], and
    the number of identifiers drawn, starting from [n]. *)
Fixpoint assignIds (id : string) (n : nat) (ms : list Message)
    : list Message * list Message * nat :=
  match ms with
  | [] => ([], [], n)
  | m :: rest =>
      if truthy (messageId m) then
        let '(ms', batch, n') := assignIds id n rest in
        (m :: ms', batch, n')
      else
        let '(ms', batch, n') := assignIds id (S n) rest in
        (identify id n m :: ms', identify id n m :: batch, n')
  end.

Definition addMessageIdsToUnrecordedMessages (id : string) : Eng (list Message) :=
  fun w =>
    match chats (store w) !! id with
    | Some conv =>
        let '(ms', batch, n') := assignIds id (drawn w) (messages conv) in
        Returned batch
          (mkWorld (withChats <[id := mkConversation (chat conv) ms']> (store w))
                   (store w :: snapshots w) (events w) n')
    | None => Thrown TypeError w
    end.

(** One round of the loop of [replaceMessages]. *)
Definition replaceOne (m : Message) (ms : list Message) : list Message :=
  match indexOf (messageId m) (map messageId ms) with
  | Some idx => <[idx := m]> ms
  | None => ms
  end.

Definition replaceAll (recs ms : list Message) : list Message :=
  foldl (fun acc m => replaceOne m acc) ms recs.

(** [draft[id]] is only read inside the loop: with no record to merge, a
    missing entry goes unnoticed. *)
Definition replaceMessages (id : string) (recs : list Message) : Eng unit :=
  match recs with
  | [] => set Some
  | _ => set (onConversation id (fun conv =>
           Some (mkConversation (chat conv) (replaceAll recs (messages conv)))))
  end.

(** *** The operations of the store *)

(** [if (!get().chats[id])]: an own entry is an object, and so is what an
    inherited name reads as; only a key that is neither gets a state. *)
Definition init (id : string) : Eng unit :=
  do st <- getStore;
  match chats st !! id with
  | Some _ => ret tt
  | None => if inherited id then ret tt else initChatWithSystemContext id
  end.

Definition clear (id : string) : Eng unit := initChatWithSystemContext id.

(** [value.chat?.chatId === chat.chatId] *)
Definition holdsChat (cid : string) (conv : Conversation) : bool :=
  match chat conv with
  | Some c => bool_decide (chatId c = cid)
  | None => false
  end.

(** The loop of [restore] over the entries [Object.entries(get().chats)]
    took when the loop started. *)
Fixpoint evict (cid : string) (entries : list (string * Conversation)) : Eng unit :=
  match entries with
  | [] => ret tt
  | (key, value) :: rest =>
      (if holdsChat cid value then initChatWithSystemContext key else ret tt) ;;
      evict cid rest
  end.

(** JavaScript walks the entries in insertion order, [map_to_list] in an
    order of its own: the order in which the evicted views are reset (and
    so the order of the snapshots of a restore) is not the code's.  The
    store a restore ends in does not depend on it. *)
Definition restore (id : string) (ms : list Message) (c : Chat) : Eng unit :=
  do st <- getStore;
  evict (chatId c) (map_to_list (chats st)) ;;
  initChat id ms (Some c).

Definition withContent (c : string) (m : Message) : Message :=
  mkMessage (role m) c (messageId m) (usecase m) (llmType m) (createdDate m)
    (feedback m).

Definition updateSystemContext (id newContext : string) : Eng unit :=
  set (onConversation id (fun conv =>
    Some (match findIndex isSystem (messages conv) with
          | Some idx =>
              mkConversation (chat conv)
                (alter (withContent newContext) idx (messages conv))
          | None => conv
          end))).

(** [if (chat)] holds for an own entry and for an inherited name; the
    latter has no [messages], and [.filter] of [undefined] throws. *)
Definition getCurrentSystemContext (id : string) : Eng string :=
  do st <- getStore;
  match chats st !! id with
  | Some conv =>
      match filter (fun m => role m = System) (messages conv) with
      | m :: _ => ret (content m)
      | [] => throw TypeError
      end
  | None => if inherited id then throw TypeError else ret ""
  end.

Definition pushMessage (id : string) (r : Role) (c : string) : Eng unit :=
  set (onConversation id (fun conv =>
    Some (mkConversation (chat conv) (messages conv ++ [unrecorded r c])))).

Definition popMessage (id : string) : Eng (option Message) :=
  do st <- getStore;
  match chats st !! id with
  | Some conv =>
      set (onConversation id (fun conv =>
        Some (mkConversation (chat conv)
                (match jsPop (messages conv) with
                 | Some (front, _) => front
                 | None => messages conv
                 end)))) ;;
      ret (last (messages conv))
  | None => throw TypeError
  end.

(** *** [post] *)

(** The message the streaming loop and the post-processing step push in
    place of the one they popped. *)
Definition assistantMessage (model : Model) (c : string) : Message :=
  mkMessage Assistant c None None (Some (modelId model)) None None.

(** The body of the streaming loop for one fragment. *)
Definition streamChunk (id : string) (model : Model) (chunk : string) : Eng unit :=
  set (onConversation id (fun conv =>
    match jsPop (messages conv) with
    | Some (front, old) =>
        Some (mkConversation (chat conv)
                (front ++
                 [assistantMessage model (Str.stripMarkers (content old +:+ chunk))]))
    | None => None
    end)).

(** [for await (const chunk of stream) { ... }] *)
Fixpoint streamLoop (id : string) (model : Model) (chunks : list string) : Eng unit :=
  match chunks with
  | [] => ret tt
  | chunk :: rest => streamChunk id model chunk ;; streamLoop id model rest
  end.

Definition postProcess (id : string) (model : Model) (f : string → string) : Eng unit :=
  set (onConversation id (fun conv =>
    match jsPop (messages conv) with
    | Some (front, old) =>
        Some (mkConversation (chat conv)
                (front ++ [assistantMessage model (f (content old))]))
    | None => None
    end)).

(** [ignoreHistory ? [chatMessages[0], ...chatMessages.slice(-2, -1)]
                   : chatMessages.slice(0, -1)]; [None] is an array whose
    first element is [undefined], which happens for no list [post] builds. *)
Definition inputMessages (ignoreHistory : bool) (chatMessages : list Message)
    : option (list Message) :=
  if ignoreHistory then
    match chatMessages with
    | first :: _ => Some (first :: jsSlice (-2) (-1) chatMessages)
    | [] => None
    end
  else Some (jsSlice 0 (-1) chatMessages).

(** [if (sessionId) { model.sessionId = sessionId; }].  The code writes
    into the object the catalog returned; the catalog is outside this
    file, and the model here is the value [post] goes on with. *)
Definition modelFor (model0 : Model) (session : option string) : Model :=
  if truthy session then mkModel (modelId model0) session else model0.

(** [post] in calm weather: every awaited call answers, and the detached
    title task is still pending when [post] returns ([postWith] below is
    [post] in any weather).  [mutateListChat] is the callback the title
    task ends with.  The model selection is looked up among the own
    entries of [modelIds]; for a view key of [inheritedNames] without one,
    the code goes on to ask the catalog about the inherited value, and the
    early return here stands for a catalog that knows no such model. *)
Definition post (id message : string) (ignoreHistory : bool)
    (preProcessInput : option (list Message → list Message))
    (postProcessOutput : option (string → string))
    (extraSuffix : option string) (stopSequences : option (list string))
    (session : option string) : Eng unit :=
  do st <- getStore;
  match modelIds st !! id with
  | None => emit (ConsoleError "modelId is not set")
  | Some mid =>
      if negb (truthy (Some mid)) then emit (ConsoleError "modelId is not set")
      else
        match findModelByModelId env mid with
        | None => emit (ConsoleError ("model not found for " +:+ mid))
        | Some model0 =>
            let model := modelFor model0 session in
            setLoading id true ;;
            set (onConversation id (fun conv =>
              Some (mkConversation (chat conv)
                      (messages conv ++
                       [unrecorded User message; unrecorded Assistant ""])))) ;;
            do st1 <- getStore;
            do chatMessages <-
              match chats st1 !! id with
              | Some conv => ret (messages conv)
              | None => throw TypeError
              end;
            do input <-
              match inputMessages ignoreHistory chatMessages with
              | Some input => ret input
              | None => throw TypeError
              end;
            let input :=
              match preProcessInput with Some f => f input | None => input end in
            let request := omitUnusedMessageProperties input in
            emit (PredictStream model request extraSuffix stopSequences) ;;
            streamLoop id model (predictStream env model request extraSuffix stopSequences) ;;
            match postProcessOutput with
            | Some f => postProcess id model f
            | None => ret tt
            end ;;
            setLoading id false ;;
            do st2 <- getStore;
            do current <-
              match chats st2 !! id with
              | Some conv => ret (chat conv)
              | None => throw TypeError
              end;
            do cid <- createChatIfNotExist id current;
            do st3 <- getStore;
            match chats st3 !! id with
            | Some conv =>
                match chat conv with
                | Some c => if String.eqb (title c) "" then setPredictedTitle id else ret tt
                | None => ret tt
                end
            | None => throw TypeError
            end ;;
            do toBeRecordedMessages <- addMessageIdsToUnrecordedMessages id;
            emit (CreateMessages cid toBeRecordedMessages) ;;
            replaceMessages id (createMessages env cid toBeRecordedMessages)
        end
  end.

(** [get().chats[id].chat]: [undefined] for an own entry without a chat
    and for an inherited name, a [TypeError] for any other missing key. *)
(** *** [post] in any weather *)

(** [createChatIfNotExist] when [createChat()] may be rejected: the
    request has gone out, nothing is attached. *)
Definition createChatIfNotExistIn (wx : Weather) (id : string) (c : option Chat)
    : Eng string :=
  match c with
  | Some c => ret (chatId c)
  | None =>
      fun w =>
        let newChat := createChat env (length (events w)) in
        (emit CreateChat ;;
         raiseIf (createChatRejects wx) ;;
         set (onConversation id (fun conv =>
           Some (mkConversation (Some newChat) (messages conv)))) ;;
         ret (chatId newChat)) w
  end.

(** The check of the title, with what the title task it starts holds on
    to: the chat and the messages of that moment. *)
Definition startTitleTask (id : string) : Eng (option (Chat * list Message)) :=
  do st <- getStore;
  match chats st !! id with
  | Some conv =>
      match chat conv with
      | Some c =>
          if String.eqb (title c) "" then
            setPredictedTitle id ;;
            ret (Some (c, omitUnusedMessageProperties (messages conv)))
          else ret None
      | None => ret None
      end
  | None => throw TypeError
  end.

(** The last statements of [post]: assign identifiers, submit the batch,
    merge the answer.  The await of [createMessages] is where the title
    task [task], when one was started, can complete before [post] goes
    on; and the request can be rejected, in which case nothing is
    merged. *)
Definition submitAndMerge (wx : Weather) (id cid : string)
    (task : option (Chat * list Message)) : Eng unit :=
  do toBeRecordedMessages <- addMessageIdsToUnrecordedMessages id;
  emit (CreateMessages cid toBeRecordedMessages) ;;
  (if titleArrivesEarly wx then
     match task with
     | Some (c, history) => detached (titleTaskCompletes id c history)
     | None => ret tt
     end
   else ret tt) ;;
  raiseIf (createMessagesRejects wx) ;;
  replaceMessages id (createMessages env cid toBeRecordedMessages).

(** [post] behind [setLoading(id, false)]. *)
Definition promoteAndSubmit (wx : Weather) (id : string) : Eng unit :=
  do st2 <- getStore;
  do current <-
    match chats st2 !! id with
    | Some conv => ret (chat conv)
    | None => throw TypeError
    end;
  do cid <- createChatIfNotExistIn wx id current;
  do task <- startTitleTask id;
  submitAndMerge wx id cid task.

(** [post] behind the streaming loop: an exception of the stream leaves
    the loop, and [post], at once. *)
Definition afterStream (wx : Weather) (id : string) (model : Model)
    (postProcessOutput : option (string → string)) : Eng unit :=
  raiseIf (streamRaises wx) ;;
  match postProcessOutput with
  | Some f => postProcess id model f
  | None => ret tt
  end ;;
  setLoading id false ;;
  promoteAndSubmit wx id.

(** [post] with its three awaits spelled out: the stream may raise, the
    two requests to the persistence service may be rejected, and the title
    task, once started, may complete during the one await that follows
    its start.  What is left out is what other callers do to the store
    while [post] is suspended; the runs below are the runs of one [post]
    on its own. *)
Definition postWith (wx : Weather) (id message : string) (ignoreHistory : bool)
    (preProcessInput : option (list Message → list Message))
    (postProcessOutput : option (string → string))
    (extraSuffix : option string) (stopSequences : option (list string))
    (session : option string) : Eng unit :=
  do st <- getStore;
  match modelIds st !! id with
  | None => emit (ConsoleError "modelId is not set")
  | Some mid =>
      if negb (truthy (Some mid)) then emit (ConsoleError "modelId is not set")
      else
        match findModelByModelId env mid with
        | None => emit (ConsoleError ("model not found for " +:+ mid))
        | Some model0 =>
            let model := modelFor model0 session in
            setLoading id true ;;
            set (onConversation id (fun conv =>
              Some (mkConversation (chat conv)
                      (messages conv ++
                       [unrecorded User message; unrecorded Assistant ""])))) ;;
            do st1 <- getStore;
            do chatMessages <-
              match chats st1 !! id with
              | Some conv => ret (messages conv)
              | None => throw TypeError
              end;
            do input <-
              match inputMessages ignoreHistory chatMessages with
              | Some input => ret input
              | None => throw TypeError
              end;
            let input :=
              match preProcessInput with Some f => f input | None => input end in
            let request := omitUnusedMessageProperties input in
            emit (PredictStream model request extraSuffix stopSequences) ;;
            streamLoop id model (predictStream env model request extraSuffix stopSequences) ;;
            afterStream wx id model postProcessOutput
        end
  end.

Definition sendFeedback (id created fb : string) : Eng unit :=
  do st <- getStore;
  match chats st !! id with
  | Some conv =>
      match chat conv with
      | Some c =>
          emit (UpdateFeedback (chatId c) created fb) ;;
          replaceMessages id [updateFeedback env (chatId c) created fb]
      | None => ret tt
      end
  | None => if inherited id then ret tt else throw TypeError
  end.

(** [sendFeedback] when [updateFeedback] may be rejected: the request has
    gone out, nothing is merged. *)
Definition sendFeedbackIn (rejected : bool) (id created fb : string) : Eng unit :=
  do st <- getStore;
  match chats st !! id with
  | Some conv =>
      match chat conv with
      | Some c =>
          emit (UpdateFeedback (chatId c) created fb) ;;
          raiseIf rejected ;;
          replaceMessages id [updateFeedback env (chatId c) created fb]
      | None => ret tt
      end
  | None => if inherited id then ret tt else throw TypeError
  end.

(** [ensureDurable(view)] of the spec: the call [post] makes,
    [createChatIfNotExist(id, get().chats[id].chat)]. *)
Definition ensureDurable (id : string) : Eng string :=
  do st <- getStore;
  match chats st !! id with
  | Some conv => createChatIfNotExist id (chat conv)
  | None => throw TypeError
  end.

(** The last three statements of [post]: assign identifiers, submit the
    batch for the chat [cid], merge the answer. *)
Definition reconcile (id cid : string) : Eng unit :=
  do toBeRecordedMessages <- addMessageIdsToUnrecordedMessages id;
  emit (CreateMessages cid toBeRecordedMessages) ;;
  replaceMessages id (createMessages env cid toBeRecordedMessages).

End Engine.

(** ** Reading the outcome *)

Definition finalWorld {A} (o : Outcome A) : World :=
  match o with
  | Returned _ w => w
  | Thrown _ w => w
  end.

(** The messages of a view, [[]] for a view without a state. *)
Definition messagesOf (id : string) (st : Store) : list Message :=
  match chats st !! id with
  | Some conv => messages conv
  | None => []
  end.

(** The content of the trailing message of a view. *)
Definition trailingContent (id : string) (st : Store) : option string :=
  content <$> last (messagesOf id st).

(** ** The operations that touch the messages of a view *)

Inductive Op :=
  | OpStream (model : Model) (chunk : string)
  | OpPostProcess (model : Model) (f : string → string)
  | OpAssignIds
  | OpMerge (recs : list Message)
  | OpFeedback (created fb : string)
  | OpPush (r : Role) (c : string)
  | OpPop.

Definition runOp (env : Collaborators) (id : string) (op : Op) : Eng unit :=
  match op with
  | OpStream model chunk => streamChunk id model chunk
  | OpPostProcess model f => postProcess id model f
  | OpAssignIds => addMessageIdsToUnrecordedMessages env id ;; ret tt
  | OpMerge recs => replaceMessages id recs
  | OpFeedback created fb => sendFeedback env id created fb
  | OpPush r c => pushMessage id r c
  | OpPop => popMessage id ;; ret tt
  end.

Fixpoint runOps (env : Collaborators) (id : string) (ops : list Op) : Eng unit :=
  match ops with
  | [] => ret tt
  | op :: rest => runOp env id op ;; runOps env id rest
  end.

(** The operations that pop the trailing message: the two that push a
    rebuilt one in its place, and [popMessage]. *)
Definition popsTail (op : Op) : bool :=
  match op with
  | OpStream _ _ | OpPostProcess _ _ | OpPop => true
  | _ => false
  end.

(** Along the run of [ops] from [w], position [i] is never the trailing
    one when an operation pops the trailing message. *)
Fixpoint awayFromTail (env : Collaborators) (id : string) (i : nat)
    (ops : list Op) (w : World) : bool :=
  match ops with
  | [] => true
  | op :: rest =>
      (negb (popsTail op) || bool_decide (S i < length (messagesOf id (store w)))%nat)
      && match runOp env id op w with
         | Returned _ w1 => awayFromTail env id i rest w1
         | Thrown _ _ => true
         end
  end.

(** ** Closed forms and invariants, for the statements *)

(** The content after the fragments [frags], starting from [c0]: what the
    loop computes, one [replace] per fragment. *)
Definition accumulate (c0 : string) (frags : list string) : string :=
  foldl (fun c f => Str.stripMarkers (c +:+ f)) c0 frags.

(** The store once the fragments [frags] have been applied to the view
    [id], whose messages were [front ++ [old]]. *)
Definition afterFragments (id : string) (model : Model) (c : option Chat)
    (front : list Message) (old : Message) (st : Store) (frags : list string)
    : Store :=
  match frags with
  | [] => st
  | _ =>
      withChats
        <[id := mkConversation c
                  (front ++ [assistantMessage model (accumulate (content old) frags)])]>
        st
  end.

(** The record that ends up at position [p] when [recs] are merged into
    messages with the identifiers [ids]: the last one whose identifier is
    first found at [p]. *)
Fixpoint winner (recs : list Message) (ids : list (option string)) (p : nat)
    : option Message :=
  match recs with
  | [] => None
  | m :: rest =>
      match winner rest ids p with
      | Some x => Some x
      | None => if decide (indexOf (messageId m) ids = Some p) then Some m else None
      end
  end.


(** The entry of the view [k] once every view bound to the chat [cid] has
    been reset. *)
Definition collapsed (env : Collaborators) (cid : string) (st : Store) (k : string)
    : option Conversation :=
  match chats st !! k with
  | Some v => if holdsChat cid v then Some (blankConversation env k st) else Some v
  | None => None
  end.

(** The title task that completes while [post] awaits [createMessages],
    if any: the one started, when it arrives early. *)
Definition arrived (wx : Weather) (task : option (Chat * list Message))
    : option (Chat * list Message) :=
  if titleArrivesEarly wx then task else None.

(** Every view of the store has a key outside [inheritedNames]. *)
Definition plainViews (st : Store) : bool :=
  forallb (fun e => negb (inherited e.1)) (map_to_list (chats st)).

(** Does the marker-stripped text still contain a complete marker? *)
Definition hasMarker (s : string) : bool :=
  Str.occursIn "<output>" s || Str.occursIn "</output>" s.

(** Is the event a request for a stream? *)
Definition isPredictStream (e : Event) : bool :=
  match e with
  | PredictStream _ _ _ _ => true
  | _ => false
  end.

(** The view [id] has a state with at least one message. *)
Definition ready (id : string) (w : World) : Prop :=
  ∃ conv, chats (store w) !! id = Some conv ∧ messages conv ≠ [].

(** From [w] to [w']: the list of the view keeps its length, and every
    message but the trailing one keeps its non-empty identifier. *)
Definition keepsFront (id : string) (w w' : World) : Prop :=
  length (messagesOf id (store w')) = length (messagesOf id (store w)) ∧
  ∀ i m x,
    (S i < length (messagesOf id (store w)))%nat →
    messagesOf id (store w) !! i = Some m → messageId m = Some x → x ≠ "" →
    ∃ m', messagesOf id (store w') !! i = Some m' ∧ messageId m' = Some x.

(** From [w] to [w']: the view is still ready, [modelIds] is untouched,
    the front of the list keeps its identifiers, and the events added are
    no requests for a stream. *)
Definition carriesOn (id : string) (w w' : World) : Prop :=
  ready id w' ∧
  modelIds (store w') = modelIds (store w) ∧
  keepsFront id w w' ∧
  ∃ later, events w' = later ++ events w ∧
           Forall (fun e => isPredictStream e = false) later.

(** The input [post] chooses, with [ms] the messages before the call. *)
Definition chosenInput (ignoreHistory : bool) (ms : list Message) (message : string)
    : list Message :=
  if ignoreHistory
  then [default (unrecorded User message) (head ms); unrecorded User message]
  else ms ++ [unrecorded User message].

(** The world at the moment the request for the stream has gone out: the
    loading flag is set, the user message and the placeholder are pushed,
    the request is the newest event. *)
Definition requested (id message : string) (request : Event) (conv : Conversation)
    (w : World) : World :=
  let st1 :=
    mkStore (chats (store w)) (modelIds (store w)) (<[id := true]> (loading (store w))) in
  mkWorld
    (withChats
       <[id := mkConversation (chat conv)
                 (messages conv ++ [unrecorded User message; unrecorded Assistant ""])]>
       st1)
    (st1 :: store w :: snapshots w) (request :: events w) (drawn w).

(** ** A sample deployment, for the concrete runs *)

Definition modelA : Model := mkModel "modelA" None.

Definition recordedAt (t : string) (m : Message) : Message :=
  mkMessage (role m) (content m) (messageId m) (usecase m) (llmType m) (Some t)
    (feedback m).

(** A catalog with one model, identifiers [uuid-0], [uuid-1], ..., and a
    persistence service that echoes a batch with a timestamp. *)
Definition sampleEnv : Collaborators :=
  mkCollaborators
    (fun _ id => "You are an assistant on " +:+ id)
    (fun mid => if String.eqb mid "modelA" then Some modelA else None)
    (fun n => "uuid-" +:+ pretty n)
    (fun n => mkChat ("chat-" +:+ pretty n) "")
    (fun _ batch => map (recordedAt "2024-01-01T00:00:00Z") batch)
    (fun _ created fb =>
       mkMessage Assistant "Hi there" (Some "uuid-2") (Some "/chat")
         (Some "modelA") (Some created) (Some fb))
    (fun _ _ _ _ => ["Hi"; " there"])
    (fun _ _ => "Greeting").

(** A view [/chat] with a model selected, after [init]. *)
Definition freshChat : World :=
  finalWorld (setModelId "/chat" "modelA" (finalWorld (init sampleEnv "/chat" initialWorld))).

(** The same view at the moment [post] starts to stream: the user message
    and the empty placeholder have been pushed. *)
Definition streamingChat : World :=
  finalWorld
    (set (onConversation "/chat" (fun conv =>
       Some (mkConversation (chat conv)
               (messages conv ++ [unrecorded User "Hello"; unrecorded Assistant ""]))))
       freshChat).

(** Two views bound to the chat [chat-1], as a restore finds them when the
    chat is already open elsewhere. *)
Definition boundChat : World :=
  finalWorld
    (initChat "/chat" [unrecorded System "s"; unrecorded User "Hello"]
       (Some (mkChat "chat-1" "Greeting"))
       (finalWorld (init sampleEnv "/summarize" initialWorld))).

(** A view hydrated with three recorded messages. *)
Definition restoredChat : World :=
  finalWorld
    (restore sampleEnv "/chat"
       [mkMessage System "s" (Some "m0") (Some "/chat") None (Some "t0") None;
        mkMessage User "Hello" (Some "m1") (Some "/chat") None (Some "t1") None;
        mkMessage Assistant "Hi" (Some "m2") (Some "/chat") (Some "modelA")
          (Some "t2") None]
       (mkChat "chat-1" "Greeting") initialWorld).

(** A view [/chat] after [init], with no model selected. *)
Definition unselectedChat : World := finalWorld (init sampleEnv "/chat" initialWorld).

(** A view hydrated from a chat the service holds no message of. *)
Definition restoredEmptyChat : World :=
  finalWorld (restore sampleEnv "/chat" [] (mkChat "chat-1" "Greeting") initialWorld).

(** The same view with a model selected. *)
Definition restoredEmptySelected : World :=
  finalWorld (setModelId "/chat" "modelA" restoredEmptyChat).

(** The view with the empty key, after [init]. *)
Definition emptyKeyChat : World := finalWorld (init sampleEnv "" initialWorld).

(** A view whose key does not start with a slash, after [init]. *)
Definition relativeKeyChat : World := finalWorld (init sampleEnv "chat/sub" initialWorld).

(** Fragments in which dropping a marker brings the pieces of another one
    together. *)
Definition nestedFragments : list string :=
  ["<<output>"; "output>"; "<<output>output>"].

(** ** What the hook [useChat] derives from the store *)

(** [loading[id] ?? false], for an own entry or a key outside
    [inheritedNames]. *)
Definition hookLoading (id : string) (st : Store) : bool :=
  default false (loading st !! id).

(** [chats[id]?.messages ?? []]: the messages of an own entry; an
    inherited name reads an object without [messages]. *)
Definition hookRawMessages (id : string) (st : Store) : list Message :=
  match chats st !! id with
  | Some conv => messages conv
  | None => []
  end.

(** [chats[id]?.messages.filter((chat) => chat.role !== 'system') ?? []].
    The [?.] guards [chats[id]] alone: for an inherited name it reads an
    object without [messages], and [.filter] of [undefined] throws; [None]
    is that [TypeError], thrown while the component renders. *)
Definition hookMessages (id : string) (st : Store) : option (list Message) :=
  match chats st !! id with
  | Some conv => Some (filter (fun m => role m ≠ System) (messages conv))
  | None => if inherited id then None else Some []
  end.

(** [filteredMessages.length === 0] *)
Definition hookIsEmpty (id : string) (st : Store) : option bool :=
  (fun ms => bool_decide (length ms = 0%nat)) <$> hookMessages id st.

(** The first effect of the hook: [if (!chatId) { init(id); }]. *)
Definition hookMount (env : Collaborators) (id : string) (cid : option string)
    : Eng unit :=
  if truthy cid then ret tt else init env id.

(** ** More closed forms, for the statements *)

(** The messages without an identifier, in order. *)
Definition lacking (ms : list Message) : list Message :=
  filter (fun m => truthy (messageId m) = false) ms.

(** The trailing message [post] ends the stream with: the placeholder
    when no fragment came, else the accumulated reply, then through
    [postProcessOutput] when there is one. *)
Definition streamedReply (model : Model) (chunks : list string)
    (postProcessOutput : option (string → string)) : Message :=
  let streamed :=
    match chunks with
    | [] => unrecorded Assistant ""
    | _ => assistantMessage model (accumulate "" chunks)
    end in
  match postProcessOutput with
  | Some f => assistantMessage model (f (content streamed))
  | None => streamed
  end.

(** The world [w], seen from the view [id]: the entry of [id] is [conv] over
    the views of [base], the model selection is the one of [base], and the
    loading flags, the number of snapshots, the events and the identifiers
    drawn are the given ones. *)
Definition viewIs (id : string) (base : Store) (conv : Conversation)
    (ld : gmap string bool) (n : nat) (evs : list Event) (d : nat) (w : World)
    : Prop :=
  chats (store w) = <[id := conv]> (chats base) ∧
  modelIds (store w) = modelIds base ∧
  loading (store w) = ld ∧
  length (snapshots w) = n ∧ events w = evs ∧ drawn w = d.

(** An object literal [{ role, content }] and nothing else. *)
Definition isBare (m : Message) : bool :=
  bool_decide (m = unrecorded (role m) (content m)).

(** A view that holds a chat and two recorded messages, with a model
    selected. *)
Definition recordedChat : World :=
  finalWorld
    (setModelId "/chat" "modelA"
       (finalWorld
          (restore sampleEnv "/chat"
             [mkMessage System "s" (Some "m0") (Some "/chat") None (Some "t0") None;
              mkMessage Assistant "Hi" (Some "m2") (Some "/chat") (Some "modelA")
                (Some "t2") None]
             (mkChat "chat-1" "Greeting") initialWorld))).

(** A model is selected for a view the store has no state of, as when a
    page of a recorded chat is opened and its messages are still loading. *)
Definition loadingChat : World :=
  finalWorld (setModelId "/chat/chat-1" "modelA" initialWorld).

(** From [st] to [st']: every view but [id], the model selection and the
    loading flags are the same. *)
Definition sameElsewhere (id : string) (st st' : Store) : Prop :=
  (∀ k, k ≠ id → chats st' !! k = chats st !! k) ∧
  modelIds st' = modelIds st ∧
  loading st' = loading st.

(** The states of the sample views, by name. *)
Definition freshView : Conversation :=
  mkConversation None [unrecorded System "You are an assistant on /chat"].

Definition streamingView : Conversation :=
  mkConversation None
    [unrecorded System "You are an assistant on /chat"; unrecorded User "Hello";
     unrecorded Assistant ""].

Definition boundView : Conversation :=
  mkConversation (Some (mkChat "chat-1" "Greeting"))
    [unrecorded System "s"; unrecorded User "Hello"].

Definition emptyView : Conversation :=
  mkConversation (Some (mkChat "chat-1" "Greeting")) [].

(** Two canonical records with different identifiers. *)
Definition recordHello : Message :=
  mkMessage User "Hello" (Some "m1") (Some "/chat") None (Some "t1") (Some "good").

Definition recordHi : Message :=
  mkMessage Assistant "Hi!" (Some "m2") (Some "/chat") (Some "modelA") (Some "t2") None.

(** * Properties *)

(** ** Lists and strings *)

Lemma jsPop_snoc {A} (front : list A) (x : A) : jsPop (front ++ [x]) = Some (front, x).
Proof.
  induction front as [|y front IH]; simpl; [done|].
  by rewrite IH.
Qed.

Lemma jsPop_None {A} (l : list A) : jsPop l = None → l = [].
Proof.
  destruct l as [|x l]; [done|]. simpl.
  destruct (jsPop l) as [[front y]|]; discriminate.
Qed.

Lemma jsPop_Some {A} (l front : list A) (x : A) :
  jsPop l = Some (front, x) → l = front ++ [x].
Proof.
  revert front x. induction l as [|y l IH]; intros front x; simpl; [discriminate|].
  destruct (jsPop l) as [[front' z]|] eqn:E.
  - intros [= <- <-]. simpl. f_equal. by apply IH.
  - intros [= <- <-]. by rewrite (jsPop_None l E).
Qed.

Lemma accumulate_cons c0 f frags :
  accumulate c0 (f :: frags) = accumulate (Str.stripMarkers (c0 +:+ f)) frags.
Proof. reflexivity. Qed.

Lemma accumulate_snoc c0 frags f :
  accumulate c0 (frags ++ [f]) = Str.stripMarkers (accumulate c0 frags +:+ f).
Proof. unfold accumulate. by rewrite foldl_snoc. Qed.

(** ** Stripping a prefix first *)

Lemma append_cons c (s t : string) : String c s +:+ t = String c (s +:+ t).
Proof. reflexivity. Qed.

Lemma append_nil_r (s : string) : s +:+ "" = s.
Proof. induction s as [|c s IH]; [done|]. by rewrite append_cons, IH. Qed.

Lemma append_assoc (a b c : string) : (a +:+ b) +:+ c = a +:+ b +:+ c.
Proof. induction a as [|x a IH]; [done|]. by rewrite !append_cons, IH. Qed.

Lemma stripFrom_other c s :
  c ≠ "<"%char →
  Str.stripFrom 0 (String c s) = String c (Str.stripFrom 0 s).
Proof.
  intros Hc. cbn [Str.stripFrom String.prefix].
  by destruct (ascii_dec "<" c) as [E|_]; [subst c|].
Qed.

Lemma stripFrom_open x :
  Str.stripFrom 0
    (String "<" (String "o" (String "u" (String "t" (String "p"
       (String "u" (String "t" (String ">" x))))))))
  = Str.stripFrom 0 x.
Proof. by destruct x. Qed.

Lemma stripFrom_close x :
  Str.stripFrom 0
    (String "<" (String "/" (String "o" (String "u" (String "t" (String "p"
       (String "u" (String "t" (String ">" x)))))))))
  = Str.stripFrom 0 x.
Proof. by destruct x. Qed.

(** Peel one character off [a] when a marker is known to start
    [a +:+ b]: either [a] ends inside the marker, and stripping leaves it
    alone, or the next character is the marker's. *)
Ltac peel_marker a P :=
  let c := fresh "c" in
  destruct a as [|c a];
  [ reflexivity
  | rewrite append_cons in P; cbn [String.prefix] in P;
    match type of P with
    | (if ?d then _ else _) = true => destruct d as [<-|]; [|discriminate]
    end ].

(** When every left angle bracket of [a +:+ b] opens a marker, that is
    when none is left in the stripped string, stripping [a] first makes no
    difference. *)
Lemma strip_prefix_first : ∀ (n : nat) (a b : string),
  (String.length a ≤ n)%nat →
  Str.noLt (Str.stripMarkers (a +:+ b)) = true →
  Str.stripMarkers (Str.stripMarkers a +:+ b) = Str.stripMarkers (a +:+ b).
Proof.
  unfold Str.stripMarkers.
  induction n as [|n IH]; intros a b Hlen H.
  - destruct a; [done|]. cbn in Hlen. lia.
  - destruct a as [|c a]; [done|].
    destruct (ascii_dec c "<") as [->|Hc].
    + destruct (String.prefix "<output>" (String "<" a +:+ b)) eqn:P1;
        [|destruct (String.prefix "</output>" (String "<" a +:+ b)) eqn:P2].
      * rewrite append_cons in P1. cbn [String.prefix] in P1.
        destruct (ascii_dec "<" "<"); [|done].
        do 7 peel_marker a P1.
        rewrite !append_cons in *. rewrite !stripFrom_open in *.
        apply (IH a b); [cbn in Hlen; lia|exact H].
      * rewrite append_cons in P2. cbn [String.prefix] in P2.
        destruct (ascii_dec "<" "<"); [|done].
        do 8 peel_marker a P2.
        rewrite !append_cons in *. rewrite !stripFrom_close in *.
        apply (IH a b); [cbn in Hlen; lia|exact H].
      * exfalso. rewrite append_cons in H, P1, P2. cbn [Str.stripFrom] in H.
        rewrite P1, P2 in H. done.
    + rewrite (stripFrom_other c a Hc).
      rewrite !append_cons in *. rewrite !(stripFrom_other c _ Hc) in *.
      f_equal. apply IH; [cbn in Hlen; lia|].
      cbn [Str.noLt] in H. by apply andb_true_iff in H as [_ H].
Qed.

(** Under the same condition on the whole stream, re-stripping the
    accumulated content at every fragment gives the stripped
    concatenation. *)
Lemma accumulate_stripped_concatenation frags : ∀ a,
  Str.noLt (Str.stripMarkers (a +:+ Str.joinAll frags)) = true →
  accumulate (Str.stripMarkers a) frags = Str.stripMarkers (a +:+ Str.joinAll frags).
Proof.
  induction frags as [|f frags IH]; intros a H.
  - cbn. by rewrite append_nil_r.
  - rewrite accumulate_cons.
    change (Str.joinAll (f :: frags)) with (f +:+ Str.joinAll frags) in *.
    rewrite <- append_assoc in H |- *.
    assert (E : Str.stripMarkers ((Str.stripMarkers a +:+ f) +:+ Str.joinAll frags)
                = Str.stripMarkers ((a +:+ f) +:+ Str.joinAll frags)).
    { rewrite !append_assoc.
      apply (strip_prefix_first (String.length a)); [done|].
      by rewrite <- append_assoc. }
    rewrite <- E. apply IH. by rewrite E.
Qed.

(** Starting from the empty placeholder. *)
Lemma accumulate_from_placeholder frags :
  Str.noLt (Str.stripMarkers (Str.joinAll frags)) = true →
  accumulate "" frags = Str.stripMarkers (Str.joinAll frags).
Proof. apply (accumulate_stripped_concatenation frags ""). Qed.

(** ** Stripping a prefix first, without a marker left *)

Lemma prefix_app_true p : ∀ s, String.prefix p s = true → ∃ rest, s = p +:+ rest.
Proof.
  induction p as [|c p IH]; intros s H.
  - by exists s.
  - destruct s as [|d s]; [done|]. cbn [String.prefix] in H.
    destruct (ascii_dec c d) as [->|]; [|done].
    destruct (IH s H) as [rest ->]. by exists rest.
Qed.

Lemma prefix_append p rest : String.prefix p (p +:+ rest) = true.
Proof.
  induction p as [|c p IH]; [by destruct rest|].
  rewrite append_cons. cbn [String.prefix]. by destruct (ascii_dec c c).
Qed.

Lemma prefix_extend p a b :
  String.prefix p a = true → String.prefix p (a +:+ b) = true.
Proof.
  intros [rest ->]%prefix_app_true. rewrite append_assoc. apply prefix_append.
Qed.

Lemma hasMarker_tail c s : hasMarker (String c s) = false → hasMarker s = false.
Proof.
  unfold hasMarker. cbn [Str.occursIn].
  intros [[_ H1]%orb_false_iff [_ H2]%orb_false_iff]%orb_false_iff.
  by rewrite H1, H2.
Qed.

Lemma hasMarker_head s :
  hasMarker s = false →
  String.prefix "<output>" s = false ∧ String.prefix "</output>" s = false.
Proof.
  unfold hasMarker. intros [H1 H2]%orb_false_iff.
  destruct s as [|c s]; cbn [Str.occursIn] in H1, H2;
    apply orb_false_iff in H1 as [H1 _]; apply orb_false_iff in H2 as [H2 _];
    by split.
Qed.

(** A left angle bracket that opens no marker is kept. *)
Lemma stripFrom_lt x :
  String.prefix "<output>" (String "<" x) = false →
  String.prefix "</output>" (String "<" x) = false →
  Str.stripFrom 0 (String "<" x) = String "<" (Str.stripFrom 0 x).
Proof. intros P1 P2. cbn [Str.stripFrom]. by rewrite P1, P2. Qed.

(** So is a stretch of text without a left angle bracket. *)
Lemma stripFrom_plain_prefix m rest :
  Str.noLt m = true →
  Str.stripFrom 0 (m +:+ rest) = m +:+ Str.stripFrom 0 rest.
Proof.
  induction m as [|c m IH]; [done|]. cbn [Str.noLt].
  intros [Hc Hm]%andb_true_iff. rewrite !append_cons.
  rewrite stripFrom_other, IH; [done|done|].
  intros ->. done.
Qed.

(** When the stripped text holds no complete marker, stripping a prefix
    of the text first makes no difference: a marker that the stripping of
    the prefix would bring together would also come together, and stay,
    in the stripped text. *)
Lemma strip_prefix_first_markerfree : ∀ (n : nat) (a b : string),
  (String.length a ≤ n)%nat →
  hasMarker (Str.stripMarkers (a +:+ b)) = false →
  Str.stripMarkers (Str.stripMarkers a +:+ b) = Str.stripMarkers (a +:+ b).
Proof.
  unfold Str.stripMarkers.
  induction n as [|n IH]; intros a b Hlen H.
  - destruct a; [done|]. cbn in Hlen. lia.
  - destruct a as [|c a]; [done|].
    destruct (ascii_dec c "<") as [->|Hc].
    + destruct (String.prefix "<output>" (String "<" a +:+ b)) eqn:P1;
        [|destruct (String.prefix "</output>" (String "<" a +:+ b)) eqn:P2].
      * rewrite append_cons in P1. cbn [String.prefix] in P1.
        destruct (ascii_dec "<" "<"); [|done].
        do 7 peel_marker a P1.
        rewrite !append_cons in *. rewrite !stripFrom_open in *.
        apply (IH a b); [cbn in Hlen; lia|exact H].
      * rewrite append_cons in P2. cbn [String.prefix] in P2.
        destruct (ascii_dec "<" "<"); [|done].
        do 8 peel_marker a P2.
        rewrite !append_cons in *. rewrite !stripFrom_close in *.
        apply (IH a b); [cbn in Hlen; lia|exact H].
      * rewrite append_cons in H, P1, P2.
        assert (Q1 : String.prefix "<output>" (String "<" a) = false).
        { destruct (String.prefix "<output>" (String "<" a)) eqn:Q; [|done].
          apply (prefix_extend _ _ b) in Q. rewrite append_cons in Q. congruence. }
        assert (Q2 : String.prefix "</output>" (String "<" a) = false).
        { destruct (String.prefix "</output>" (String "<" a)) eqn:Q; [|done].
          apply (prefix_extend _ _ b) in Q. rewrite append_cons in Q. congruence. }
        rewrite (stripFrom_lt a Q1 Q2), !append_cons.
        rewrite (stripFrom_lt (a +:+ b) P1 P2) in H |- *.
        assert (E : Str.stripFrom 0 (Str.stripFrom 0 a +:+ b)
                    = Str.stripFrom 0 (a +:+ b)).
        { apply IH; [cbn in Hlen; lia|]. by apply hasMarker_tail in H. }
        apply hasMarker_head in H as [H1 H2].
        rewrite stripFrom_lt; [by rewrite E| |].
        -- destruct (String.prefix "<output>"
                       (String "<" (Str.stripFrom 0 a +:+ b))) eqn:R; [|done].
           apply prefix_app_true in R as [rest R].
           change ("<output>" +:+ rest) with (String "<" ("output>" +:+ rest)) in R.
           injection R as R. rewrite R in E.
           rewrite (stripFrom_plain_prefix "output>" rest eq_refl) in E.
           rewrite <- E in H1.
           change (String "<" ("output>" +:+ Str.stripFrom 0 rest))
             with ("<output>" +:+ Str.stripFrom 0 rest) in H1.
           by rewrite prefix_append in H1.
        -- destruct (String.prefix "</output>"
                       (String "<" (Str.stripFrom 0 a +:+ b))) eqn:R; [|done].
           apply prefix_app_true in R as [rest R].
           change ("</output>" +:+ rest) with (String "<" ("/output>" +:+ rest)) in R.
           injection R as R. rewrite R in E.
           rewrite (stripFrom_plain_prefix "/output>" rest eq_refl) in E.
           rewrite <- E in H2.
           change (String "<" ("/output>" +:+ Str.stripFrom 0 rest))
             with ("</output>" +:+ Str.stripFrom 0 rest) in H2.
           by rewrite prefix_append in H2.
    + rewrite (stripFrom_other c a Hc).
      rewrite !append_cons in *. rewrite !(stripFrom_other c _ Hc) in *.
      f_equal. apply IH; [cbn in Hlen; lia|]. by apply hasMarker_tail in H.
Qed.

(** So, when the marker-stripped concatenation holds no complete marker,
    re-stripping the accumulated content at every fragment gives that
    stripped concatenation. *)
Lemma accumulate_markerfree frags : ∀ a,
  hasMarker (Str.stripMarkers (a +:+ Str.joinAll frags)) = false →
  accumulate (Str.stripMarkers a) frags = Str.stripMarkers (a +:+ Str.joinAll frags).
Proof.
  induction frags as [|f frags IH]; intros a H.
  - cbn. by rewrite append_nil_r.
  - rewrite accumulate_cons.
    change (Str.joinAll (f :: frags)) with (f +:+ Str.joinAll frags) in *.
    rewrite <- append_assoc in H |- *.
    assert (E : Str.stripMarkers ((Str.stripMarkers a +:+ f) +:+ Str.joinAll frags)
                = Str.stripMarkers ((a +:+ f) +:+ Str.joinAll frags)).
    { rewrite !append_assoc.
      apply (strip_prefix_first_markerfree (String.length a)); [done|].
      by rewrite <- append_assoc. }
    rewrite <- E. apply IH. by rewrite E.
Qed.

(** Text without a left angle bracket holds no marker. *)
Lemma noLt_hasMarker s : Str.noLt s = true → hasMarker s = false.
Proof.
  unfold hasMarker. induction s as [|c s IH]; [done|]. cbn [Str.noLt].
  intros [Hc Hs]%andb_true_iff. specialize (IH Hs).
  apply orb_false_iff in IH as [I1 I2]. cbn [Str.occursIn String.prefix].
  rewrite I1, I2.
  destruct (ascii_dec "<" c) as [<-|]; [done|done].
Qed.

(** ** The streaming loop *)

Lemma withChats_insert_insert id c1 c2 st :
  withChats <[id := c2]> (withChats <[id := c1]> st) = withChats <[id := c2]> st.
Proof. unfold withChats. simpl. by rewrite insert_insert_eq. Qed.

Lemma streamChunk_run id model chunk w conv front old :
  chats (store w) !! id = Some conv →
  messages conv = front ++ [old] →
  streamChunk id model chunk w =
    Returned tt
      (mkWorld (afterFragments id model (chat conv) front old (store w) [chunk])
               (store w :: snapshots w) (events w) (drawn w)).
Proof.
  intros Hc Hm. unfold streamChunk, set, onConversation.
  by rewrite Hc, Hm, jsPop_snoc.
Qed.

Lemma afterFragments_cons id model c front old st f frags :
  afterFragments id model c front
    (assistantMessage model (Str.stripMarkers (content old +:+ f)))
    (afterFragments id model c front old st [f]) frags
  = afterFragments id model c front old st (f :: frags).
Proof.
  destruct frags as [|g frags]; [done|].
  unfold afterFragments. by rewrite withChats_insert_insert.
Qed.

(** The loop never throws on a view with a trailing message; it leaves one
    snapshot per fragment, the [k]-th being the store with the first [k]
    fragments applied. *)
Lemma streamLoop_run id model frags : ∀ w conv front old,
  chats (store w) !! id = Some conv →
  messages conv = front ++ [old] →
  streamLoop id model frags w =
    Returned tt
      (mkWorld (afterFragments id model (chat conv) front old (store w) frags)
               (rev (map (fun k =>
                       afterFragments id model (chat conv) front old (store w)
                         (take k frags))
                     (seq 0 (length frags))) ++ snapshots w)
               (events w) (drawn w)).
Proof.
  induction frags as [|f frags IH]; intros w conv front old Hc Hm.
  - simpl. unfold ret. by destruct w.
  - cbn [streamLoop]. unfold bind at 1.
    rewrite (streamChunk_run id model f w conv front old Hc Hm).
    set (a := assistantMessage model (Str.stripMarkers (content old +:+ f))).
    set (w1 := mkWorld _ _ _ _).
    rewrite (IH w1 (mkConversation (chat conv) (front ++ [a])) front a).
    + subst w1 a. cbn [store snapshots events drawn chat].
      rewrite afterFragments_cons. f_equal. f_equal.
      cbn [length seq map rev take]. rewrite <- seq_shift, map_map.
      rewrite <- app_assoc. cbn [app]. f_equal. f_equal.
      apply map_ext. intros k. cbn [take].
      by rewrite afterFragments_cons.
    + subst w1. cbn. by rewrite lookup_insert_eq.
    + done.
Qed.

Lemma trailingContent_afterFragments id model c front old st frags :
  chats st !! id = Some (mkConversation c (front ++ [old])) →
  trailingContent id (afterFragments id model c front old st frags)
  = Some (accumulate (content old) frags).
Proof.
  intros Hc. unfold trailingContent, messagesOf.
  destruct frags as [|f frags].
  - cbn [afterFragments]. rewrite Hc. cbn [messages]. by rewrite last_snoc.
  - cbn [afterFragments withChats chats]. rewrite lookup_insert_eq.
    cbn [messages]. by rewrite last_snoc.
Qed.

(** The one-pass stripping, equation by equation: a marker at the front is
    dropped and the pass goes on behind it; any other character is kept. *)
Lemma stripMarkers_equations :
  Str.stripMarkers "" = "" ∧
  (∀ s, Str.stripMarkers ("<output>" +:+ s) = Str.stripMarkers s) ∧
  (∀ s, Str.stripMarkers ("</output>" +:+ s) = Str.stripMarkers s) ∧
  (∀ c s, String.prefix "<output>" (String c s) = false →
          String.prefix "</output>" (String c s) = false →
          Str.stripMarkers (String c s) = String c (Str.stripMarkers s)).
Proof.
  split; [done|]. split; [exact stripFrom_open|]. split; [exact stripFrom_close|].
  intros c s P1 P2. unfold Str.stripMarkers. cbn [Str.stripFrom]. by rewrite P1, P2.
Qed.

(** C1, as amended.  On a view whose trailing message is the empty
    placeholder [post] has pushed, the streaming loop returns for every
    finite list of fragments; it replaces the store once per fragment
    (the snapshots it leaves are, oldest first, the stores with the first
    0, 1, ..., N-1 fragments applied); after [k] fragments the content of the
    trailing message is what [k] rounds of [content := strip(content +
    fragment)] give from the empty string, [strip] being the one pass that
    drops every marker it meets and keeps every other character; that is
    the marker-stripped concatenation of the fragments whenever that
    stripped concatenation holds no complete marker, and for a single
    fragment; and nothing but the view's trailing message changes. *)
Theorem stream_loop_accumulates id model frags w conv front :
  chats (store w) !! id = Some conv →
  messages conv = front ++ [mkMessage Assistant "" None None None None None] →
  ∃ w' after,
    streamLoop id model frags w = Returned tt w' ∧
    after = (fun k =>
      afterFragments id model (chat conv) front
        (mkMessage Assistant "" None None None None None)
        (store w) (take k frags)) ∧
    store w' = after (length frags) ∧
    snapshots w' = rev (map after (seq 0 (length frags))) ++ snapshots w ∧
    length (snapshots w') = length frags + length (snapshots w) ∧
    (∀ k, trailingContent id (after k) = Some (accumulate "" (take k frags))) ∧
    trailingContent id (store w') = Some (accumulate "" frags) ∧
    accumulate "" [] = "" ∧
    (∀ fs f, accumulate "" (fs ++ [f]) = Str.stripMarkers (accumulate "" fs +:+ f)) ∧
    Str.stripMarkers "" = "" ∧
    (∀ s, Str.stripMarkers ("<output>" +:+ s) = Str.stripMarkers s) ∧
    (∀ s, Str.stripMarkers ("</output>" +:+ s) = Str.stripMarkers s) ∧
    (∀ c s, String.prefix "<output>" (String c s) = false →
            String.prefix "</output>" (String c s) = false →
            Str.stripMarkers (String c s) = String c (Str.stripMarkers s)) ∧
    (hasMarker (Str.stripMarkers (Str.joinAll frags)) = false →
     trailingContent id (store w') = Some (Str.stripMarkers (Str.joinAll frags))) ∧
    (∀ f, frags = [f] → trailingContent id (store w') = Some (Str.stripMarkers f)) ∧
    messagesOf id (store w') =
      match frags with
      | [] => messages conv
      | _ =>
          front ++
          [mkMessage Assistant (accumulate "" frags) None None (Some (modelId model))
             None None]
      end ∧
    (∀ k, k ≠ id → chats (store w') !! k = chats (store w) !! k) ∧
    modelIds (store w') = modelIds (store w) ∧
    loading (store w') = loading (store w) ∧
    events w' = events w ∧ drawn w' = drawn w.
Proof.
  intros Hc Hm.
  assert (Hc' : chats (store w) !! id
                = Some (mkConversation (chat conv) (front ++ [unrecorded Assistant ""]))).
  { rewrite Hc. unfold unrecorded. rewrite <- Hm. by destruct conv. }
  eexists _, _. split; [exact (streamLoop_run id model frags w conv front _ Hc Hm)|].
  split; [reflexivity|]. cbn [store snapshots events drawn].
  rewrite firstn_all.
  destruct stripMarkers_equations as (S0 & S1 & S2 & S3).
  assert (Hfinal : trailingContent id
                     (afterFragments id model (chat conv) front
                        (mkMessage Assistant "" None None None None None) (store w) frags)
                   = Some (accumulate "" frags)).
  { by rewrite (trailingContent_afterFragments _ _ _ _ _ _ _ Hc'). }
  split; [done|]. split; [done|].
  split; [by rewrite length_app, length_rev, length_map, length_seq|].
  split; [intros k; by rewrite (trailingContent_afterFragments _ _ _ _ _ _ _ Hc')|].
  split; [exact Hfinal|]. split; [done|].
  split; [intros fs f; apply accumulate_snoc|].
  split; [exact S0|]. split; [exact S1|]. split; [exact S2|]. split; [exact S3|].
  split.
  { intros Hfree. rewrite Hfinal. f_equal.
    apply (accumulate_markerfree frags ""). exact Hfree. }
  split.
  { intros f ->. by rewrite Hfinal. }
  split.
  { unfold messagesOf. destruct frags as [|f frags]; cbn [afterFragments].
    - by rewrite Hc.
    - cbn [withChats chats]. by rewrite lookup_insert_eq. }
  split; [|by destruct frags].
  intros k Hk. destruct frags as [|f frags]; cbn [afterFragments]; [done|].
  cbn [withChats chats]. by rewrite lookup_insert_ne.
Qed.

Lemma stream_loop_accumulates_witness :
  ∃ w' after,
    streamLoop "/chat" modelA ["<output>Hi"; " the"; "re</out"; "put>"] streamingChat
      = Returned tt w' ∧
    after = (fun k =>
      afterFragments "/chat" modelA None
        [mkMessage System "You are an assistant on /chat" None None None None None;
         mkMessage User "Hello" None None None None None]
        (mkMessage Assistant "" None None None None None) (store streamingChat)
        (take k ["<output>Hi"; " the"; "re</out"; "put>"])) ∧
    store w' = after 4 ∧
    snapshots w' = rev (map after (seq 0 4)) ++ snapshots streamingChat ∧
    length (snapshots w') = 4 + length (snapshots streamingChat) ∧
    (∀ k, trailingContent "/chat" (after k)
          = Some (accumulate "" (take k ["<output>Hi"; " the"; "re</out"; "put>"]))) ∧
    trailingContent "/chat" (store w') = Some "Hi there" ∧
    accumulate "" [] = "" ∧
    (∀ fs f, accumulate "" (fs ++ [f]) = Str.stripMarkers (accumulate "" fs +:+ f)) ∧
    Str.stripMarkers "" = "" ∧
    (∀ s, Str.stripMarkers ("<output>" +:+ s) = Str.stripMarkers s) ∧
    (∀ s, Str.stripMarkers ("</output>" +:+ s) = Str.stripMarkers s) ∧
    (∀ c s, String.prefix "<output>" (String c s) = false →
            String.prefix "</output>" (String c s) = false →
            Str.stripMarkers (String c s) = String c (Str.stripMarkers s)) ∧
    (hasMarker "Hi there" = false →
     trailingContent "/chat" (store w') = Some "Hi there") ∧
    (∀ f, ["<output>Hi"; " the"; "re</out"; "put>"] = [f] →
          trailingContent "/chat" (store w') = Some (Str.stripMarkers f)) ∧
    messagesOf "/chat" (store w') =
      [mkMessage System "You are an assistant on /chat" None None None None None;
       mkMessage User "Hello" None None None None None;
       mkMessage Assistant "Hi there" None None (Some "modelA") None None] ∧
    (∀ k, k ≠ "/chat" → chats (store w') !! k = chats (store streamingChat) !! k) ∧
    modelIds (store w') = modelIds (store streamingChat) ∧
    loading (store w') = loading (store streamingChat) ∧
    events w' = events streamingChat ∧ drawn w' = drawn streamingChat.
Proof.
  apply (stream_loop_accumulates "/chat" modelA
           ["<output>Hi"; " the"; "re</out"; "put>"] streamingChat
           (mkConversation None
              [mkMessage System "You are an assistant on /chat" None None None None None;
               mkMessage User "Hello" None None None None None;
               mkMessage Assistant "" None None None None None])
           [mkMessage System "You are an assistant on /chat" None None None None None;
            mkMessage User "Hello" None None None None None]).
  - vm_compute. reflexivity.
  - reflexivity.
Defined.

(** The content after each of the four fragments of that run. *)
Example accumulate_split_marker :
  map (fun k => accumulate "" (take k ["<output>Hi"; " the"; "re</out"; "put>"]))
    [0; 1; 2; 3; 4]%nat
  = [""; "Hi"; "Hi the"; "Hi there</out"; "Hi there"].
Proof. reflexivity. Qed.

(** A left angle bracket that opens no marker stays in the content; the
    content is still the stripped concatenation. *)
Example accumulate_with_a_plain_bracket :
  accumulate "" ["a < b"; "<out"; "put> and c"] = "a < b and c" ∧
  Str.stripMarkers (Str.joinAll ["a < b"; "<out"; "put> and c"]) = "a < b and c" ∧
  hasMarker "a < b and c" = false ∧ Str.noLt "a < b and c" = false.
Proof. by repeat split. Qed.

(** C1, as stated, fails: on [nestedFragments] the loop ends with the
    content [<output>], the marker-stripped concatenation is
    [<output><output>], and stripping that once more gives the empty
    string. *)
Lemma stream_loop_not_stripped_concatenation :
  streamLoop "/chat" modelA nestedFragments streamingChat
    = Returned tt (finalWorld (streamLoop "/chat" modelA nestedFragments streamingChat)) ∧
  trailingContent "/chat"
    (store (finalWorld (streamLoop "/chat" modelA nestedFragments streamingChat)))
    = Some "<output>" ∧
  Str.stripMarkers (Str.joinAll nestedFragments) = "<output><output>" ∧
  Str.stripMarkers (Str.stripMarkers (Str.joinAll nestedFragments)) = "" ∧
  hasMarker (Str.stripMarkers (Str.joinAll nestedFragments)) = true ∧
  trailingContent "/chat"
    (store (finalWorld (streamLoop "/chat" modelA nestedFragments streamingChat)))
    ≠ Some (Str.stripMarkers (Str.joinAll nestedFragments)).
Proof.
  repeat split; try (vm_compute; reflexivity).
  vm_compute. discriminate.
Qed.

(** ** Restore *)

Lemma inherited_proto id : inherited id = false → String.eqb id "__proto__" = false.
Proof. intros H. by destruct (String.eqb_spec id "__proto__") as [->|]. Qed.

Lemma initChat_run id ms c w :
  String.eqb id "__proto__" = false →
  initChat id ms c w =
    Returned tt
      (mkWorld (withChats <[id := mkConversation c ms]> (store w))
               (store w :: snapshots w) (events w) (drawn w)).
Proof. intros H. unfold initChat. by rewrite H. Qed.

(** On the one key immer refuses, nothing is replaced. *)
Lemma initChat_proto ms c w : initChat "__proto__" ms c w = Thrown DraftError w.
Proof. reflexivity. Qed.

Lemma initChatWithSystemContext_run env id w :
  String.eqb id "__proto__" = false →
  initChatWithSystemContext env id w =
    Returned tt
      (mkWorld (withChats <[id := blankConversation env id (store w)]> (store w))
               (store w :: snapshots w) (events w) (drawn w)).
Proof.
  intros H. unfold initChatWithSystemContext, bind, getStore.
  by rewrite (initChat_run id _ None w H).
Qed.

Lemma plainViews_lookup st k conv :
  plainViews st = true → chats st !! k = Some conv → inherited k = false.
Proof.
  unfold plainViews. rewrite forallb_forall. intros H Hk.
  apply negb_true_iff, (H (k, conv)).
  by apply list_elem_of_In, elem_of_map_to_list.
Qed.

Lemma plainViews_intro st :
  (∀ k conv, chats st !! k = Some conv → inherited k = false) → plainViews st = true.
Proof.
  intros H. unfold plainViews. apply forallb_forall. intros [k conv] Hin.
  apply negb_true_iff, (H k conv).
  by apply elem_of_map_to_list, list_elem_of_In.
Qed.

Lemma plainViews_entries st :
  plainViews st = true →
  Forall (fun e => String.eqb e.1 "__proto__" = false) (map_to_list (chats st)).
Proof.
  intros H. apply Forall_forall. intros [k conv] Hin%elem_of_map_to_list.
  apply inherited_proto. by apply (plainViews_lookup st k conv).
Qed.

Lemma blankConversation_modelIds env id st st' :
  modelIds st' = modelIds st →
  blankConversation env id st' = blankConversation env id st.
Proof. intros H. unfold blankConversation, getModelId. by rewrite H. Qed.

(** The eviction loop returns, touches nothing but [chats], and resets
    exactly the views among [entries] that hold the chat. *)
Lemma evict_run env cid entries : ∀ w,
  Forall (fun e => String.eqb e.1 "__proto__" = false) entries →
  ∃ w',
    evict env cid entries w = Returned tt w' ∧
    modelIds (store w') = modelIds (store w) ∧
    loading (store w') = loading (store w) ∧
    events w' = events w ∧ drawn w' = drawn w ∧
    ∀ k,
      chats (store w') !! k =
        if existsb (fun e => bool_decide (e.1 = k) && holdsChat cid e.2) entries
        then Some (blankConversation env k (store w))
        else chats (store w) !! k.
Proof.
  induction entries as [|[key value] entries IH]; intros w Hkeys.
  - exists w. by repeat split.
  - apply Forall_cons in Hkeys as [Hkey Hkeys]. cbn [fst] in Hkey.
    cbn [evict]. unfold bind at 1.
    destruct (holdsChat cid value) eqn:Hh.
    + rewrite (initChatWithSystemContext_run env key w Hkey).
      set (w1 := mkWorld _ _ _ _).
      destruct (IH w1 Hkeys) as (w' & Hrun & Hm & Hl & He & Hd & Hk).
      exists w'. split; [exact Hrun|]. repeat split; try done.
      intros k. rewrite Hk. cbn [existsb fst snd]. rewrite Hh, andb_true_r.
      rewrite (blankConversation_modelIds env k (store w1) (store w)) by done.
      destruct (existsb _ entries); [by rewrite orb_true_r|].
      rewrite orb_false_r. subst w1. cbn [store withChats chats].
      case_bool_decide as Hk'.
      * subst k. by rewrite lookup_insert_eq.
      * by rewrite lookup_insert_ne.
    + unfold ret at 1.
      destruct (IH w Hkeys) as (w' & Hrun & Hm & Hl & He & Hd & Hk).
      exists w'. split; [exact Hrun|]. repeat split; try done.
      intros k. rewrite Hk. cbn [existsb fst snd]. by rewrite Hh, andb_false_r.
Qed.

Lemma existsb_entries cid (m : gmap string Conversation) k :
  existsb (fun e => bool_decide (e.1 = k) && holdsChat cid e.2) (map_to_list m)
  = match m !! k with
    | Some v => holdsChat cid v
    | None => false
    end.
Proof.
  destruct (existsb _ _) eqn:E.
  - apply existsb_exists in E as ([k' v] & Hin & Hb).
    apply andb_true_iff in Hb as [Hk Hh]. apply bool_decide_eq_true in Hk.
    cbn in Hk, Hh. subst k'.
    apply list_elem_of_In, elem_of_map_to_list in Hin. by rewrite Hin.
  - destruct (m !! k) as [v|] eqn:Hk; [|done].
    destruct (holdsChat cid v) eqn:Hh; [|done].
    assert (existsb (fun e => bool_decide (e.1 = k) && holdsChat cid e.2)
              (map_to_list m) = true) as E'; [|congruence].
    apply existsb_exists. exists (k, v). split.
    + by apply list_elem_of_In, elem_of_map_to_list.
    + cbn. rewrite Hh. by rewrite bool_decide_eq_true_2.
Qed.

(** On a store with plain view keys and for a key [id] other than
    [__proto__], [restore] returns, and the store it ends in is: the
    supplied messages and chat under [id]; every other view that held the
    chat reset; the rest as it was. *)
Lemma restore_run env id ms c w :
  plainViews (store w) = true →
  id ≠ "__proto__" →
  ∃ w',
    restore env id ms c w = Returned tt w' ∧
    modelIds (store w') = modelIds (store w) ∧
    loading (store w') = loading (store w) ∧
    events w' = events w ∧ drawn w' = drawn w ∧
    ∀ k,
      chats (store w') !! k =
        if decide (k = id) then Some (mkConversation (Some c) ms)
        else collapsed env (chatId c) (store w) k.
Proof.
  intros Hplain Hid. unfold restore, bind, getStore.
  destruct (evict_run env (chatId c) (map_to_list (chats (store w))) w
              (plainViews_entries _ Hplain))
    as (w1 & Hrun & Hm & Hl & He & Hd & Hk).
  rewrite Hrun, (initChat_run id ms (Some c) w1 (proj2 (String.eqb_neq _ _) Hid)).
  eexists. split; [reflexivity|].
  cbn [store events drawn withChats chats modelIds loading].
  repeat split; try done.
  intros k. destruct (decide (k = id)) as [->|Hne].
  - by rewrite lookup_insert_eq.
  - rewrite lookup_insert_ne by done. rewrite Hk, existsb_entries.
    unfold collapsed. destruct (chats (store w) !! k) as [v|]; [|done].
    by destruct (holdsChat (chatId c) v).
Qed.


Lemma collapsed_holdsChat env cid st k conv :
  collapsed env cid st k = Some conv → holdsChat cid conv = false.
Proof.
  unfold collapsed. destruct (chats st !! k) as [v|]; [|done].
  destruct (holdsChat cid v) eqn:Hh; intros [= <-]; [done|exact Hh].
Qed.


Lemma restore_plainViews env id ms c w w' :
  plainViews (store w) = true →
  inherited id = false →
  (∀ k, chats (store w') !! k =
     if decide (k = id) then Some (mkConversation (Some c) ms)
     else collapsed env (chatId c) (store w) k) →
  plainViews (store w') = true.
Proof.
  intros Hplain Hid Hk. apply plainViews_intro. intros k conv. rewrite Hk.
  destruct (decide (k = id)) as [->|_]; [done|].
  unfold collapsed. destruct (chats (store w) !! k) as [v|] eqn:E; [|done].
  intros _. by apply (plainViews_lookup (store w) k v).
Qed.



Example restore_evicts_the_other_view :
  messagesOf "/chat"
    (store (finalWorld
       (restore sampleEnv "/summarize" [recordedAt "t0" (unrecorded System "s")]
          (mkChat "chat-1" "Restored") boundChat)))
  = [unrecorded System "You are an assistant on /chat"].
Proof. vm_compute. reflexivity. Qed.


(** ** Reconciliation *)

Lemma indexOf_Some {A} `{EqDecision A} (x : A) xs i :
  indexOf x xs = Some i → xs !! i = Some x.
Proof.
  revert i. induction xs as [|y ys IH]; intros i; simpl; [discriminate|].
  destruct (decide (y = x)) as [->|Hne].
  - by intros [= <-].
  - destruct (indexOf x ys) as [j|]; simpl; [|discriminate].
    intros [= <-]. by apply IH.
Qed.

Lemma replaceOne_ids m ms :
  map messageId (replaceOne m ms) = map messageId ms.
Proof.
  unfold replaceOne.
  destruct (indexOf _ _) as [idx|] eqn:E; [|done].
  apply indexOf_Some in E. rewrite list_lookup_fmap in E.
  destruct (ms !! idx) as [m0|] eqn:E0; [|discriminate].
  injection E as E. apply list_eq. intros j.
  rewrite !list_lookup_fmap.
  destruct (decide (j = idx)) as [->|Hne].
  - rewrite list_lookup_insert_eq by (by eapply lookup_lt_Some).
    rewrite E0. cbn. by rewrite E.
  - by rewrite list_lookup_insert_ne.
Qed.

Lemma replaceAll_cons m recs ms :
  replaceAll (m :: recs) ms = replaceAll recs (replaceOne m ms).
Proof. reflexivity. Qed.

(** Merging records never changes the sequence of identifiers: nothing is
    added, dropped or moved. *)
Lemma replaceAll_ids recs : ∀ ms,
  map messageId (replaceAll recs ms) = map messageId ms.
Proof.
  induction recs as [|m recs IH]; intros ms; [done|].
  by rewrite replaceAll_cons, IH, replaceOne_ids.
Qed.

Lemma replaceAll_length recs ms : length (replaceAll recs ms) = length ms.
Proof.
  rewrite <- (length_map messageId), replaceAll_ids. apply length_map.
Qed.

Lemma replaceOne_lookup m ms p :
  replaceOne m ms !! p =
    (fun x => if decide (indexOf (messageId m) (map messageId ms) = Some p)
              then m else x) <$> ms !! p.
Proof.
  unfold replaceOne.
  destruct (indexOf _ _) as [idx|] eqn:E.
  - pose proof (indexOf_Some _ _ _ E) as E'. rewrite list_lookup_fmap in E'.
    destruct (ms !! idx) as [m0|] eqn:E0; [|discriminate].
    destruct (decide (p = idx)) as [->|Hne].
    + rewrite list_lookup_insert_eq by (by eapply lookup_lt_Some).
      rewrite E0. cbn. by rewrite decide_True.
    + rewrite list_lookup_insert_ne by done.
      destruct (ms !! p); [|done]. cbn. rewrite decide_False; [done|congruence].
  - destruct (ms !! p); [|done]. cbn. by rewrite decide_False.
Qed.

(** Position by position, a merge leaves the message or puts the winning
    record in its place. *)
Lemma replaceAll_lookup recs : ∀ ms p,
  replaceAll recs ms !! p =
    (fun x => default x (winner recs (map messageId ms) p)) <$> ms !! p.
Proof.
  induction recs as [|m recs IH]; intros ms p.
  - cbn. by destruct (ms !! p).
  - rewrite replaceAll_cons, IH, replaceOne_ids, replaceOne_lookup.
    destruct (ms !! p) as [x|]; [|done]. cbn.
    destruct (winner recs (map messageId ms) p); [done|].
    by destruct (decide _).
Qed.

(** Merging the same records a second time changes nothing. *)
Lemma replaceAll_idempotent recs ms :
  replaceAll recs (replaceAll recs ms) = replaceAll recs ms.
Proof.
  apply list_eq. intros p.
  rewrite (replaceAll_lookup recs (replaceAll recs ms)), replaceAll_ids.
  rewrite replaceAll_lookup.
  destruct (ms !! p) as [x|]; [|done]. cbn.
  by destruct (winner recs (map messageId ms) p).
Qed.

Lemma winner_elem_of recs ids p m :
  winner recs ids p = Some m →
  m ∈ recs ∧ indexOf (messageId m) ids = Some p.
Proof.
  induction recs as [|r recs IH]; [done|]. cbn.
  destruct (winner recs ids p) as [x|].
  - intros [= ->]. destruct IH as [Hin Hidx]; [done|]. split; [by right|done].
  - destruct (decide _) as [Hd|]; [|done]. intros [= ->]. split; [by left|done].
Qed.

(** A merged message is the old one or a record of the response; either
    way it carries the identifier the position had. *)
Lemma replaceAll_lookup_Some recs ms p m0 :
  ms !! p = Some m0 →
  ∃ m2, replaceAll recs ms !! p = Some m2 ∧
        messageId m2 = messageId m0 ∧
        (m2 = m0 ∨ m2 ∈ recs).
Proof.
  intros Hp. rewrite replaceAll_lookup, Hp. cbn.
  destruct (winner recs (map messageId ms) p) as [m|] eqn:E; cbn.
  - exists m. apply winner_elem_of in E as [Hin Hidx].
    apply indexOf_Some in Hidx. rewrite list_lookup_fmap, Hp in Hidx.
    injection Hidx as Hidx. split; [done|]. split; [done|]. by right.
  - exists m0. split; [done|]. split; [done|]. by left.
Qed.

Lemma withChats_insert_id id conv st :
  chats st !! id = Some conv →
  withChats <[id := mkConversation (chat conv) (messages conv)]> st = st.
Proof.
  intros H. destruct st as [cs ms ls], conv as [c l]. unfold withChats. cbn in *.
  by rewrite insert_id.
Qed.

Lemma replaceMessages_run id recs w conv :
  chats (store w) !! id = Some conv →
  replaceMessages id recs w =
    Returned tt
      (mkWorld
         (withChats
            <[id := mkConversation (chat conv) (replaceAll recs (messages conv))]>
            (store w))
         (store w :: snapshots w) (events w) (drawn w)).
Proof.
  intros Hc. destruct recs as [|r recs].
  - cbn. unfold set. by rewrite withChats_insert_id.
  - unfold replaceMessages, set, onConversation. by rewrite Hc.
Qed.

Lemma addMessageIds_run env id w conv :
  chats (store w) !! id = Some conv →
  addMessageIdsToUnrecordedMessages env id w =
    Returned (assignIds env id (drawn w) (messages conv)).1.2
      (mkWorld
         (withChats
            <[id := mkConversation (chat conv)
                      (assignIds env id (drawn w) (messages conv)).1.1]>
            (store w))
         (store w :: snapshots w) (events w)
         (assignIds env id (drawn w) (messages conv)).2).
Proof.
  intros Hc. unfold addMessageIdsToUnrecordedMessages. rewrite Hc.
  by destruct (assignIds _ _ _ _) as [[ms' batch] n'].
Qed.

Lemma assignIds_cons env id n m rest :
  assignIds env id n (m :: rest) =
    if truthy (messageId m) then
      ((m :: (assignIds env id n rest).1.1), (assignIds env id n rest).1.2,
       (assignIds env id n rest).2)
    else
      ((identify env id n m :: (assignIds env id (S n) rest).1.1),
       (identify env id n m :: (assignIds env id (S n) rest).1.2),
       (assignIds env id (S n) rest).2).
Proof.
  cbn [assignIds]. destruct (truthy (messageId m)).
  - by destruct (assignIds env id n rest) as [[ms' batch] n'].
  - by destruct (assignIds env id (S n) rest) as [[ms' batch] n'].
Qed.

Lemma assignIds_drawn env id ms : ∀ n, (n ≤ (assignIds env id n ms).2)%nat.
Proof.
  induction ms as [|m ms IH]; intros n; [done|].
  rewrite assignIds_cons. destruct (truthy (messageId m)); cbn.
  - apply IH.
  - specialize (IH (S n)). lia.
Qed.

Lemma assignIds_length env id ms : ∀ n,
  length (assignIds env id n ms).1.1 = length ms.
Proof.
  induction ms as [|m ms IH]; intros n; [done|].
  rewrite assignIds_cons. destruct (truthy (messageId m)); cbn; by rewrite IH.
Qed.

(** A message with an identifier is left as it is; one without gets a
    fresh identifier and the tag of the view, and its clone joins the
    batch. *)
Lemma assignIds_lookup env id ms : ∀ n i m,
  ms !! i = Some m →
  if truthy (messageId m) then (assignIds env id n ms).1.1 !! i = Some m
  else ∃ k, (n ≤ k < (assignIds env id n ms).2)%nat ∧
            (assignIds env id n ms).1.1 !! i = Some (identify env id k m) ∧
            identify env id k m ∈ (assignIds env id n ms).1.2.
Proof.
  induction ms as [|m0 ms IH]; intros n i m Hi; [done|].
  rewrite assignIds_cons. destruct i as [|i]; cbn in Hi.
  - injection Hi as ->. destruct (truthy (messageId m)) eqn:T; cbn; [done|].
    exists n. pose proof (assignIds_drawn env id ms (S n)).
    repeat split; [lia|lia|by left].
  - destruct (truthy (messageId m0)) eqn:T0; cbn.
    + specialize (IH n i m Hi). destruct (truthy (messageId m)); [done|].
      exact IH.
    + specialize (IH (S n) i m Hi). destruct (truthy (messageId m)); [done|].
      destruct IH as (k & Hk & Hl & Hin). exists k.
      repeat split; [lia|lia|done|by right].
Qed.

Lemma assignIds_batch env id ms : ∀ n b,
  b ∈ (assignIds env id n ms).1.2 →
  ∃ k m, m ∈ ms ∧ truthy (messageId m) = false ∧ b = identify env id k m.
Proof.
  induction ms as [|m0 ms IH]; intros n b; [by intros ?%elem_of_nil|].
  rewrite assignIds_cons. destruct (truthy (messageId m0)) eqn:T0; cbn.
  - intros (k & m & Hin & Hf & ->)%IH. exists k, m. by repeat split; [right|..].
  - intros [->|Hin]%elem_of_cons.
    + exists n, m0. by repeat split; [left|..].
    + apply IH in Hin as (k & m & Hin & Hf & ->). exists k, m.
      by repeat split; [right|..].
Qed.

(** With every message identified there is nothing to record and nothing
    changes. *)
Lemma assignIds_identified env id ms : ∀ n,
  Forall (fun m => truthy (messageId m) = true) ms →
  assignIds env id n ms = (ms, [], n).
Proof.
  induction ms as [|m ms IH]; intros n Hall; [done|].
  apply Forall_cons in Hall as [Hm Hall].
  rewrite assignIds_cons, Hm, (IH n Hall). done.
Qed.

Lemma truthy_Some_nonempty s : s ≠ "" → truthy (Some s) = true.
Proof.
  intros H. cbn. destruct (String.eqb_spec s ""); [done|done].
Qed.

Lemma truthy_true o : truthy o = true → ∃ s, o = Some s ∧ s ≠ "".
Proof.
  destruct o as [s|]; [|done]. cbn.
  destruct (String.eqb_spec s ""); [done|]. eauto.
Qed.

(** The tag is empty only for the empty view key. *)
Lemma usecaseTag_nonempty id : id ≠ "" → usecaseTag id ≠ "".
Proof.
  intros H. unfold usecaseTag. by destruct (Str.firstSegment id).
Qed.

(** C3, as amended.  On a view with a state, with [uuid] handing out
    non-empty identifiers, and for any response [recs] of the persistence
    service: assigning identifiers and merging [recs] both return; the
    list keeps its length and the chat; every message ends with a
    non-empty identifier, the one it had or the fresh one it was given; a
    message that had an identifier is untouched by the assignment, a
    message that had none gets the tag of the view key (non-empty unless
    the key is empty) and joins the batch; after the merge each position
    holds the message it held after the assignment or a record of [recs]
    with that same identifier.  Replaying the step on the result submits
    nothing, changes nothing, and merging any records again keeps the
    sequence of identifiers; merging the same records again changes
    nothing at all. *)
Theorem reconciliation_identifies env id w conv recs :
  chats (store w) !! id = Some conv →
  (∀ n, uuid env n ≠ "") →
  ∃ batch w1 w2 conv1 conv2,
    addMessageIdsToUnrecordedMessages env id w = Returned batch w1 ∧
    replaceMessages id recs w1 = Returned tt w2 ∧
    chats (store w1) !! id = Some conv1 ∧
    chats (store w2) !! id = Some conv2 ∧
    chat conv2 = chat conv ∧
    length (messages conv2) = length (messages conv) ∧
    (∀ i m, messages conv !! i = Some m →
       ∃ m1 m2,
         messages conv1 !! i = Some m1 ∧ messages conv2 !! i = Some m2 ∧
         truthy (messageId m2) = true ∧
         messageId m2 = messageId m1 ∧
         (m2 = m1 ∨ m2 ∈ recs) ∧
         if truthy (messageId m) then m1 = m
         else m1 ∈ batch ∧ usecase m1 = Some (usecaseTag id) ∧
              ∃ k, (drawn w ≤ k < drawn w1)%nat ∧ m1 = identify env id k m) ∧
    (id ≠ "" → usecaseTag id ≠ "") ∧
    (∃ w3, addMessageIdsToUnrecordedMessages env id w2 = Returned [] w3 ∧
           store w3 = store w2 ∧ drawn w3 = drawn w2) ∧
    (∃ w4, replaceMessages id recs w2 = Returned tt w4 ∧ store w4 = store w2) ∧
    (∀ recs', map messageId (replaceAll recs' (messages conv2))
              = map messageId (messages conv2)).
Proof.
  intros Hc Huuid.
  set (r := assignIds env id (drawn w) (messages conv)).
  set (conv1 := mkConversation (chat conv) r.1.1).
  set (conv2 := mkConversation (chat conv) (replaceAll recs r.1.1)).
  pose proof (addMessageIds_run env id w conv Hc) as Hrun1. fold r in Hrun1.
  set (w1 := mkWorld _ _ _ _) in Hrun1.
  assert (Hc1 : chats (store w1) !! id = Some conv1).
  { subst w1. cbn. by rewrite lookup_insert_eq. }
  pose proof (replaceMessages_run id recs w1 conv1 Hc1) as Hrun2.
  set (w2 := mkWorld _ _ _ _) in Hrun2.
  assert (Hc2 : chats (store w2) !! id = Some conv2).
  { subst w2. cbn. by rewrite lookup_insert_eq. }
  assert (Hper : ∀ i m, messages conv !! i = Some m →
    ∃ m1 m2,
      messages conv1 !! i = Some m1 ∧ messages conv2 !! i = Some m2 ∧
      truthy (messageId m2) = true ∧
      messageId m2 = messageId m1 ∧
      (m2 = m1 ∨ m2 ∈ recs) ∧
      if truthy (messageId m) then m1 = m
      else m1 ∈ r.1.2 ∧ usecase m1 = Some (usecaseTag id) ∧
           ∃ k, (drawn w ≤ k < drawn w1)%nat ∧ m1 = identify env id k m).
  { intros i m Hi.
    pose proof (assignIds_lookup env id (messages conv) (drawn w) i m Hi) as Hl.
    fold r in Hl.
    assert (∃ m1, r.1.1 !! i = Some m1 ∧ truthy (messageId m1) = true ∧
              if truthy (messageId m) then m1 = m
              else m1 ∈ r.1.2 ∧ usecase m1 = Some (usecaseTag id) ∧
                   ∃ k, (drawn w ≤ k < drawn w1)%nat ∧ m1 = identify env id k m)
      as (m1 & Hm1 & Ht1 & Hcase).
    { destruct (truthy (messageId m)) eqn:T.
      - exists m. by repeat split.
      - destruct Hl as (k & Hk & Hl & Hin). exists (identify env id k m).
        repeat split; try done.
        + by apply truthy_Some_nonempty.
        + exists k. by split. }
    destruct (replaceAll_lookup_Some recs r.1.1 i m1 Hm1) as (m2 & Hm2 & Hid & Hor).
    exists m1, m2. repeat split; try done. by rewrite Hid. }
  assert (Hall : Forall (fun m => truthy (messageId m) = true) (messages conv2)).
  { apply Forall_lookup. intros j m2 Hj.
    assert (is_Some (messages conv !! j)) as [m Hm].
    { apply lookup_lt_is_Some. apply lookup_lt_Some in Hj.
      cbn in Hj. rewrite replaceAll_length in Hj. unfold r in Hj.
      by rewrite assignIds_length in Hj. }
    destruct (Hper j m Hm) as (m1 & m2' & _ & Hm2 & Ht & _). congruence. }
  exists r.1.2, w1, w2, conv1, conv2.
  repeat split; try done.
  - cbn. rewrite replaceAll_length. unfold r. by rewrite assignIds_length.
  - by apply usecaseTag_nonempty.
  - eexists. split.
    + rewrite (addMessageIds_run env id w2 conv2 Hc2).
      rewrite (assignIds_identified env id _ _ Hall). reflexivity.
    + cbn [store drawn]. split; [|done]. by apply withChats_insert_id.
  - eexists. split; [exact (replaceMessages_run id recs w2 conv2 Hc2)|].
    cbn [store]. replace (replaceAll recs (messages conv2)) with (messages conv2).
    + by apply withChats_insert_id.
    + cbn. by rewrite replaceAll_idempotent.
  - intros recs'. apply replaceAll_ids.
Qed.

Lemma reconciliation_identifies_witness :
  ∃ batch w1 w2 conv1 conv2,
    addMessageIdsToUnrecordedMessages sampleEnv "/chat" streamingChat = Returned batch w1 ∧
    replaceMessages "/chat" (map (recordedAt "t1")
       [identify sampleEnv "/chat" 0 (unrecorded System "You are an assistant on /chat");
        identify sampleEnv "/chat" 1 (unrecorded User "Hello")]) w1 = Returned tt w2 ∧
    chats (store w1) !! "/chat" = Some conv1 ∧
    chats (store w2) !! "/chat" = Some conv2 ∧
    chat conv2 = chat (mkConversation None
       [unrecorded System "You are an assistant on /chat"; unrecorded User "Hello";
        unrecorded Assistant ""]) ∧
    length (messages conv2) = length (messages (mkConversation None
       [unrecorded System "You are an assistant on /chat"; unrecorded User "Hello";
        unrecorded Assistant ""])) ∧
    (∀ i m, messages (mkConversation None
       [unrecorded System "You are an assistant on /chat"; unrecorded User "Hello";
        unrecorded Assistant ""]) !! i = Some m →
       ∃ m1 m2,
         messages conv1 !! i = Some m1 ∧ messages conv2 !! i = Some m2 ∧
         truthy (messageId m2) = true ∧
         messageId m2 = messageId m1 ∧
         (m2 = m1 ∨ m2 ∈ (map (recordedAt "t1")
       [identify sampleEnv "/chat" 0 (unrecorded System "You are an assistant on /chat");
        identify sampleEnv "/chat" 1 (unrecorded User "Hello")])) ∧
         if truthy (messageId m) then m1 = m
         else m1 ∈ batch ∧ usecase m1 = Some (usecaseTag "/chat") ∧
              ∃ k, (drawn streamingChat ≤ k < drawn w1)%nat ∧ m1 = identify sampleEnv "/chat" k m) ∧
    ("/chat" ≠ "" → usecaseTag "/chat" ≠ "") ∧
    (∃ w3, addMessageIdsToUnrecordedMessages sampleEnv "/chat" w2 = Returned [] w3 ∧
           store w3 = store w2 ∧ drawn w3 = drawn w2) ∧
    (∃ w4, replaceMessages "/chat" (map (recordedAt "t1")
       [identify sampleEnv "/chat" 0 (unrecorded System "You are an assistant on /chat");
        identify sampleEnv "/chat" 1 (unrecorded User "Hello")]) w2 = Returned tt w4 ∧ store w4 = store w2) ∧
    (∀ recs', map messageId (replaceAll recs' (messages conv2))
              = map messageId (messages conv2)).
Proof.
  apply (reconciliation_identifies sampleEnv "/chat" streamingChat).
  - vm_compute. reflexivity.
  - intros n. cbn. discriminate.
Defined.

Example reconcile_sample :
  messagesOf "/chat" (store (finalWorld (reconcile sampleEnv "/chat" "chat-0" streamingChat)))
  = map (recordedAt "2024-01-01T00:00:00Z")
      [identify sampleEnv "/chat" 0 (unrecorded System "You are an assistant on /chat");
       identify sampleEnv "/chat" 1 (unrecorded User "Hello");
       identify sampleEnv "/chat" 2 (unrecorded Assistant "")].
Proof. vm_compute. reflexivity. Qed.

(** C3, as stated, fails for the view with the empty key: its system
    message has no identifier, and after the assignment, and after the
    merge of what the echoing service answers, its tag is the empty
    string. *)
Lemma reconciliation_leaves_empty_tag :
  map messageId (messagesOf "" (store emptyKeyChat)) = [None] ∧
  map usecase
    (messagesOf ""
       (store (finalWorld (addMessageIdsToUnrecordedMessages sampleEnv "" emptyKeyChat))))
    = [Some ""] ∧
  map usecase
    (messagesOf "" (store (finalWorld (reconcile sampleEnv "" "chat-0" emptyKeyChat))))
    = [Some ""].
Proof. repeat split; vm_compute; reflexivity. Qed.

(** ** The tag of a view key *)

Lemma takeSegment_spec s :
  Str.noSlash (Str.takeSegment s) = true ∧
  ∃ rest, s = Str.takeSegment s +:+ rest ∧ (rest = "" ∨ ∃ r, rest = String "/" r).
Proof.
  induction s as [|c s (IHn & rest & IHs & IHr)]; cbn.
  - split; [done|]. exists "". split; [done|by left].
  - unfold Str.isSlash. destruct (Ascii.eqb_spec c "/"%char) as [->|Hne]; cbn.
    + split; [done|]. exists (String "/" s). split; [done|]. right. eauto.
    + unfold Str.isSlash. rewrite (proj2 (Ascii.eqb_neq c "/"%char) Hne). cbn.
      split; [done|]. exists rest. split; [|done]. by rewrite IHs at 1.
Qed.

(** What [/([^/]+)/] finds: behind slashes only, a non-empty run without a
    slash that ends at the next slash or at the end of the key; it finds
    nothing exactly in a key made of slashes (the empty key among them). *)
Lemma firstSegment_spec s :
  match Str.firstSegment s with
  | Some seg =>
      seg ≠ "" ∧ Str.noSlash seg = true ∧
      ∃ pre rest, s = pre +:+ seg +:+ rest ∧ Str.allSlashes pre = true ∧
                  (rest = "" ∨ ∃ r, rest = String "/" r)
  | None => Str.allSlashes s = true
  end.
Proof.
  induction s as [|c s IH]; [done|]. cbn [Str.firstSegment].
  destruct (Str.isSlash c) eqn:Hc.
  - unfold Str.isSlash in Hc. apply Ascii.eqb_eq in Hc as ->.
    destruct (Str.firstSegment s) as [seg|].
    + destruct IH as (Hne & Hns & pre & rest & Hs & Hpre & Hrest).
      repeat split; try done. exists (String "/" pre), rest.
      repeat split; try done. by rewrite Hs at 1.
    + cbn. exact IH.
  - destruct (takeSegment_spec (String c s)) as (Hns & rest & Hs & Hrest).
    repeat split; try done.
    + cbn. by rewrite Hc.
    + exists "", rest. by repeat split.
Qed.

(** C4, as amended.  On a view with a state, every message that gets its
    identifier at reconciliation gets the tag [usecaseTag id], in the batch
    and in the store: a slash followed by the first run of characters
    other than a slash of the view key (the run that follows the leading
    slashes and ends at the next slash or at the end of the key), or the
    whole key when the key has no such character. *)
Theorem usecase_tag_of_view_key env id w conv :
  chats (store w) !! id = Some conv →
  ∃ batch w',
    addMessageIdsToUnrecordedMessages env id w = Returned batch w' ∧
    (∀ m, m ∈ batch → usecase m = Some (usecaseTag id)) ∧
    (∀ i m, messages conv !! i = Some m → truthy (messageId m) = false →
       ∃ m', messagesOf id (store w') !! i = Some m' ∧ m' ∈ batch ∧
             usecase m' = Some (usecaseTag id)) ∧
    match Str.firstSegment id with
    | Some seg =>
        usecaseTag id = "/" +:+ seg ∧
        seg ≠ "" ∧ Str.noSlash seg = true ∧
        ∃ pre rest, id = pre +:+ seg +:+ rest ∧ Str.allSlashes pre = true ∧
                    (rest = "" ∨ ∃ r, rest = String "/" r)
    | None => usecaseTag id = id ∧ Str.allSlashes id = true
    end.
Proof.
  intros Hc. eexists _, _.
  split; [exact (addMessageIds_run env id w conv Hc)|].
  split; [|split].
  - intros m (k & m0 & _ & _ & ->)%assignIds_batch. reflexivity.
  - intros i m Hi Hf.
    pose proof (assignIds_lookup env id (messages conv) (drawn w) i m Hi) as Hl.
    rewrite Hf in Hl. destruct Hl as (k & _ & Hl & Hin).
    exists (identify env id k m). unfold messagesOf. cbn [store withChats chats].
    rewrite lookup_insert_eq. by repeat split.
  - pose proof (firstSegment_spec id) as Hs. unfold usecaseTag.
    destruct (Str.firstSegment id) as [seg|]; [|done].
    by destruct Hs as (? & ? & ?).
Qed.

Lemma usecase_tag_of_view_key_witness :
  ∃ batch w',
    addMessageIdsToUnrecordedMessages sampleEnv "/chat" streamingChat
      = Returned batch w' ∧
    (∀ m, m ∈ batch → usecase m = Some (usecaseTag "/chat")) ∧
    (∀ i m,
       messages
         (mkConversation None
            [unrecorded System "You are an assistant on /chat";
             unrecorded User "Hello"; unrecorded Assistant ""]) !! i = Some m →
       truthy (messageId m) = false →
       ∃ m', messagesOf "/chat" (store w') !! i = Some m' ∧ m' ∈ batch ∧
             usecase m' = Some (usecaseTag "/chat")) ∧
    match Str.firstSegment "/chat" with
    | Some seg =>
        usecaseTag "/chat" = "/" +:+ seg ∧
        seg ≠ "" ∧ Str.noSlash seg = true ∧
        ∃ pre rest, "/chat" = pre +:+ seg +:+ rest ∧ Str.allSlashes pre = true ∧
                    (rest = "" ∨ ∃ r, rest = String "/" r)
    | None => usecaseTag "/chat" = "/chat" ∧ Str.allSlashes "/chat" = true
    end.
Proof.
  apply (usecase_tag_of_view_key sampleEnv "/chat" streamingChat).
  vm_compute. reflexivity.
Defined.

Example usecaseTag_samples :
  usecaseTag "/chat" = "/chat" ∧ usecaseTag "/chat/sub" = "/chat" ∧
  usecaseTag "//a/b" = "/a" ∧ usecaseTag "/" = "/" ∧ usecaseTag "" = "".
Proof. by repeat split. Qed.

(** C4, as stated, fails: in the view [chat/sub] the first segment of the
    key is [chat], the tag given to the new message is [/chat], which is
    neither that segment nor the key, and occurs nowhere in the key. *)
Lemma usecase_tag_is_no_segment_of_the_key :
  map usecase
    (messagesOf "chat/sub"
       (store (finalWorld
          (addMessageIdsToUnrecordedMessages sampleEnv "chat/sub" relativeKeyChat))))
    = [Some "/chat"] ∧
  Str.firstSegment "chat/sub" = Some "chat" ∧
  "/chat" ≠ "chat" ∧ "/chat" ≠ "chat/sub" ∧
  Str.occursIn "/chat" "chat/sub" = false.
Proof. repeat split; try discriminate; vm_compute; reflexivity. Qed.

(** ** [post] runs to its end *)

Lemma messagesOf_lookup id st i m :
  messagesOf id st !! i = Some m →
  ∃ conv, chats st !! id = Some conv ∧ messages conv !! i = Some m.
Proof.
  unfold messagesOf. destruct (chats st !! id) as [conv|]; [eauto|done].
Qed.

Lemma messagesOf_insert id conv st :
  messagesOf id (withChats <[id := conv]> st) = messages conv.
Proof. unfold messagesOf. cbn. by rewrite lookup_insert_eq. Qed.

Lemma messagesOf_Some id st conv :
  chats st !! id = Some conv → messagesOf id st = messages conv.
Proof. unfold messagesOf. by intros ->. Qed.

(** Replacing or dropping the trailing message leaves the others. *)
Lemma lookup_front {A} (l front : list A) (old : A) i m :
  l = front ++ [old] → (S i < length l)%nat → l !! i = Some m →
  front !! i = Some m ∧ ∀ new, (front ++ [new]) !! i = Some m.
Proof.
  intros -> Hlt Hi. rewrite length_app in Hlt. cbn in Hlt.
  rewrite lookup_app_l in Hi by lia. split; [done|].
  intros new. by rewrite lookup_app_l by lia.
Qed.

Lemma keepsFront_same id w w' :
  messagesOf id (store w') = messagesOf id (store w) → keepsFront id w w'.
Proof. intros H. split; [by rewrite H|]. intros i m x _ Hi Hx _. rewrite H. eauto. Qed.

Lemma keepsFront_trans id w1 w2 w3 :
  keepsFront id w1 w2 → keepsFront id w2 w3 → keepsFront id w1 w3.
Proof.
  intros [Hl1 H1] [Hl2 H2]. split; [congruence|].
  intros i m x Hlt Hi Hx Hne.
  destruct (H1 i m x Hlt Hi Hx Hne) as (m1 & Hi1 & Hx1).
  apply (H2 i m1 x); [by rewrite Hl1|done..].
Qed.

Lemma keepsFront_tail id w w' front old new :
  messagesOf id (store w) = front ++ [old] →
  messagesOf id (store w') = front ++ [new] →
  keepsFront id w w'.
Proof.
  intros H H'. split; [by rewrite H, H', !length_app|].
  intros i m x Hlt Hi Hx _. rewrite H' . rewrite H in Hi.
  destruct (lookup_front _ front old i m eq_refl) as [_ Hnew]; [by rewrite <- H|done|].
  eauto.
Qed.

Lemma carriesOn_refl id w : ready id w → carriesOn id w w.
Proof.
  intros H. split; [done|]. split; [done|].
  split; [by apply keepsFront_same|by exists []].
Qed.

Lemma carriesOn_trans id w1 w2 w3 :
  carriesOn id w1 w2 → carriesOn id w2 w3 → carriesOn id w1 w3.
Proof.
  intros (_ & Hm1 & Hk1 & l1 & He1 & Hf1) (Hr & Hm2 & Hk2 & l2 & He2 & Hf2).
  split; [done|]. split; [congruence|].
  split; [by eapply keepsFront_trans|]. exists (l2 ++ l1). split.
  - by rewrite He2, He1, app_assoc.
  - by apply Forall_app.
Qed.

Lemma ready_snoc id w :
  ready id w →
  ∃ conv front old,
    chats (store w) !! id = Some conv ∧ messages conv = front ++ [old].
Proof.
  intros (conv & Hc & Hne). exists conv.
  destruct (messages conv) as [|m ms] eqn:E using rev_ind; [done|]. eauto.
Qed.

Lemma ready_insert id c ms st w' :
  ms ≠ [] →
  store w' = withChats <[id := mkConversation c ms]> st →
  ready id w'.
Proof.
  intros Hne Hs. exists (mkConversation c ms). rewrite Hs. cbn.
  by rewrite lookup_insert_eq.
Qed.

Lemma snoc_not_nil {A} (l : list A) x : l ++ [x] ≠ [].
Proof. by destruct l. Qed.

Lemma same_length_not_nil {A B} (l : list A) (k : list B) :
  length k = length l → l ≠ [] → k ≠ [].
Proof. intros H Hne ->. by destruct l. Qed.

Lemma streamLoop_carriesOn id model frags w :
  ready id w →
  ∃ w', streamLoop id model frags w = Returned tt w' ∧ carriesOn id w w'.
Proof.
  intros Hr. destruct (ready_snoc id w Hr) as (conv & front & old & Hc & Hm).
  eexists. split; [exact (streamLoop_run id model frags w conv front old Hc Hm)|].
  destruct frags as [|f frags]; cbn [afterFragments].
  - split; [|split; [done|split; [by apply keepsFront_same|by exists []]]].
    destruct Hr as (conv' & Hc' & Hne). by exists conv'.
  - split; [|split; [done|split; [|by exists []]]].
    + eapply ready_insert; [apply snoc_not_nil|reflexivity].
    + eapply (keepsFront_tail id w _ front old).
      * by rewrite (messagesOf_Some _ _ _ Hc).
      * cbn [store]. by rewrite messagesOf_insert.
Qed.

Lemma postProcess_carriesOn id model f w :
  ready id w →
  ∃ w', postProcess id model f w = Returned tt w' ∧ carriesOn id w w'.
Proof.
  intros Hr. destruct (ready_snoc id w Hr) as (conv & front & old & Hc & Hm).
  unfold postProcess, set, onConversation. rewrite Hc, Hm, jsPop_snoc.
  eexists. split; [reflexivity|].
  split; [|split; [done|split; [|by exists []]]].
  - eapply ready_insert; [apply snoc_not_nil|reflexivity].
  - eapply (keepsFront_tail id w _ front old).
    + by rewrite (messagesOf_Some _ _ _ Hc).
    + cbn [store]. by rewrite messagesOf_insert.
Qed.

Lemma setLoading_carriesOn id b w :
  ready id w →
  ∃ w', setLoading id b w = Returned tt w' ∧ carriesOn id w w'.
Proof.
  intros Hr. eexists. split; [reflexivity|].
  split; [exact Hr|]. split; [done|].
  split; [by apply keepsFront_same|by exists []].
Qed.

Lemma createChatIfNotExist_carriesOn env id c w :
  ready id w →
  ∃ cid w', createChatIfNotExist env id c w = Returned cid w' ∧ carriesOn id w w'.
Proof.
  intros Hr. destruct c as [c|].
  - exists (chatId c), w. split; [done|]. by apply carriesOn_refl.
  - destruct Hr as (conv & Hc & Hne).
    unfold createChatIfNotExist, bind, emit, set, onConversation. cbn [store].
    rewrite Hc. eexists _, _. split; [reflexivity|].
    split; [|split; [done|split]].
    + eapply ready_insert; [exact Hne|reflexivity].
    + apply keepsFront_same. cbn [store].
      by rewrite messagesOf_insert, (messagesOf_Some _ _ _ Hc).
    + exists [CreateChat]. split; [done|]. by repeat constructor.
Qed.

Lemma addMessageIds_carriesOn env id w :
  ready id w →
  ∃ batch w',
    addMessageIdsToUnrecordedMessages env id w = Returned batch w' ∧
    carriesOn id w w'.
Proof.
  intros (conv & Hc & Hne).
  eexists _, _. split; [exact (addMessageIds_run env id w conv Hc)|].
  split; [|split; [done|split; [|by exists []]]].
  - eapply ready_insert; [|reflexivity].
    by eapply same_length_not_nil; [apply assignIds_length|].
  - unfold keepsFront. cbn [store]. split.
    + rewrite messagesOf_insert, (messagesOf_Some _ _ _ Hc). cbn [messages].
      apply assignIds_length.
    + intros i m x _ Hi Hx Hnx. rewrite messagesOf_insert. cbn [messages].
      rewrite (messagesOf_Some _ _ _ Hc) in Hi.
      pose proof (assignIds_lookup env id (messages conv) (drawn w) i m Hi) as Hl.
      rewrite Hx, (truthy_Some_nonempty x Hnx) in Hl. eauto.
Qed.

Lemma replaceMessages_carriesOn id recs w :
  ready id w →
  ∃ w', replaceMessages id recs w = Returned tt w' ∧ carriesOn id w w'.
Proof.
  intros (conv & Hc & Hne).
  eexists. split; [exact (replaceMessages_run id recs w conv Hc)|].
  split; [|split; [done|split; [|by exists []]]].
  - eapply ready_insert; [|reflexivity].
    by eapply same_length_not_nil; [apply replaceAll_length|].
  - unfold keepsFront. cbn [store]. split.
    + rewrite messagesOf_insert, (messagesOf_Some _ _ _ Hc). cbn [messages].
      apply replaceAll_length.
    + intros i m x _ Hi Hx _. rewrite messagesOf_insert. cbn [messages].
      rewrite (messagesOf_Some _ _ _ Hc) in Hi.
      destruct (replaceAll_lookup_Some recs (messages conv) i m Hi)
        as (m2 & Hm2 & Hid & _).
      exists m2. split; [done|congruence].
Qed.

Lemma emit_carriesOn id e w :
  ready id w → isPredictStream e = false →
  ∃ w', emit e w = Returned tt w' ∧ carriesOn id w w'.
Proof.
  intros Hr He. eexists. split; [reflexivity|].
  split; [exact Hr|]. split; [done|]. split; [by apply keepsFront_same|].
  exists [e]. split; [done|]. by repeat constructor.
Qed.

(** The check of the title and the start of the detached title task. *)
Lemma titleCheck_carriesOn id w :
  ready id w →
  ∃ w',
    match chats (store w) !! id with
    | Some conv =>
        match chat conv with
        | Some c => if String.eqb (title c) "" then setPredictedTitle id else ret tt
        | None => ret tt
        end
    | None => throw TypeError
    end w = Returned tt w' ∧ carriesOn id w w'.
Proof.
  intros Hr. pose proof Hr as (conv & Hc & Hne). rewrite Hc.
  destruct (chat conv) as [c|] eqn:Ec.
  - destruct (String.eqb (title c) "").
    + unfold setPredictedTitle, bind, getStore. rewrite Hc.
      by apply emit_carriesOn.
    + exists w. split; [done|]. by apply carriesOn_refl.
  - exists w. split; [done|]. by apply carriesOn_refl.
Qed.

(** ** Slices, and the input [post] chooses *)

Lemma jsSlice_all_but_last {A} (l : list A) x : jsSlice 0 (-1) (l ++ [x]) = l.
Proof.
  unfold jsSlice. rewrite length_app. cbn [length Z.ltb Z.compare].
  match goal with
  | |- take (Z.to_nat ?n) (drop (Z.to_nat ?k) _) = _ =>
      replace (Z.to_nat k) with 0%nat by lia;
      replace (Z.to_nat n) with (length l) by lia
  end.
  rewrite drop_0. by rewrite take_app_length.
Qed.

Lemma jsSlice_second_last {A} (l : list A) x y :
  jsSlice (-2) (-1) (l ++ [x; y]) = [x].
Proof.
  unfold jsSlice. rewrite length_app. cbn [length Z.ltb Z.compare].
  match goal with
  | |- take (Z.to_nat ?n) (drop (Z.to_nat ?k) _) = _ =>
      replace (Z.to_nat k) with (length l) by lia;
      replace (Z.to_nat n) with 1%nat by lia
  end.
  by rewrite drop_app_length.
Qed.

(** The choice of the input on the list [post] has built: everything but
    the placeholder, or the first message and the user turn. *)
Lemma inputMessages_spec ignoreHistory ms u a :
  inputMessages ignoreHistory (ms ++ [u; a]) =
    Some (if ignoreHistory then [default u (head ms); u] else ms ++ [u]).
Proof.
  unfold inputMessages. destruct ignoreHistory.
  - rewrite jsSlice_second_last. by destruct ms.
  - replace (ms ++ [u; a]) with ((ms ++ [u]) ++ [a]) by (by rewrite <- app_assoc).
    by rewrite jsSlice_all_but_last.
Qed.

(** With a model the catalog knows and a state for the view, [post] runs
    to its end without throwing: it reaches the request for the stream
    in the world [requested], and carries on from there. *)
Lemma post_run env id message ignoreHistory
    preProcessInput postProcessOutput extraSuffix stopSequences session
    w mid model0 conv :
  modelIds (store w) !! id = Some mid →
  mid ≠ "" →
  findModelByModelId env mid = Some model0 →
  chats (store w) !! id = Some conv →
  ∃ w',
    post env id message ignoreHistory preProcessInput postProcessOutput
      extraSuffix stopSequences session w = Returned tt w' ∧
    carriesOn id
      (requested id message
         (PredictStream (modelFor model0 session)
            (omitUnusedMessageProperties
               (match preProcessInput with
                | Some f => f (chosenInput ignoreHistory (messages conv) message)
                | None => chosenInput ignoreHistory (messages conv) message
                end))
            extraSuffix stopSequences)
         conv w)
      w'.
Proof.
  intros Hmid Hne Hfind Hc.
  set (model := modelFor model0 session).
  set (input := chosenInput ignoreHistory (messages conv) message).
  set (request := omitUnusedMessageProperties
           (match preProcessInput with Some f => f input | None => input end)).
  unfold post. unfold bind at 1. unfold getStore at 1. rewrite Hmid.
  rewrite (truthy_Some_nonempty mid Hne). cbn [negb]. rewrite Hfind.
  fold model.
  unfold bind at 1. unfold setLoading at 1, set at 1.
  set (w1 := mkWorld _ _ _ _).
  unfold bind at 1. unfold set at 1, onConversation at 1.
  assert (Hc1 : chats (store w1) !! id = Some conv) by done. rewrite Hc1.
  set (w2 := mkWorld _ _ _ _).
  unfold bind at 1. unfold getStore at 1.
  assert (Hc2 : chats (store w2) !! id
    = Some (mkConversation (chat conv)
              (messages conv ++ [unrecorded User message; unrecorded Assistant ""]))).
  { subst w2. cbn. by rewrite lookup_insert_eq. }
  rewrite Hc2. unfold bind at 1. unfold ret at 1. cbn [messages].
  rewrite inputMessages_spec. fold (chosenInput ignoreHistory (messages conv) message).
  fold input.
  unfold bind at 1. unfold ret at 1. fold request.
  unfold bind at 1. unfold emit at 1.
  set (w3 := mkWorld _ _ _ _).
  change (requested id message (PredictStream model request extraSuffix stopSequences)
            conv w) with w3.
  assert (Hr3 : ready id w3).
  { eexists. split; [exact Hc2|]. cbn. by destruct (messages conv). }
  destruct (streamLoop_carriesOn id model
              (predictStream env model request extraSuffix stopSequences) w3 Hr3)
    as (w4 & Hrun4 & H34).
  unfold bind at 1. rewrite Hrun4.
  assert (∃ w5, match postProcessOutput with
                | Some f => postProcess id model f
                | None => ret tt
                end w4 = Returned tt w5 ∧ carriesOn id w4 w5)
    as (w5 & Hrun5 & H45).
  { destruct postProcessOutput as [f|].
    - apply postProcess_carriesOn, H34.
    - exists w4. split; [done|]. apply carriesOn_refl, H34. }
  unfold bind at 1. rewrite Hrun5.
  destruct (setLoading_carriesOn id false w5 (proj1 H45)) as (w6 & Hrun6 & H56).
  unfold bind at 1. rewrite Hrun6.
  unfold bind at 1. unfold getStore at 1.
  pose proof (proj1 H56) as (conv6 & Hc6 & Hne6). rewrite Hc6.
  unfold bind at 1. unfold ret at 1.
  destruct (createChatIfNotExist_carriesOn env id (chat conv6) w6 (proj1 H56))
    as (cid & w7 & Hrun7 & H67).
  unfold bind at 1. rewrite Hrun7.
  unfold bind at 1. unfold getStore at 1.
  destruct (titleCheck_carriesOn id w7 (proj1 H67)) as (w8 & Hrun8 & H78).
  unfold bind at 1. rewrite Hrun8.
  destruct (addMessageIds_carriesOn env id w8 (proj1 H78))
    as (batch & w9 & Hrun9 & H89).
  unfold bind at 1. rewrite Hrun9.
  destruct (emit_carriesOn id (CreateMessages cid batch) w9 (proj1 H89) eq_refl)
    as (w10 & Hrun10 & H910).
  unfold bind at 1. rewrite Hrun10.
  destruct (replaceMessages_carriesOn id (createMessages env cid batch) w10
              (proj1 H910)) as (w11 & Hrun11 & H1011).
  rewrite Hrun11. exists w11. split; [done|].
  exact (carriesOn_trans _ _ _ _ H34
    (carriesOn_trans _ _ _ _ H45
      (carriesOn_trans _ _ _ _ H56
        (carriesOn_trans _ _ _ _ H67
          (carriesOn_trans _ _ _ _ H78
            (carriesOn_trans _ _ _ _ H89
              (carriesOn_trans _ _ _ _ H910 H1011))))))).
Qed.

(** At the moment the request has gone out, the view ends with the empty
    placeholder: the state the streaming loop of [post] starts from. *)
Lemma requested_ends_with_placeholder id message request conv w :
  chats (store (requested id message request conv w)) !! id =
    Some (mkConversation (chat conv)
            ((messages conv ++ [unrecorded User message])
             ++ [unrecorded Assistant ""])).
Proof.
  unfold requested. cbn [store withChats chats].
  by rewrite lookup_insert_eq, <- app_assoc.
Qed.

(** ** What [post] sends to inference *)

(** C5, as amended.  The view has a model selected that the catalog
    knows, and a state.  Then [post] runs to its end without throwing and
    asks inference for exactly one stream.  With [conv] the state before
    the call, so that the messages at that moment are those of [conv], the
    user message and the placeholder: without [ignoreHistory] the input is
    every message but the placeholder; with it, the input is the first
    message of the list and the user turn.  The first message is the one
    [conv] starts with, a system message when [conv] starts with one; on
    a state without messages it is the user turn itself, which is then
    sent twice.  What is sent is that input through [preProcessInput],
    every message reduced to its role and content. *)
Theorem post_sends_history_or_last_turn env id message ignoreHistory
    preProcessInput postProcessOutput extraSuffix stopSequences session
    w mid model0 conv :
  modelIds (store w) !! id = Some mid →
  mid ≠ "" →
  findModelByModelId env mid = Some model0 →
  chats (store w) !! id = Some conv →
  ∃ w' later input request model,
    post env id message ignoreHistory preProcessInput postProcessOutput
      extraSuffix stopSequences session w = Returned tt w' ∧
    inputMessages ignoreHistory
      (messages conv ++
       [mkMessage User message None None None None None;
        mkMessage Assistant "" None None None None None])
      = Some input ∧
    input =
      (if ignoreHistory
       then [default (mkMessage User message None None None None None)
               (head (messages conv));
             mkMessage User message None None None None None]
       else messages conv ++ [mkMessage User message None None None None None]) ∧
    (∀ first rest, messages conv = first :: rest → ignoreHistory = true →
       input = [first; mkMessage User message None None None None None] ∧
       (role first = System → map role input = [System; User])) ∧
    (messages conv = [] → ignoreHistory = true →
       input = [mkMessage User message None None None None None;
                mkMessage User message None None None None None]) ∧
    request =
      map (fun m => mkMessage (role m) (content m) None None None None None)
        (match preProcessInput with Some f => f input | None => input end) ∧
    model =
      match session with
      | Some s => if String.eqb s "" then model0 else mkModel (modelId model0) (Some s)
      | None => model0
      end ∧
    events w' =
      later ++ PredictStream model request extraSuffix stopSequences :: events w ∧
    (∀ e, e ∈ later → ∀ m h x y, e ≠ PredictStream m h x y).
Proof.
  intros Hmid Hne Hfind Hc.
  destruct (post_run env id message ignoreHistory preProcessInput postProcessOutput
              extraSuffix stopSequences session w mid model0 conv Hmid Hne Hfind Hc)
    as (w' & Hrun & _ & _ & _ & later & Hev & Hlater).
  exists w', later, (chosenInput ignoreHistory (messages conv) message).
  eexists _, (modelFor model0 session).
  split; [done|]. split; [apply inputMessages_spec|]. split; [done|]. split.
  { intros first rest Hms ->. unfold chosenInput. rewrite Hms. split; [done|].
    cbn. by intros ->. }
  split.
  { intros Hms ->. unfold chosenInput. by rewrite Hms. }
  split; [reflexivity|].
  split.
  { unfold modelFor, truthy. destruct session as [s|]; [|done].
    by destruct (String.eqb s ""). }
  split; [done|].
  intros e He m h x y ->. by apply (proj1 (Forall_forall _ _) Hlater) in He.
Qed.

Lemma post_sends_history_or_last_turn_witness :
  ∃ w' later input request model,
    post sampleEnv "/chat" "Hello" true (@None (list Message → list Message))
      (@None (string → string)) (@None string) (@None (list string)) (@None string)
      freshChat = Returned tt w' ∧
    inputMessages true
      ([mkMessage System "You are an assistant on /chat" None None None None None] ++
       [mkMessage User "Hello" None None None None None;
        mkMessage Assistant "" None None None None None])
      = Some input ∧
    input =
      [mkMessage System "You are an assistant on /chat" None None None None None;
       mkMessage User "Hello" None None None None None] ∧
    (∀ first rest,
       [mkMessage System "You are an assistant on /chat" None None None None None]
         = first :: rest →
       true = true →
       input = [first; mkMessage User "Hello" None None None None None] ∧
       (role first = System → map role input = [System; User])) ∧
    ([mkMessage System "You are an assistant on /chat" None None None None None] = [] →
     true = true →
     input = [mkMessage User "Hello" None None None None None;
              mkMessage User "Hello" None None None None None]) ∧
    request =
      map (fun m => mkMessage (role m) (content m) None None None None None) input ∧
    model = modelA ∧
    events w' =
      later ++ PredictStream model request (@None string) (@None (list string))
               :: events freshChat ∧
    (∀ e, e ∈ later → ∀ m h x y, e ≠ PredictStream m h x y).
Proof.
  apply (post_sends_history_or_last_turn sampleEnv "/chat" "Hello" true
           None None None None None freshChat "modelA" modelA
           (mkConversation None
              [mkMessage System "You are an assistant on /chat" None None None None
                 None])).
  - vm_compute. reflexivity.
  - discriminate.
  - reflexivity.
  - vm_compute. reflexivity.
Defined.

(** C5, as stated, fails on a view without a system message: a view
    restored with an empty history has a state and no message; [post]
    with [ignoreHistory] sends the user turn twice, and no system
    message. *)
Lemma post_ignoring_history_sends_no_system_message :
  messagesOf "/chat" (store restoredEmptySelected) = [] ∧
  (∃ w', post sampleEnv "/chat" "Hello" true None None None None None
           restoredEmptySelected = Returned tt w') ∧
  filter (fun e => isPredictStream e = true)
    (events (finalWorld
       (post sampleEnv "/chat" "Hello" true None None None None None
          restoredEmptySelected)))
  = [PredictStream (mkModel "modelA" None)
       [mkMessage User "Hello" None None None None None;
        mkMessage User "Hello" None None None None None]
       None None] ∧
  filter (fun e => isPredictStream e = true)
    (events (finalWorld
       (post sampleEnv "/chat" "Hello" true None None None None None
          restoredEmptySelected)))
  ≠ [PredictStream (mkModel "modelA" None)
       [mkMessage System "You are an assistant on /chat" None None None None None;
        mkMessage User "Hello" None None None None None]
       None None].
Proof.
  split; [by vm_compute|]. split; [eexists; vm_compute; reflexivity|].
  split; [by vm_compute|]. vm_compute. discriminate.
Qed.

Example post_with_history :
  filter (fun e => isPredictStream e = true)
    (events (finalWorld
       (post sampleEnv "/chat" "again" false None None None None None
          (finalWorld (post sampleEnv "/chat" "Hello" false None None None None None
                         freshChat)))))
  = [PredictStream modelA
       [unrecorded System "You are an assistant on /chat"; unrecorded User "Hello";
        unrecorded Assistant "Hi there"; unrecorded User "again"] None None;
     PredictStream modelA
       [unrecorded System "You are an assistant on /chat"; unrecorded User "Hello"]
       None None].
Proof. vm_compute. reflexivity. Qed.

Example post_ignoring_history :
  filter (fun e => isPredictStream e = true)
    (events (finalWorld
       (post sampleEnv "/chat" "again" true None None None None None
          (finalWorld (post sampleEnv "/chat" "Hello" false None None None None None
                         freshChat)))))
  = [PredictStream modelA
       [unrecorded System "You are an assistant on /chat"; unrecorded User "again"]
       None None;
     PredictStream modelA
       [unrecorded System "You are an assistant on /chat"; unrecorded User "Hello"]
       None None].
Proof. vm_compute. reflexivity. Qed.

(** The run of the spec: [/chat], [modelA], [Hello], a stream of [Hi] and
    [ there]. *)
Example post_end_to_end :
  map (fun m => (role m, content m))
    (messagesOf "/chat"
       (store (finalWorld
          (post sampleEnv "/chat" "Hello" false None None None None None freshChat))))
  = [(System, "You are an assistant on /chat"); (User, "Hello");
     (Assistant, "Hi there")].
Proof. vm_compute. reflexivity. Qed.

(** ** The system context *)

Lemma filter_system_none (ms : list Message) :
  Forall (fun m => role m ≠ System) ms →
  filter (fun m => role m = System) ms = [].
Proof.
  induction 1 as [|m ms Hm _ IH]; [done|].
  by rewrite filter_cons_False.
Qed.

Lemma getCurrentSystemContext_absent id w :
  chats (store w) !! id = None →
  inherited id = false →
  getCurrentSystemContext id w = Returned "" w.
Proof.
  intros H Hi. unfold getCurrentSystemContext, bind, getStore. by rewrite H, Hi.
Qed.

(** A name of [Object.prototype] without an own entry reads as an object
    without messages: the call throws. *)
Lemma getCurrentSystemContext_inherited id w :
  chats (store w) !! id = None →
  inherited id = true →
  getCurrentSystemContext id w = Thrown TypeError w.
Proof.
  intros H Hi. unfold getCurrentSystemContext, bind, getStore. by rewrite H, Hi.
Qed.

(** With a system message in the view, the call returns the content of
    the first one, which is the only one when there is one. *)
Lemma getCurrentSystemContext_system id w conv before sys after :
  chats (store w) !! id = Some conv →
  messages conv = before ++ sys :: after →
  role sys = System →
  Forall (fun m => role m ≠ System) before →
  getCurrentSystemContext id w = Returned (content sys) w.
Proof.
  intros Hc Hm Hs Hb. unfold getCurrentSystemContext, bind, getStore.
  rewrite Hc, Hm, filter_app, filter_cons_True by done.
  by rewrite (filter_system_none before Hb).
Qed.

(** With a state but no system message in it, the call throws. *)
Lemma getCurrentSystemContext_no_system id w conv :
  chats (store w) !! id = Some conv →
  Forall (fun m => role m ≠ System) (messages conv) →
  getCurrentSystemContext id w = Thrown TypeError w.
Proof.
  intros Hc Hall. unfold getCurrentSystemContext, bind, getStore. rewrite Hc.
  by rewrite (filter_system_none (messages conv) Hall).
Qed.

(** C6: the code at the failing input.  A view restored with an empty
    history has a state without a system message; [getCurrentSystemContext]
    does not return the empty string there, it throws a [TypeError], where
    [updateSystemContext] returns. *)
Theorem getCurrentSystemContext_throws_without_system_message :
  messagesOf "/chat" (store restoredEmptyChat) = [] ∧
  getCurrentSystemContext "/chat" restoredEmptyChat
    = Thrown TypeError restoredEmptyChat ∧
  getCurrentSystemContext "/chat" restoredEmptyChat
    ≠ Returned "" restoredEmptyChat ∧
  (∃ w', updateSystemContext "/chat" "new context" restoredEmptyChat
         = Returned tt w') ∧
  getCurrentSystemContext "/other" restoredEmptyChat
    = Returned "" restoredEmptyChat.
Proof.
  split; [by vm_compute|].
  assert (getCurrentSystemContext "/chat" restoredEmptyChat
          = Thrown TypeError restoredEmptyChat) as H.
  { apply (getCurrentSystemContext_no_system _ _
             (mkConversation (Some (mkChat "chat-1" "Greeting")) [])).
    - by vm_compute.
    - constructor. }
  split; [exact H|]. split; [by rewrite H|]. split.
  - eexists. vm_compute. reflexivity.
  - apply getCurrentSystemContext_absent; by vm_compute.
Qed.

(** ** The early return of [post] *)

(** C7.  With no model selected for the view (no entry, or the empty
    string), or with a selected model the catalog does not know, [post]
    returns without throwing; the store is the one before the call, no
    [set] has happened (no new snapshot), no collaborator was called and
    no identifier was drawn: a line on the console is all there is. *)
Theorem post_without_model_returns_early env id message ignoreHistory
    preProcessInput postProcessOutput extraSuffix stopSequences session w :
  modelIds (store w) !! id = None ∨
  modelIds (store w) !! id = Some "" ∨
  (∃ mid, modelIds (store w) !! id = Some mid ∧ findModelByModelId env mid = None) →
  ∃ line,
    post env id message ignoreHistory preProcessInput postProcessOutput
      extraSuffix stopSequences session w
    = Returned tt
        (mkWorld (store w) (snapshots w) (ConsoleError line :: events w) (drawn w)).
Proof.
  intros [H|[H|(mid & H & Hfind)]]; unfold post, bind, getStore; rewrite H.
  - by eexists.
  - by eexists.
  - destruct (negb (truthy (Some mid))); [by eexists|].
    rewrite Hfind. by eexists.
Qed.

Lemma post_without_model_returns_early_witness :
  ∃ line,
    post sampleEnv "/chat" "Hello" false None None None None None unselectedChat
    = Returned tt
        (mkWorld (store unselectedChat) (snapshots unselectedChat)
           (ConsoleError line :: events unselectedChat) (drawn unselectedChat)).
Proof.
  apply (post_without_model_returns_early sampleEnv "/chat" "Hello" false
           None None None None None unselectedChat).
  left. vm_compute. reflexivity.
Defined.

Example post_with_unknown_model :
  post sampleEnv "/chat" "Hello" false None None None None None
    (finalWorld (setModelId "/chat" "modelB" unselectedChat))
  = Returned tt
      (mkWorld (store (finalWorld (setModelId "/chat" "modelB" unselectedChat)))
         [store unselectedChat; emptyStore]
         [ConsoleError "model not found for modelB"] 0).
Proof. vm_compute. reflexivity. Qed.

(** ** Promotion to a durable chat *)

(** C8.  On a view with a state: when the state holds a chat,
    [ensureDurable] (and [createChatIfNotExist] given that chat, whatever
    the store) returns its identifier and leaves the world as it is, so no
    creation request goes out; when it holds none, one creation request
    goes out, the chat that comes back is attached (the messages stay),
    its identifier is returned, and a second call returns the same
    identifier and leaves the world as the first call left it. *)
Theorem ensureDurable_idempotent env id w conv :
  chats (store w) !! id = Some conv →
  match chat conv with
  | Some c =>
      ensureDurable env id w = Returned (chatId c) w ∧
      ∀ w0, createChatIfNotExist env id (Some c) w0 = Returned (chatId c) w0
  | None =>
      ∃ w1 newChat,
        newChat = createChat env (length (events w)) ∧
        ensureDurable env id w = Returned (chatId newChat) w1 ∧
        w1 = mkWorld
               (withChats <[id := mkConversation (Some newChat) (messages conv)]>
                  (store w))
               (store w :: snapshots w) (CreateChat :: events w) (drawn w) ∧
        ensureDurable env id w1 = Returned (chatId newChat) w1
  end.
Proof.
  intros Hc. destruct (chat conv) as [c|] eqn:Ec.
  - split; [|done]. unfold ensureDurable, bind, getStore. by rewrite Hc, Ec.
  - eexists _, _. split; [reflexivity|]. split; [|split; [reflexivity|]].
    + unfold ensureDurable, bind, getStore. rewrite Hc, Ec.
      unfold createChatIfNotExist, bind, emit, set, onConversation. cbn [store].
      by rewrite Hc.
    + unfold ensureDurable, bind, getStore. cbn [store withChats chats].
      by rewrite lookup_insert_eq.
Qed.

Lemma ensureDurable_idempotent_witness :
  ∃ w1 newChat,
    newChat = createChat sampleEnv (length (events streamingChat)) ∧
    ensureDurable sampleEnv "/chat" streamingChat = Returned (chatId newChat) w1 ∧
    w1 = mkWorld
           (withChats
              <["/chat" := mkConversation (Some newChat)
                   [unrecorded System "You are an assistant on /chat";
                    unrecorded User "Hello"; unrecorded Assistant ""]]>
              (store streamingChat))
           (store streamingChat :: snapshots streamingChat)
           (CreateChat :: events streamingChat) (drawn streamingChat) ∧
    ensureDurable sampleEnv "/chat" w1 = Returned (chatId newChat) w1.
Proof.
  apply (ensureDurable_idempotent sampleEnv "/chat" streamingChat
           (mkConversation None
              [unrecorded System "You are an assistant on /chat";
               unrecorded User "Hello"; unrecorded Assistant ""])).
  vm_compute. reflexivity.
Defined.

Example ensureDurable_keeps_the_chat :
  ensureDurable sampleEnv "/chat" boundChat = Returned "chat-1" boundChat.
Proof. vm_compute. reflexivity. Qed.

(** ** Feedback *)

(** C10.  On a view whose state holds no chat, [sendFeedback] returns
    with the world as it was: no request to the persistence service (no
    event), no [set] (no snapshot), the same store. *)
Theorem sendFeedback_without_chat env id created fb w conv :
  chats (store w) !! id = Some conv →
  chat conv = None →
  sendFeedback env id created fb w = Returned tt w.
Proof.
  intros Hc Hn. unfold sendFeedback, bind, getStore. by rewrite Hc, Hn.
Qed.

Lemma sendFeedback_without_chat_witness :
  sendFeedback sampleEnv "/chat" "2024-01-01T00:00:00Z" "good" streamingChat
  = Returned tt streamingChat.
Proof.
  apply (sendFeedback_without_chat sampleEnv "/chat" "2024-01-01T00:00:00Z" "good"
           streamingChat
           (mkConversation None
              [unrecorded System "You are an assistant on /chat";
               unrecorded User "Hello"; unrecorded Assistant ""])).
  - vm_compute. reflexivity.
  - reflexivity.
Defined.

(** A view without a state is another matter: the call throws, unless
    the key is a name of [Object.prototype]. *)
Lemma sendFeedback_absent env id created fb w :
  chats (store w) !! id = None →
  sendFeedback env id created fb w =
    if inherited id then Returned tt w else Thrown TypeError w.
Proof.
  intros H. unfold sendFeedback, bind, getStore. rewrite H.
  by destruct (inherited id).
Qed.

(** When every request is answered, [sendFeedbackIn] is [sendFeedback];
    when [updateFeedback] is rejected on a view that holds a chat, the
    request has gone out and the store is as it was. *)
Lemma sendFeedbackIn_answered env id created fb :
  sendFeedbackIn env false id created fb = sendFeedback env id created fb.
Proof. reflexivity. Qed.

Lemma sendFeedbackIn_rejected env id created fb w conv c :
  chats (store w) !! id = Some conv →
  chat conv = Some c →
  sendFeedbackIn env true id created fb w =
    Thrown Rejected
      (mkWorld (store w) (snapshots w)
         (UpdateFeedback (chatId c) created fb :: events w) (drawn w)).
Proof.
  intros Hc Hchat. unfold sendFeedbackIn, bind, getStore. by rewrite Hc, Hchat.
Qed.

(** ** Identifiers stay *)

(** One operation keeps the identifier at position [i], unless it pops
    the trailing message and [i] is the trailing position. *)
Lemma runOp_keeps_id env id op w i m x :
  messagesOf id (store w) !! i = Some m →
  messageId m = Some x → x ≠ "" →
  (popsTail op = true → (S i < length (messagesOf id (store w)))%nat) →
  ∃ m', messagesOf id (store (finalWorld (runOp env id op w))) !! i = Some m' ∧
        messageId m' = Some x.
Proof.
  intros Hi Hx Hne Htail.
  destruct (messagesOf_lookup _ _ _ _ Hi) as (conv & Hc & Hm).
  rewrite (messagesOf_Some _ _ _ Hc) in Htail.
  assert (Hpop : popsTail op = true →
            ∃ front old, jsPop (messages conv) = Some (front, old) ∧
                         front !! i = Some m ∧
                         ∀ new, (front ++ [new]) !! i = Some m).
  { intros Hp. specialize (Htail Hp).
    destruct (jsPop (messages conv)) as [[front old]|] eqn:E.
    - exists front, old. split; [done|].
      by apply (lookup_front (messages conv) front old i m (jsPop_Some _ _ _ E)).
    - apply jsPop_None in E. rewrite E in Hm. done. }
  destruct op as [model chunk|model f| |recs|created fb|r c|]; cbn [runOp].
  - destruct (Hpop eq_refl) as (front & old & E & _ & Hnew).
    unfold streamChunk, set, onConversation. rewrite Hc, E. cbn [finalWorld store].
    rewrite messagesOf_insert. cbn [messages]. eauto.
  - destruct (Hpop eq_refl) as (front & old & E & _ & Hnew).
    unfold postProcess, set, onConversation. rewrite Hc, E. cbn [finalWorld store].
    rewrite messagesOf_insert. cbn [messages]. eauto.
  - unfold bind. rewrite (addMessageIds_run env id w conv Hc).
    cbn [ret finalWorld store]. rewrite messagesOf_insert. cbn [messages].
    pose proof (assignIds_lookup env id (messages conv) (drawn w) i m Hm) as Hl.
    rewrite Hx, (truthy_Some_nonempty x Hne) in Hl. eauto.
  - rewrite (replaceMessages_run id recs w conv Hc). cbn [finalWorld store].
    rewrite messagesOf_insert. cbn [messages].
    destruct (replaceAll_lookup_Some recs (messages conv) i m Hm)
      as (m2 & Hm2 & Hid & _).
    exists m2. split; [done|congruence].
  - unfold sendFeedback, bind, getStore. rewrite Hc.
    destruct (chat conv) as [c|].
    + unfold emit.
      rewrite (replaceMessages_run id _ (mkWorld _ _ _ _) conv Hc).
      cbn [finalWorld store]. rewrite messagesOf_insert. cbn [messages].
      destruct (replaceAll_lookup_Some
                  [updateFeedback env (chatId c) created fb] (messages conv) i m Hm)
        as (m2 & Hm2 & Hid & _).
      exists m2. split; [done|congruence].
    + cbn [ret finalWorld]. rewrite (messagesOf_Some _ _ _ Hc). eauto.
  - unfold pushMessage, set, onConversation. rewrite Hc. cbn [finalWorld store].
    rewrite messagesOf_insert. cbn [messages]. exists m. split; [|done].
    by apply lookup_app_l_Some.
  - destruct (Hpop eq_refl) as (front & old & E & Hfront & _).
    unfold popMessage, bind, getStore. rewrite Hc.
    unfold set, onConversation. rewrite Hc, E. cbn [ret finalWorld store].
    rewrite messagesOf_insert. cbn [messages]. eauto.
Qed.

Lemma runOps_cons env id op ops w :
  runOps env id (op :: ops) w =
    match runOp env id op w with
    | Returned _ w1 => runOps env id ops w1
    | Thrown e w1 => Thrown e w1
    end.
Proof. reflexivity. Qed.

(** C9, as amended.  A message of the view at position [i] has a
    non-empty identifier.  Along every sequence of stream updates,
    post-processing steps, identifier assignments, merges of canonical
    records, feedback updates, pushes and pops, whether the sequence runs
    to its end or stops at an exception, the message at position [i] still
    carries that identifier, provided position [i] is never the trailing
    one when the trailing message is popped (by a stream update, the
    post-processing step or [popMessage]). *)
Theorem assigned_id_is_kept env id i x ops : ∀ w m,
  messagesOf id (store w) !! i = Some m →
  messageId m = Some x → x ≠ "" →
  awayFromTail env id i ops w = true →
  ∃ m', messagesOf id (store (finalWorld (runOps env id ops w))) !! i = Some m' ∧
        messageId m' = Some x.
Proof.
  induction ops as [|op ops IH]; intros w m Hi Hx Hne Hguard.
  - cbn. eauto.
  - cbn [awayFromTail] in Hguard. apply andb_true_iff in Hguard as [Hhere Hrest].
    assert (Htail : popsTail op = true →
                    (S i < length (messagesOf id (store w)))%nat).
    { intros Hp. rewrite Hp in Hhere. cbn in Hhere.
      by apply bool_decide_eq_true in Hhere. }
    destruct (runOp_keeps_id env id op w i m x Hi Hx Hne Htail) as (m1 & Hm1 & Hx1).
    rewrite runOps_cons.
    destruct (runOp env id op w) as [[] w1|e w1]; cbn [finalWorld] in *.
    + by apply (IH w1 m1).
    + eauto.
Qed.

Lemma assigned_id_is_kept_witness :
  ∃ m',
    messagesOf "/chat"
      (store (finalWorld
         (runOps sampleEnv "/chat"
            [OpPush User "again"; OpPush Assistant ""; OpStream modelA "Once";
             OpStream modelA " more"; OpPostProcess modelA (fun c => c +:+ "."); OpAssignIds;
             OpMerge [mkMessage Assistant "Hi!" (Some "m2") (Some "/chat")
                        (Some "modelA") (Some "t2") (Some "good")];
             OpFeedback "t2" "good"; OpPop]
            restoredChat))) !! 2%nat = Some m' ∧
    messageId m' = Some "m2".
Proof.
  apply (assigned_id_is_kept sampleEnv "/chat" 2 "m2"
           [OpPush User "again"; OpPush Assistant ""; OpStream modelA "Once";
            OpStream modelA " more"; OpPostProcess modelA (fun c => c +:+ "."); OpAssignIds;
            OpMerge [mkMessage Assistant "Hi!" (Some "m2") (Some "/chat")
                       (Some "modelA") (Some "t2") (Some "good")];
            OpFeedback "t2" "good"; OpPop]
           restoredChat
           (mkMessage Assistant "Hi" (Some "m2") (Some "/chat") (Some "modelA")
              (Some "t2") None)).
  - vm_compute. reflexivity.
  - reflexivity.
  - discriminate.
  - vm_compute. reflexivity.
Defined.

(** C9, as stated, fails for the stream update: a restore has put a
    recorded reply with the identifier [m2] at the end of the view; the
    next fragment rebuilds that trailing message from its content and
    drops the identifier, and the next assignment gives it another one. *)
Lemma stream_update_drops_the_identifier :
  (fun m => (content m, messageId m)) <$>
    messagesOf "/chat" (store restoredChat) !! 2%nat
    = Some ("Hi", Some "m2") ∧
  (fun m => (content m, messageId m)) <$>
    messagesOf "/chat"
      (store (finalWorld
         (runOps sampleEnv "/chat" [OpStream modelA " there"] restoredChat))) !! 2%nat
    = Some ("Hi there", None) ∧
  (fun m => (content m, messageId m)) <$>
    messagesOf "/chat"
      (store (finalWorld
         (runOps sampleEnv "/chat" [OpStream modelA " there"; OpAssignIds]
            restoredChat))) !! 2%nat
    = Some ("Hi there", Some "uuid-0") ∧
  awayFromTail sampleEnv "/chat" 2 [OpStream modelA " there"; OpAssignIds] restoredChat
    = false.
Proof. repeat split; vm_compute; reflexivity. Qed.

(** An uninterrupted [post] pops nothing but its own placeholder: every
    message the view held before the call keeps its identifier. *)
Lemma post_keeps_ids env id message ignoreHistory
    preProcessInput postProcessOutput extraSuffix stopSequences session
    w mid model0 conv :
  modelIds (store w) !! id = Some mid →
  mid ≠ "" →
  findModelByModelId env mid = Some model0 →
  chats (store w) !! id = Some conv →
  ∃ w',
    post env id message ignoreHistory preProcessInput postProcessOutput
      extraSuffix stopSequences session w = Returned tt w' ∧
    length (messagesOf id (store w')) = (length (messages conv) + 2)%nat ∧
    ∀ i m x,
      messages conv !! i = Some m → messageId m = Some x → x ≠ "" →
      ∃ m', messagesOf id (store w') !! i = Some m' ∧ messageId m' = Some x.
Proof.
  intros Hmid Hne Hfind Hc.
  destruct (post_run env id message ignoreHistory preProcessInput postProcessOutput
              extraSuffix stopSequences session w mid model0 conv Hmid Hne Hfind Hc)
    as (w' & Hrun & _ & _ & [Hlen Hkeep] & _).
  unfold requested in Hlen, Hkeep. cbn [store] in Hlen, Hkeep.
  rewrite messagesOf_insert in Hlen, Hkeep. cbn [messages] in Hlen, Hkeep.
  rewrite length_app in Hlen, Hkeep. cbn [length] in Hlen, Hkeep.
  exists w'. split; [done|]. split; [done|].
  intros i m x Hi Hx Hnx. apply (Hkeep i m x); [|by apply lookup_app_l_Some|done..].
  apply lookup_lt_Some in Hi. lia.
Qed.

(** * The rest of the store *)

(** ** Creating and resetting a view *)

Lemma withChats_frame f st :
  modelIds (withChats f st) = modelIds st ∧ loading (withChats f st) = loading st.
Proof. done. Qed.

(** X1.  [init] gives a state to a view that has none and whose key is
    no property name of [Object.prototype]: the system message of the
    selected model, alone and without a chat; nothing else changes.  On a
    view with a state it does nothing at all (no [set]); for such a name
    without a state it does nothing either, so the name never gets a state
    that way.  A second [init] never changes what the first one left. *)
Theorem init_creates_once env id w :
  match chats (store w) !! id with
  | Some _ => init env id w = Returned tt w
  | None =>
      if inherited id then init env id w = Returned tt w
      else
        ∃ w',
          init env id w = Returned tt w' ∧
          chats (store w') =
            <[id := mkConversation None
                      [mkMessage System (systemContext env (getModelId id (store w)) id)
                         None None None None None]]>
              (chats (store w)) ∧
          modelIds (store w') = modelIds (store w) ∧
          loading (store w') = loading (store w) ∧
          snapshots w' = store w :: snapshots w ∧
          events w' = events w ∧ drawn w' = drawn w ∧
          init env id w' = Returned tt w'
  end.
Proof.
  destruct (chats (store w) !! id) as [conv|] eqn:Hc.
  - unfold init, bind, getStore. by rewrite Hc.
  - destruct (inherited id) eqn:Hi.
    + unfold init, bind, getStore. by rewrite Hc, Hi.
    + eexists. split.
      { unfold init, bind, getStore. rewrite Hc, Hi.
        apply initChatWithSystemContext_run, inherited_proto, Hi. }
      cbn [store withChats chats modelIds loading snapshots events drawn].
      repeat split.
      unfold init, bind, getStore. cbn [store withChats chats].
      by rewrite lookup_insert_eq.
Qed.

Example init_of_an_inherited_name :
  init sampleEnv "toString" initialWorld = Returned tt initialWorld ∧
  init sampleEnv "__proto__" initialWorld = Returned tt initialWorld ∧
  ∃ w', init sampleEnv "/chat" initialWorld = Returned tt w' ∧
        messagesOf "/chat" (store w')
        = [mkMessage System "You are an assistant on /chat" None None None None None].
Proof. repeat split. eexists. split; [reflexivity|]. by vm_compute. Qed.

(** X2.  For a view key that is no property name of [Object.prototype],
    [clear] returns on every store; whatever the view held, messages and
    chat, it holds the system message of the selected model alone and no
    chat afterwards; the other views, the model selection and the loading
    flags are as before; nothing is asked of the persistence or the
    inference service and nothing is written to the console (the prompt
    provider is asked for the system context); a second [clear] leaves the
    same store. *)
Theorem clear_resets_the_view env id w :
  inherited id = false →
  ∃ w',
    clear env id w = Returned tt w' ∧
    chats (store w') !! id =
      Some (mkConversation None
              [mkMessage System (systemContext env (getModelId id (store w)) id)
                 None None None None None]) ∧
    (∀ k, k ≠ id → chats (store w') !! k = chats (store w) !! k) ∧
    modelIds (store w') = modelIds (store w) ∧
    loading (store w') = loading (store w) ∧
    events w' = events w ∧
    store (finalWorld (clear env id w')) = store w'.
Proof.
  intros Hi. pose proof (inherited_proto id Hi) as Hp.
  eexists. split; [exact (initChatWithSystemContext_run env id w Hp)|].
  cbn [store withChats chats modelIds loading events].
  split; [by rewrite lookup_insert_eq|].
  split; [by intros k Hk; rewrite lookup_insert_ne|].
  repeat split.
  unfold clear. rewrite (initChatWithSystemContext_run env id _ Hp).
  cbn. unfold withChats, blankConversation, getModelId. cbn.
  by rewrite insert_insert_eq.
Qed.


(** A view without a selection, or with the empty one, reads as the empty
    string. *)
Lemma getModelId_unset id st :
  modelIds st !! id = None ∨ modelIds st !! id = Some "" → getModelId id st = "".
Proof. unfold getModelId. by intros [->| ->]. Qed.

(** ** Direct edits of the list *)

Lemma onConversation_run id f st conv conv' :
  chats st !! id = Some conv → f conv = Some conv' →
  onConversation id f st = Some (withChats <[id := conv']> st).
Proof. intros Hc Hf. unfold onConversation. by rewrite Hc, Hf. Qed.

Lemma withChats_restore id conv conv' st :
  chats st !! id = Some conv →
  withChats <[id := conv]> (withChats <[id := conv']> st) = st.
Proof.
  intros Hc. rewrite withChats_insert_insert.
  destruct st as [cs ms ls]. unfold withChats. cbn in *. by rewrite insert_id.
Qed.

(** X4.  On a view with a state, [popMessage] right after [pushMessage]
    returns the message pushed, role and content and nothing else, and
    the store is the one before the push; two [set]s have happened. *)
Theorem push_then_pop env id r c w conv :
  chats (store w) !! id = Some conv →
  ∃ w',
    (pushMessage id r c ;; popMessage id) w = Returned (Some (unrecorded r c)) w' ∧
    store w' = store w ∧
    length (snapshots w') = S (S (length (snapshots w))) ∧
    events w' = events w ∧
    runOps env id [OpPush r c; OpPop] w = Returned tt w'.
Proof.
  intros Hc.
  assert (Hpush : pushMessage id r c w =
            Returned tt
              (mkWorld
                 (withChats
                    <[id := mkConversation (chat conv) (messages conv ++ [unrecorded r c])]>
                    (store w))
                 (store w :: snapshots w) (events w) (drawn w))).
  { unfold pushMessage, set, onConversation. by rewrite Hc. }
  set (w1 := mkWorld _ _ _ _) in Hpush.
  assert (Hc1 : chats (store w1) !! id
                = Some (mkConversation (chat conv) (messages conv ++ [unrecorded r c]))).
  { subst w1. cbn. by rewrite lookup_insert_eq. }
  assert (Hpop : popMessage id w1 =
            Returned (Some (unrecorded r c))
              (mkWorld (store w) (store w1 :: snapshots w1) (events w) (drawn w))).
  { unfold popMessage, bind, getStore. rewrite Hc1.
    unfold set, onConversation. rewrite Hc1.
    cbn [ret messages chat]. rewrite jsPop_snoc, last_snoc.
    replace (mkConversation (chat conv) (messages conv)) with conv by (by destruct conv).
    subst w1. cbn [store].
    by rewrite (withChats_restore id conv _ (store w) Hc). }
  eexists. split.
  { unfold bind at 1. rewrite Hpush. exact Hpop. }
  cbn [store snapshots events]. repeat split.
  cbn [runOps runOp]. unfold bind at 1. rewrite Hpush.
  unfold bind at 1. unfold bind at 1. rewrite Hpop. reflexivity.
Qed.

Lemma jsPop_front {A} (l : list A) :
  match jsPop l with
  | Some (front, x) => front = take (length l - 1) l ∧ last l = Some x
  | None => l = [] 
  end.
Proof.
  destruct (jsPop l) as [[front x]|] eqn:E.
  - apply jsPop_Some in E as ->. rewrite length_app. cbn [length].
    replace (length front + 1 - 1)%nat with (length front) by lia.
    by rewrite take_app_length, last_snoc.
  - by apply jsPop_None.
Qed.

(** X5.  [popMessage] on a view without a state throws and changes
    nothing.  On a view with a state it returns the trailing message
    (nothing for an empty list) and leaves the list without it (an empty
    list stays empty); the chat of the view is kept. *)
Theorem popMessage_takes_the_last id w :
  match chats (store w) !! id with
  | None => popMessage id w = Thrown TypeError w
  | Some conv =>
      ∃ w',
        popMessage id w = Returned (last (messages conv)) w' ∧
        chats (store w') !! id =
          Some (mkConversation (chat conv)
                  (take (length (messages conv) - 1) (messages conv))) ∧
        (messages conv = [] → store w' = store w)
  end.
Proof.
  destruct (chats (store w) !! id) as [conv|] eqn:Hc.
  - unfold popMessage, bind, getStore, set, onConversation. rewrite Hc. rewrite Hc.
    eexists. split; [reflexivity|]. cbn [store withChats chats].
    rewrite lookup_insert_eq. pose proof (jsPop_front (messages conv)) as Hp.
    destruct (jsPop (messages conv)) as [[front x]|].
    + destruct Hp as [Hf Hl]. split; [by rewrite Hf|].
      intros E. by rewrite E in Hl.
    + split; [by rewrite Hp|]. intros _. by apply withChats_insert_id.
  - unfold popMessage, bind, getStore. by rewrite Hc.
Qed.

(** ** The system context *)

Lemma findIndex_first_system before sys after :
  Forall (fun m => role m ≠ System) before → role sys = System →
  findIndex isSystem (before ++ sys :: after) = Some (length before).
Proof.
  intros Hb Hs. induction Hb as [|m before Hm _ IH]; cbn.
  - unfold isSystem. by rewrite bool_decide_eq_true_2.
  - unfold isSystem at 1. rewrite bool_decide_eq_false_2 by done. by rewrite IH.
Qed.

Lemma findIndex_no_system ms :
  Forall (fun m => role m ≠ System) ms → findIndex isSystem ms = None.
Proof.
  induction 1 as [|m ms Hm _ IH]; [done|]. cbn.
  unfold isSystem at 1. rewrite bool_decide_eq_false_2 by done. by rewrite IH.
Qed.

Lemma alter_middle {A} (f : A → A) (before : list A) x after :
  alter f (length before) (before ++ x :: after) = before ++ f x :: after.
Proof. induction before as [|y before IH]; [done|]. cbn. by f_equal. Qed.

(** X6.  On a view whose first system message is [sys], with [before] in
    front of it, [updateSystemContext] replaces the content of that one
    message and nothing else (its other properties, the messages around
    it, later system messages, the chat and the other views stay), and
    [getCurrentSystemContext] then returns the new content. *)
Theorem updateSystemContext_then_read id c w conv before sys after :
  chats (store w) !! id = Some conv →
  messages conv = before ++ sys :: after →
  role sys = System →
  Forall (fun m => role m ≠ System) before →
  ∃ w',
    updateSystemContext id c w = Returned tt w' ∧
    chats (store w') !! id =
      Some (mkConversation (chat conv) (before ++ withContent c sys :: after)) ∧
    (∀ k, k ≠ id → chats (store w') !! k = chats (store w) !! k) ∧
    getCurrentSystemContext id w' = Returned c w'.
Proof.
  intros Hc Hm Hs Hb.
  unfold updateSystemContext, set, onConversation. rewrite Hc, Hm.
  rewrite (findIndex_first_system before sys after Hb Hs), alter_middle.
  eexists. split; [reflexivity|]. cbn [store withChats chats].
  split; [by rewrite lookup_insert_eq|].
  split; [by intros k Hk; rewrite lookup_insert_ne|].
  eapply (getCurrentSystemContext_system id _ _ before (withContent c sys) after);
    [cbn; by rewrite lookup_insert_eq|done..].
Qed.

(** X7.  On a view whose state has no system message,
    [updateSystemContext] returns and the store is the one before, so
    the context is not recorded anywhere: reading it back still throws. *)
Theorem updateSystemContext_without_system_message id c w conv :
  chats (store w) !! id = Some conv →
  Forall (fun m => role m ≠ System) (messages conv) →
  ∃ w',
    updateSystemContext id c w = Returned tt w' ∧
    store w' = store w ∧
    snapshots w' = store w :: snapshots w ∧
    getCurrentSystemContext id w' = Thrown TypeError w'.
Proof.
  intros Hc Hall.
  unfold updateSystemContext, set, onConversation.
  rewrite Hc, (findIndex_no_system _ Hall).
  eexists. split; [reflexivity|]. cbn [store snapshots].
  assert (E : withChats <[id := conv]> (store w) = store w).
  { destruct conv. by apply (withChats_insert_id id _ (store w) Hc). }
  rewrite E. split; [done|]. split; [done|].
  by apply (getCurrentSystemContext_no_system id _ conv).
Qed.

Lemma updateSystemContext_absent id c w :
  chats (store w) !! id = None →
  updateSystemContext id c w = Thrown TypeError w.
Proof. intros H. unfold updateSystemContext, set, onConversation. by rewrite H. Qed.

(** ** The title task *)

(** X8.  When the detached title task completes on a view with a state,
    the predicted title is written into whatever chat the view holds at
    that moment, whether or not it is the chat the prediction was asked
    for; its [chatId] and the messages stay; a view that holds no chat any
    more is left as it is; the list of chats is refreshed in every case. *)
Theorem late_title_lands_on_the_current_chat env id c history w conv :
  chats (store w) !! id = Some conv →
  ∃ w',
    titleTaskCompletes env id c history w = Returned tt w' ∧
    chats (store w') !! id =
      Some (mkConversation
              ((fun held => mkChat (chatId held) (predictTitle env c history))
                 <$> chat conv)
              (messages conv)) ∧
    (∀ k, k ≠ id → chats (store w') !! k = chats (store w) !! k) ∧
    events w' = MutateListChat :: events w.
Proof.
  intros Hc. unfold titleTaskCompletes, bind, setTitle, set, onConversation.
  rewrite Hc. eexists. split; [reflexivity|]. cbn [store withChats chats events].
  split; [|split; [by intros k Hk; rewrite lookup_insert_ne|done]].
  rewrite lookup_insert_eq. by destruct conv as [[held|] ms].
Qed.

(** On a view without a state the task throws before the list of chats
    is refreshed. *)
Lemma late_title_absent env id c history w :
  chats (store w) !! id = None →
  titleTaskCompletes env id c history w = Thrown TypeError w.
Proof.
  intros H. unfold titleTaskCompletes, bind, setTitle, set, onConversation.
  by rewrite H.
Qed.

(** ** The batch of a reconciliation *)

Lemma assignIds_batch_spec env id ms : ∀ n,
  (assignIds env id n ms).1.2 =
    zip_with (identify env id) (seq n (length (lacking ms))) (lacking ms) ∧
  (assignIds env id n ms).2 = (n + length (lacking ms))%nat.
Proof.
  induction ms as [|m ms IH]; intros n.
  - cbn. split; [done|lia].
  - rewrite assignIds_cons. unfold lacking in *.
    destruct (truthy (messageId m)) eqn:T.
    + rewrite filter_cons_False by (by rewrite T). cbn [fst snd]. apply IH.
    + rewrite filter_cons_True by done. cbn [fst snd length seq zip_with].
      destruct (IH (S n)) as [-> ->]. split; [done|lia].
Qed.

Lemma zip_with_identify_ids env id ks ms :
  length ks = length ms →
  map messageId (zip_with (identify env id) ks ms)
  = map (fun k => Some (uuid env k)) ks.
Proof.
  revert ms. induction ks as [|k ks IH]; intros [|m ms] Hlen; try done.
  cbn. f_equal. apply IH. by injection Hlen.
Qed.

(** X9.  On a view with a state, [addMessageIdsToUnrecordedMessages]
    returns as its batch exactly the messages that had no identifier, in
    the order of the list, the [k]-th of them with the [k]-th identifier
    drawn and the tag of the view; it draws one identifier per such
    message and no more; with a generator that never repeats, the
    identifiers of the batch are pairwise different. *)
Theorem addMessageIds_batch env id w conv :
  chats (store w) !! id = Some conv →
  ∃ w' batch,
    addMessageIdsToUnrecordedMessages env id w = Returned batch w' ∧
    batch =
      zip_with (identify env id)
        (seq (drawn w) (length (lacking (messages conv)))) (lacking (messages conv)) ∧
    drawn w' = (drawn w + length (lacking (messages conv)))%nat ∧
    map messageId batch =
      map (fun k => Some (uuid env k))
        (seq (drawn w) (length (lacking (messages conv)))) ∧
    ((∀ a b, uuid env a = uuid env b → a = b) → NoDup (map messageId batch)) ∧
    events w' = events w.
Proof.
  intros Hc. eexists _, _.
  split; [exact (addMessageIds_run env id w conv Hc)|].
  destruct (assignIds_batch_spec env id (messages conv) (drawn w)) as [Hb Hn].
  cbn [drawn events]. split; [exact Hb|]. split; [exact Hn|].
  assert (Hids : map messageId (assignIds env id (drawn w) (messages conv)).1.2 =
                 map (fun k => Some (uuid env k))
                   (seq (drawn w) (length (lacking (messages conv))))).
  { rewrite Hb. apply zip_with_identify_ids. by rewrite length_seq. }
  split; [exact Hids|]. split; [|done].
  intros Hinj. rewrite Hids. apply NoDup_fmap_2; [|apply NoDup_seq].
  intros a b [= E]. by apply Hinj.
Qed.

(** ** Merging records *)

Lemma indexOf_before {A} `{EqDecision A} (x : A) xs i :
  indexOf x xs = Some i → ∀ j, (j < i)%nat → xs !! j ≠ Some x.
Proof.
  revert i. induction xs as [|y ys IH]; intros i; cbn; [done|].
  destruct (decide (y = x)) as [->|Hne].
  - intros [= <-] j Hj. lia.
  - destruct (indexOf x ys) as [k|]; cbn; [|done].
    intros [= <-] [|j] Hj; cbn.
    + by intros [= ?].
    + apply (IH k eq_refl). lia.
Qed.

Lemma indexOf_None {A} `{EqDecision A} (x : A) xs :
  indexOf x xs = None → x ∉ xs.
Proof.
  induction xs as [|y ys IH]; cbn; [intros _; apply not_elem_of_nil|].
  destruct (decide (y = x)) as [->|Hne]; [done|].
  destruct (indexOf x ys); cbn; [done|].
  intros _ [->|Hin]%elem_of_cons; [done|]. by apply IH.
Qed.

Lemma winner_unique recs ids p m :
  NoDup (map messageId recs) → m ∈ recs →
  indexOf (messageId m) ids = Some p →
  winner recs ids p = Some m.
Proof.
  induction recs as [|r recs IH]; intros Hnd Hin Hidx; [by apply elem_of_nil in Hin|].
  cbn [map] in Hnd. apply NoDup_cons in Hnd as [Hr Hnd]. cbn [winner].
  apply elem_of_cons in Hin as [->|Hin].
  - destruct (winner recs ids p) as [x|] eqn:E.
    + exfalso. apply winner_elem_of in E as [Hx Hxi]. apply Hr.
      apply indexOf_Some in Hidx, Hxi.
      assert (messageId r = messageId x) as -> by congruence.
      by apply list_elem_of_fmap_2.
    + by rewrite decide_True.
  - by rewrite (IH Hnd Hin Hidx).
Qed.

Lemma winner_permutation recs recs' ids p :
  NoDup (map messageId recs) → recs ≡ₚ recs' →
  winner recs ids p = winner recs' ids p.
Proof.
  intros Hnd Hp.
  assert (Hnd' : NoDup (map messageId recs')) by (by rewrite <- Hp).
  destruct (winner recs ids p) as [m|] eqn:E.
  - apply winner_elem_of in E as [Hin Hidx]. symmetry.
    apply winner_unique; [done| |done]. by rewrite <- Hp.
  - destruct (winner recs' ids p) as [m|] eqn:E'; [|done].
    apply winner_elem_of in E' as [Hin Hidx].
    rewrite (winner_unique recs ids p m) in E; [done|done| |done]. by rewrite Hp.
Qed.

Lemma replaceAll_permutation recs recs' ms :
  NoDup (map messageId recs) → recs ≡ₚ recs' →
  replaceAll recs ms = replaceAll recs' ms.
Proof.
  intros Hnd Hp. apply list_eq. intros p.
  by rewrite !replaceAll_lookup, (winner_permutation recs recs' _ p Hnd Hp).
Qed.

(** X10.  When the records of a response carry pairwise different
    identifiers, [replaceMessages] does not depend on the order in which
    they come: the outcome is the same for every rearrangement. *)
Theorem replaceMessages_any_order id recs recs' w :
  NoDup (map messageId recs) → recs ≡ₚ recs' →
  replaceMessages id recs w = replaceMessages id recs' w.
Proof.
  intros Hnd Hp. destruct recs as [|r recs], recs' as [|r' recs'].
  - done.
  - by apply Permutation_nil_cons in Hp.
  - symmetry in Hp. by apply Permutation_nil_cons in Hp.
  - unfold replaceMessages, set, onConversation.
    destruct (chats (store w) !! id) as [conv|]; [|done].
    by rewrite (replaceAll_permutation _ _ _ Hnd Hp).
Qed.

(** ** Feedback on a durable chat *)

(** X12.  On a view that holds a chat, [sendFeedback] asks the
    persistence service once, for that chat, and merges the one record
    that comes back: the list keeps its length and its chat; every message
    whose identifier is not the record's is left as it is; the record
    takes the place of the first message with its identifier, and when no
    message carries that identifier the list is unchanged. *)
Theorem sendFeedback_replaces_one_message env id created fb w conv c :
  chats (store w) !! id = Some conv →
  chat conv = Some c →
  ∃ w' rec,
    rec = updateFeedback env (chatId c) created fb ∧
    sendFeedback env id created fb w = Returned tt w' ∧
    events w' = UpdateFeedback (chatId c) created fb :: events w ∧
    (∃ conv', chats (store w') !! id = Some conv' ∧ chat conv' = Some c ∧
              messages conv' = messagesOf id (store w')) ∧
    length (messagesOf id (store w')) = length (messages conv) ∧
    (∀ j m, messages conv !! j = Some m → messageId m ≠ messageId rec →
            messagesOf id (store w') !! j = Some m) ∧
    match indexOf (messageId rec) (map messageId (messages conv)) with
    | Some p =>
        messagesOf id (store w') = <[p := rec]> (messages conv) ∧
        ∀ j m, (j < p)%nat → messages conv !! j = Some m →
               messageId m ≠ messageId rec
    | None => messagesOf id (store w') = messages conv
    end.
Proof.
  intros Hc Hchat. destruct conv as [held ms].
  cbn [chat messages] in *. subst held.
  set (rec := updateFeedback env (chatId c) created fb).
  assert (Hrun : sendFeedback env id created fb w =
    Returned tt
      (mkWorld
         (withChats <[id := mkConversation (Some c) (replaceOne rec ms)]> (store w))
         (store w :: snapshots w)
         (UpdateFeedback (chatId c) created fb :: events w) (drawn w))).
  { unfold sendFeedback, bind, getStore. rewrite Hc. cbn [chat]. unfold emit.
    rewrite (replaceMessages_run id _ (mkWorld _ _ _ _) _ Hc). reflexivity. }
  eexists _, rec. split; [done|]. split; [exact Hrun|].
  cbn [store events]. rewrite messagesOf_insert. cbn [messages].
  split; [done|]. split.
  { eexists. cbn [withChats chats]. rewrite lookup_insert_eq. by repeat split. }
  split.
  { by rewrite <- (length_map messageId), replaceOne_ids, length_map. }
  split.
  { intros j m Hj Hne. rewrite replaceOne_lookup, Hj. cbn.
    destruct (decide _) as [E|]; [|done].
    apply indexOf_Some in E. rewrite list_lookup_fmap, Hj in E. cbn in E. congruence. }
  unfold replaceOne.
  destruct (indexOf (messageId rec) (map messageId ms)) as [p|] eqn:E; [|done].
  split; [done|]. intros j m Hlt Hj Heq.
  apply (indexOf_before _ _ _ E j Hlt). rewrite list_lookup_fmap, Hj. cbn.
  by rewrite Heq.
Qed.

(** ** One view at a time *)

Lemma sameElsewhere_refl id st : sameElsewhere id st st.
Proof. by repeat split. Qed.

Lemma sameElsewhere_trans id st1 st2 st3 :
  sameElsewhere id st1 st2 → sameElsewhere id st2 st3 → sameElsewhere id st1 st3.
Proof.
  intros (H1 & M1 & L1) (H2 & M2 & L2). repeat split; [|congruence..].
  intros k Hk. by rewrite H2, H1.
Qed.

Lemma sameElsewhere_insert id conv st :
  sameElsewhere id st (withChats <[id := conv]> st).
Proof. repeat split. intros k Hk. cbn. by rewrite lookup_insert_ne. Qed.

Lemma set_onConversation_elsewhere id f w :
  sameElsewhere id (store w) (store (finalWorld (set (onConversation id f) w))).
Proof.
  unfold set, onConversation.
  destruct (chats (store w) !! id) as [conv|]; [|apply sameElsewhere_refl].
  destruct (f conv); [apply sameElsewhere_insert|apply sameElsewhere_refl].
Qed.

Lemma replaceMessages_elsewhere id recs w :
  sameElsewhere id (store w) (store (finalWorld (replaceMessages id recs w))).
Proof.
  destruct recs; [apply sameElsewhere_refl|apply set_onConversation_elsewhere].
Qed.

Lemma runOp_elsewhere env id op w :
  sameElsewhere id (store w) (store (finalWorld (runOp env id op w))).
Proof.
  destruct op as [model chunk|model f| |recs|created fb|r c|]; cbn [runOp].
  - apply set_onConversation_elsewhere.
  - apply set_onConversation_elsewhere.
  - unfold bind, addMessageIdsToUnrecordedMessages.
    destruct (chats (store w) !! id) as [conv|]; [|apply sameElsewhere_refl].
    destruct (assignIds _ _ _ _) as [[ms' batch] n']. apply sameElsewhere_insert.
  - apply replaceMessages_elsewhere.
  - unfold sendFeedback, bind, getStore.
    destruct (chats (store w) !! id) as [conv|];
      [|destruct (inherited id); apply sameElsewhere_refl].
    destruct (chat conv) as [c|]; [|apply sameElsewhere_refl].
    unfold emit. apply (replaceMessages_elsewhere id _ (mkWorld _ _ _ _)).
  - apply set_onConversation_elsewhere.
  - unfold popMessage, bind, getStore.
    destruct (chats (store w) !! id) as [conv|] eqn:Hc; [|apply sameElsewhere_refl].
    unfold set, onConversation. rewrite Hc. apply sameElsewhere_insert.
Qed.

(** X13.  Stream updates, post-processing, identifier assignment, merges,
    feedback, pushes and pops on one view, in any number and order and
    whether or not one of them throws, leave every other view, the model
    selection and the loading flags as they were. *)
Theorem operations_stay_in_their_view env id ops : ∀ w,
  (∀ k, k ≠ id →
     chats (store (finalWorld (runOps env id ops w))) !! k = chats (store w) !! k) ∧
  modelIds (store (finalWorld (runOps env id ops w))) = modelIds (store w) ∧
  loading (store (finalWorld (runOps env id ops w))) = loading (store w).
Proof.
  induction ops as [|op ops IH]; intros w; [by repeat split|].
  pose proof (runOp_elsewhere env id op w) as H1.
  rewrite runOps_cons.
  destruct (runOp env id op w) as [[] w1|e w1]; cbn [finalWorld] in *.
  - exact (sameElsewhere_trans id _ _ _ H1 (IH w1)).
  - exact H1.
Qed.

(** X14.  What one operation does to the number of messages of its view:
    a stream update, the post-processing step, an identifier assignment, a
    merge and a feedback update never add or drop a message, also when
    they throw; a push adds one when the view has a state; a pop drops one
    unless the list is empty. *)
Theorem operations_and_the_length env id op w :
  length (messagesOf id (store (finalWorld (runOp env id op w)))) =
    match op with
    | OpPush _ _ =>
        match chats (store w) !! id with
        | Some _ => S (length (messagesOf id (store w)))
        | None => 0%nat
        end
    | OpPop => (length (messagesOf id (store w)) - 1)%nat
    | _ => length (messagesOf id (store w))
    end.
Proof.
  destruct (chats (store w) !! id) as [conv|] eqn:Hc.
  - rewrite (messagesOf_Some _ _ _ Hc).
    destruct op as [model chunk|model f| |recs|created fb|r c|]; cbn [runOp].
    + unfold streamChunk, set, onConversation. rewrite Hc.
      destruct (jsPop (messages conv)) as [[front old]|] eqn:E; cbn [finalWorld store].
      * rewrite messagesOf_insert. cbn [messages].
        rewrite (jsPop_Some _ _ _ E), !length_app. done.
      * by rewrite (messagesOf_Some _ _ _ Hc).
    + unfold postProcess, set, onConversation. rewrite Hc.
      destruct (jsPop (messages conv)) as [[front old]|] eqn:E; cbn [finalWorld store].
      * rewrite messagesOf_insert. cbn [messages].
        rewrite (jsPop_Some _ _ _ E), !length_app. done.
      * by rewrite (messagesOf_Some _ _ _ Hc).
    + unfold bind. rewrite (addMessageIds_run env id w conv Hc).
      cbn [ret finalWorld store]. rewrite messagesOf_insert. cbn [messages].
      apply assignIds_length.
    + rewrite (replaceMessages_run id recs w conv Hc). cbn [finalWorld store].
      rewrite messagesOf_insert. cbn [messages]. apply replaceAll_length.
    + unfold sendFeedback, bind, getStore. rewrite Hc.
      destruct (chat conv) as [c|].
      * unfold emit. rewrite (replaceMessages_run id _ (mkWorld _ _ _ _) conv Hc).
        cbn [finalWorld store]. rewrite messagesOf_insert. cbn [messages].
        apply replaceAll_length.
      * cbn [ret finalWorld]. by rewrite (messagesOf_Some _ _ _ Hc).
    + unfold pushMessage, set, onConversation. rewrite Hc. cbn [finalWorld store].
      rewrite messagesOf_insert. cbn [messages]. rewrite length_app. cbn. lia.
    + unfold popMessage, bind, getStore. rewrite Hc.
      unfold set, onConversation. rewrite Hc. cbn [ret finalWorld store].
      rewrite messagesOf_insert. cbn [messages].
      pose proof (jsPop_front (messages conv)) as Hp.
      destruct (jsPop (messages conv)) as [[front x]|].
      * destruct Hp as [-> _]. rewrite length_take. lia.
      * by rewrite Hp.
  - assert (Hm : messagesOf id (store w) = []) by (unfold messagesOf; by rewrite Hc).
    rewrite Hm.
    destruct op as [model chunk|model f| |recs|created fb|r c|]; cbn [runOp].
    + unfold streamChunk, set, onConversation. rewrite Hc. cbn. by rewrite Hm.
    + unfold postProcess, set, onConversation. rewrite Hc. cbn. by rewrite Hm.
    + unfold bind, addMessageIdsToUnrecordedMessages. rewrite Hc. cbn. by rewrite Hm.
    + destruct recs as [|r recs].
      * cbn. by rewrite Hm.
      * unfold replaceMessages, set, onConversation. rewrite Hc. cbn. by rewrite Hm.
    + unfold sendFeedback, bind, getStore. rewrite Hc.
      destruct (inherited id); cbn; by rewrite Hm.
    + unfold pushMessage, set, onConversation. rewrite Hc. cbn. by rewrite Hm.
    + unfold popMessage, bind, getStore. rewrite Hc. cbn. by rewrite Hm.
Qed.

(** ** Restore, again *)

(** X15.  On a store whose view keys are no property names of
    [Object.prototype], and for such a key, [restore] leaves every other
    view that does not hold the chat as it is, does not create a view that
    was not there, and is idempotent: a second [restore] with the same
    arguments ends in the store the first one ended in. *)
Theorem restore_twice env id ms c w :
  plainViews (store w) = true →
  inherited id = false →
  ∃ w1 w2,
    restore env id ms c w = Returned tt w1 ∧
    restore env id ms c w1 = Returned tt w2 ∧
    store w2 = store w1 ∧
    chats (store w1) !! id = Some (mkConversation (Some c) ms) ∧
    (∀ k conv, k ≠ id → chats (store w) !! k = Some conv →
       holdsChat (chatId c) conv = false → chats (store w1) !! k = Some conv) ∧
    (∀ k, k ≠ id → chats (store w) !! k = None → chats (store w1) !! k = None).
Proof.
  intros Hplain Hid.
  assert (Hp : id ≠ "__proto__") by (by intros ->).
  destruct (restore_run env id ms c w Hplain Hp)
    as (w1 & Hrun1 & Hm1 & Hl1 & _ & _ & Hk1).
  pose proof (restore_plainViews env id ms c w w1 Hplain Hid Hk1) as Hplain1.
  destruct (restore_run env id ms c w1 Hplain1 Hp)
    as (w2 & Hrun2 & Hm2 & Hl2 & _ & _ & Hk2).
  exists w1, w2. split; [done|]. split; [done|]. split; [|split; [|split]].
  - assert (chats (store w2) = chats (store w1)) as Hchats.
    { apply map_eq. intros k. rewrite Hk2, Hk1.
      destruct (decide (k = id)); [done|].
      unfold collapsed at 1. rewrite Hk1, decide_False by done.
      destruct (collapsed env (chatId c) (store w) k) as [conv|] eqn:E; [|done].
      by rewrite (collapsed_holdsChat _ _ _ _ _ E). }
    destruct (store w2), (store w1). cbn in *. congruence.
  - by rewrite Hk1, decide_True.
  - intros k conv Hk Hc Hh. rewrite Hk1, decide_False by done.
    unfold collapsed. by rewrite Hc, Hh.
  - intros k Hk Hc. rewrite Hk1, decide_False by done.
    unfold collapsed. by rewrite Hc.
Qed.

(** ** Plain text in the stream *)

Lemma noLt_cons c s :
  Str.noLt (String c s) = true → c ≠ "<"%char ∧ Str.noLt s = true.
Proof.
  cbn. intros [Hc Hs]%andb_true_iff. split; [|done].
  intros ->. done.
Qed.

(** Text without a left angle bracket goes through the stripping
    unchanged. *)
Lemma stripMarkers_plain s : Str.noLt s = true → Str.stripMarkers s = s.
Proof.
  unfold Str.stripMarkers. induction s as [|c s IH]; [done|].
  intros [Hc Hs]%noLt_cons. by rewrite (stripFrom_other c s Hc), IH.
Qed.

Lemma noLt_append a b :
  Str.noLt a = true → Str.noLt b = true → Str.noLt (a +:+ b) = true.
Proof.
  induction a as [|c a IH]; [done|]. rewrite append_cons. cbn.
  intros [Hc Ha]%andb_true_iff Hb. by rewrite Hc, IH.
Qed.

Lemma noLt_joinAll frags :
  Forall (fun f => Str.noLt f = true) frags → Str.noLt (Str.joinAll frags) = true.
Proof.
  induction 1 as [|f frags Hf _ IH]; [done|].
  change (Str.joinAll (f :: frags)) with (f +:+ Str.joinAll frags).
  by apply noLt_append.
Qed.

(** X21.  When no fragment of the stream contains a left angle bracket,
    the streaming loop of [post] ends with the plain concatenation of the
    fragments as the content of the reply: the stripping touches nothing. *)
Theorem plain_fragments_are_concatenated id model frags w conv front :
  chats (store w) !! id = Some conv →
  messages conv = front ++ [unrecorded Assistant ""] →
  Forall (fun f => Str.noLt f = true) frags →
  ∃ w',
    streamLoop id model frags w = Returned tt w' ∧
    trailingContent id (store w') = Some (Str.joinAll frags) ∧
    accumulate "" frags = Str.joinAll frags.
Proof.
  intros Hc Hm Hplain.
  assert (Hacc : accumulate "" frags = Str.joinAll frags).
  { rewrite accumulate_from_placeholder.
    - by apply stripMarkers_plain, noLt_joinAll.
    - rewrite stripMarkers_plain; by apply noLt_joinAll. }
  eexists. split; [exact (streamLoop_run id model frags w conv front _ Hc Hm)|].
  split; [|done]. cbn [store].
  rewrite (trailingContent_afterFragments id model (chat conv) front
             (unrecorded Assistant "") (store w) frags).
  - by rewrite <- Hacc.
  - rewrite Hc, <- Hm. by destruct conv.
Qed.

(** ** The tag of a view key, again *)

Lemma isSlash_true c : Str.isSlash c = true → c = "/"%char.
Proof. unfold Str.isSlash. by intros ?%Ascii.eqb_eq. Qed.

Lemma takeSegment_append seg rest :
  Str.noSlash seg = true → (rest = "" ∨ ∃ r, rest = String "/" r) →
  Str.takeSegment (seg +:+ rest) = seg.
Proof.
  intros Hseg Hrest. induction seg as [|c seg IH].
  - destruct Hrest as [->|[r ->]]; done.
  - rewrite append_cons. cbn in *. apply andb_true_iff in Hseg as [Hc Hseg].
    apply negb_true_iff in Hc. rewrite Hc. by rewrite IH.
Qed.

Lemma firstSegment_build pre seg rest :
  Str.allSlashes pre = true → Str.noSlash seg = true → seg ≠ "" →
  (rest = "" ∨ ∃ r, rest = String "/" r) →
  Str.firstSegment (pre +:+ seg +:+ rest) = Some seg.
Proof.
  intros Hpre Hseg Hne Hrest. induction pre as [|c pre IH].
  - change ("" +:+ seg +:+ rest) with (seg +:+ rest).
    destruct seg as [|c seg]; [done|]. rewrite append_cons.
    cbn [Str.firstSegment]. pose proof Hseg as Hseg'. cbn in Hseg'.
    apply andb_true_iff in Hseg' as [Hc _]. apply negb_true_iff in Hc. rewrite Hc.
    rewrite <- append_cons. by rewrite takeSegment_append.
  - rewrite append_cons. cbn in *. apply andb_true_iff in Hpre as [Hc Hpre].
    rewrite Hc. by apply IH.
Qed.

(** X22.  All the pages of one use case get the same tag: a key made of
    slashes, a segment without a slash, and then nothing or a slash and
    whatever follows, has the tag made of a slash and that segment. *)
Theorem usecaseTag_of_subpaths pre seg rest :
  Str.allSlashes pre = true → Str.noSlash seg = true → seg ≠ "" →
  (rest = "" ∨ ∃ r, rest = String "/" r) →
  usecaseTag (pre +:+ seg +:+ rest) = "/" +:+ seg.
Proof.
  intros Hpre Hseg Hne Hrest. unfold usecaseTag.
  by rewrite (firstSegment_build pre seg rest Hpre Hseg Hne Hrest).
Qed.

(** X23.  A tag is the key of its own use case: the tag of a tag is that
    tag. *)
Theorem usecaseTag_idempotent id : usecaseTag (usecaseTag id) = usecaseTag id.
Proof.
  pose proof (firstSegment_spec id) as Hs. unfold usecaseTag at 2 3.
  destruct (Str.firstSegment id) as [seg|] eqn:E.
  - destruct Hs as (Hne & Hns & _). unfold usecaseTag.
    rewrite <- (append_nil_r seg) at 1.
    rewrite (firstSegment_build "/" seg "" eq_refl Hns Hne); [done|by left].
  - unfold usecaseTag. by rewrite E.
Qed.

(** ** [post], step by step *)

Lemma viewIs_lookup id base conv ld n evs d w :
  viewIs id base conv ld n evs d w → chats (store w) !! id = Some conv.
Proof. intros (Hc & _). rewrite Hc. apply lookup_insert_eq. Qed.

Lemma viewIs_start id w conv :
  chats (store w) !! id = Some conv →
  viewIs id (store w) conv (loading (store w)) (length (snapshots w)) (events w)
    (drawn w) w.
Proof. intros Hc. repeat split. by rewrite insert_id. Qed.

Lemma step_set id f base conv conv' ld n evs d w :
  viewIs id base conv ld n evs d w →
  f conv = Some conv' →
  ∃ w', set (onConversation id f) w = Returned tt w' ∧
        viewIs id base conv' ld (S n) evs d w'.
Proof.
  intros Hv Hf. pose proof (viewIs_lookup _ _ _ _ _ _ _ _ Hv) as Hc.
  destruct Hv as (Hchats & Hm & Hl & Hn & He & Hd).
  unfold set, onConversation. rewrite Hc, Hf.
  eexists. split; [reflexivity|]. repeat split; cbn; try done.
  - by rewrite Hchats, insert_insert_eq.
  - by rewrite Hn.
Qed.

Lemma step_setLoading id b base conv ld n evs d w :
  viewIs id base conv ld n evs d w →
  ∃ w', setLoading id b w = Returned tt w' ∧
        viewIs id base conv (<[id := b]> ld) (S n) evs d w'.
Proof.
  intros (Hchats & Hm & Hl & Hn & He & Hd).
  eexists. split; [reflexivity|]. repeat split; cbn; try done.
  - by rewrite Hl.
  - by rewrite Hn.
Qed.

Lemma step_emit id e base conv ld n evs d w :
  viewIs id base conv ld n evs d w →
  ∃ w', emit e w = Returned tt w' ∧ viewIs id base conv ld n (e :: evs) d w'.
Proof.
  intros (Hchats & Hm & Hl & Hn & He & Hd).
  eexists. split; [reflexivity|]. repeat split; cbn; try done. by rewrite He.
Qed.

(** The trailing message after the fragments [chunks]. *)
Lemma step_streamLoop id model chunks : ∀ base c front old ld n evs d w,
  viewIs id base (mkConversation c (front ++ [old])) ld n evs d w →
  ∃ w', streamLoop id model chunks w = Returned tt w' ∧
        viewIs id base
          (mkConversation c
             (front ++
              [match chunks with
               | [] => old
               | _ => assistantMessage model (accumulate (content old) chunks)
               end]))
          ld (length chunks + n) evs d w'.
Proof.
  induction chunks as [|chunk chunks IH]; intros base c front old ld n evs d w Hv.
  - exists w. by split.
  - cbn [streamLoop]. unfold bind at 1. unfold streamChunk.
    match goal with
    | |- context [set (onConversation id ?f) w] =>
        destruct (step_set id f base _
                    (mkConversation c
                       (front ++
                        [assistantMessage model
                           (Str.stripMarkers (content old +:+ chunk))]))
                    ld n evs d w Hv) as (w1 & Hrun1 & Hv1)
    end.
    { cbn [messages chat]. by rewrite jsPop_snoc. }
    rewrite Hrun1.
    destruct (IH base c front _ ld (S n) evs d w1 Hv1) as (w2 & Hrun2 & Hv2).
    exists w2. split; [exact Hrun2|].
    replace (length (chunk :: chunks) + n)%nat with (length chunks + S n)%nat
      by (cbn; lia).
    by destruct chunks.
Qed.

Lemma step_postProcess id model f base c front old ld n evs d w :
  viewIs id base (mkConversation c (front ++ [old])) ld n evs d w →
  ∃ w', postProcess id model f w = Returned tt w' ∧
        viewIs id base
          (mkConversation c (front ++ [assistantMessage model (f (content old))]))
          ld (S n) evs d w'.
Proof.
  intros Hv. unfold postProcess. apply (step_set id _ base _ _ ld n evs d w Hv).
  cbn [messages chat]. by rewrite jsPop_snoc.
Qed.

Lemma step_createChat env id base conv ld n evs d w :
  viewIs id base conv ld n evs d w →
  ∃ w',
    createChatIfNotExist env id (chat conv) w
      = Returned (chatId (default (createChat env (length evs)) (chat conv))) w' ∧
    viewIs id base
      (mkConversation (Some (default (createChat env (length evs)) (chat conv)))
         (messages conv))
      ld
      (match chat conv with Some _ => n | None => S n end)
      (match chat conv with Some _ => evs | None => CreateChat :: evs end)
      d w'.
Proof.
  intros Hv. destruct conv as [[c|] ms]; cbn [chat messages default].
  - exists w. by split.
  - unfold createChatIfNotExist.
    assert (He : events w = evs) by (by destruct Hv as (_ & _ & _ & _ & He & _)).
    rewrite He. unfold bind at 1.
    destruct (step_emit id CreateChat _ _ _ _ _ _ _ Hv) as (w1 & Hrun1 & Hv1).
    rewrite Hrun1. unfold bind at 1.
    destruct (step_set id
                (fun conv => Some (mkConversation (Some (createChat env (length evs)))
                                     (messages conv)))
                _ _ _ _ _ _ _ w1 Hv1 eq_refl) as (w2 & Hrun2 & Hv2).
    rewrite Hrun2. exists w2. by split.
Qed.

Lemma step_titleCheck id base c ms ld n evs d w :
  viewIs id base (mkConversation (Some c) ms) ld n evs d w →
  ∃ w',
    match chats (store w) !! id with
    | Some conv =>
        match chat conv with
        | Some c => if String.eqb (title c) "" then setPredictedTitle id else ret tt
        | None => ret tt
        end
    | None => throw TypeError
    end w = Returned tt w' ∧
    viewIs id base (mkConversation (Some c) ms) ld n
      ((if String.eqb (title c) ""
        then [PredictTitle (Some c) (omitUnusedMessageProperties ms)] else [])
       ++ evs) d w'.
Proof.
  intros Hv. rewrite (viewIs_lookup _ _ _ _ _ _ _ _ Hv). cbn [chat].
  destruct (String.eqb (title c) "").
  - unfold setPredictedTitle, bind, getStore.
    rewrite (viewIs_lookup _ _ _ _ _ _ _ _ Hv). cbn [chat messages app].
    by apply step_emit.
  - exists w. by split.
Qed.

Lemma step_assign env id base conv ld n evs d w :
  viewIs id base conv ld n evs d w →
  ∃ w',
    addMessageIdsToUnrecordedMessages env id w
      = Returned (assignIds env id d (messages conv)).1.2 w' ∧
    viewIs id base
      (mkConversation (chat conv) (assignIds env id d (messages conv)).1.1)
      ld (S n) evs (assignIds env id d (messages conv)).2 w'.
Proof.
  intros Hv. pose proof (viewIs_lookup _ _ _ _ _ _ _ _ Hv) as Hc.
  destruct Hv as (Hchats & Hm & Hl & Hn & He & Hd).
  rewrite (addMessageIds_run env id w conv Hc), Hd.
  eexists. split; [reflexivity|]. repeat split; cbn; try done.
  - by rewrite Hchats, insert_insert_eq.
  - by rewrite Hn.
Qed.

Lemma step_merge id recs base conv ld n evs d w :
  viewIs id base conv ld n evs d w →
  ∃ w',
    replaceMessages id recs w = Returned tt w' ∧
    viewIs id base (mkConversation (chat conv) (replaceAll recs (messages conv)))
      ld (S n) evs d w'.
Proof.
  intros Hv. pose proof (viewIs_lookup _ _ _ _ _ _ _ _ Hv) as Hc.
  destruct Hv as (Hchats & Hm & Hl & Hn & He & Hd).
  rewrite (replaceMessages_run id recs w conv Hc).
  eexists. split; [reflexivity|]. repeat split; cbn; try done.
  - by rewrite Hchats, insert_insert_eq.
  - by rewrite Hn.
Qed.

Lemma snoc_two {A} (l : list A) a b : l ++ [a; b] = (l ++ [a]) ++ [b].
Proof. by rewrite <- app_assoc. Qed.

(** [post] from beginning to end, on a view with a state and a model the
    catalog knows: the outcome, as seen from the view. *)
Lemma post_full env id message ignoreHistory
    preProcessInput postProcessOutput extraSuffix stopSequences session
    w mid model0 conv :
  modelIds (store w) !! id = Some mid →
  mid ≠ "" →
  findModelByModelId env mid = Some model0 →
  chats (store w) !! id = Some conv →
  ∃ w' model request chunks streamed finalChat r,
    model = modelFor model0 session ∧
    request =
      omitUnusedMessageProperties
        (match preProcessInput with
         | Some f => f (chosenInput ignoreHistory (messages conv) message)
         | None => chosenInput ignoreHistory (messages conv) message
         end) ∧
    chunks = predictStream env model request extraSuffix stopSequences ∧
    streamed =
      messages conv ++
      [unrecorded User message; streamedReply model chunks postProcessOutput] ∧
    finalChat = default (createChat env (S (length (events w)))) (chat conv) ∧
    r = assignIds env id (drawn w) streamed ∧
    post env id message ignoreHistory preProcessInput postProcessOutput
      extraSuffix stopSequences session w = Returned tt w' ∧
    viewIs id (store w)
      (mkConversation (Some finalChat)
         (replaceAll (createMessages env (chatId finalChat) r.1.2) r.1.1))
      (<[id := false]> (loading (store w)))
      (length (snapshots w) + 5 + length chunks
       + (match postProcessOutput with Some _ => 1 | None => 0 end)
       + (match chat conv with Some _ => 0 | None => 1 end))
      (CreateMessages (chatId finalChat) r.1.2 ::
       (if String.eqb (title finalChat) ""
        then [PredictTitle (Some finalChat) (omitUnusedMessageProperties streamed)]
        else []) ++
       (match chat conv with Some _ => [] | None => [CreateChat] end) ++
       PredictStream model request extraSuffix stopSequences :: events w)
      r.2 w'.
Proof.
  intros Hmid Hne Hfind Hc.
  set (model := modelFor model0 session).
  set (input := chosenInput ignoreHistory (messages conv) message).
  set (request := omitUnusedMessageProperties
           (match preProcessInput with Some f => f input | None => input end)).
  set (chunks := predictStream env model request extraSuffix stopSequences).
  set (streamed := messages conv ++
      [unrecorded User message; streamedReply model chunks postProcessOutput]).
  set (finalChat := default (createChat env (S (length (events w)))) (chat conv)).
  set (r := assignIds env id (drawn w) streamed).
  pose proof (viewIs_start id w conv Hc) as Hv0.
  unfold post. unfold bind at 1. unfold getStore at 1. rewrite Hmid.
  rewrite (truthy_Some_nonempty mid Hne). cbn [negb]. rewrite Hfind.
  fold model.
  destruct (step_setLoading id true _ _ _ _ _ _ w Hv0) as (w1 & Hrun1 & Hv1).
  unfold bind at 1. rewrite Hrun1.
  unfold bind at 1.
  match goal with
  | |- context [set (onConversation id ?f) w1] =>
      destruct (step_set id f _ _
                  (mkConversation (chat conv)
                     (messages conv ++
                      [unrecorded User message; unrecorded Assistant ""]))
                  _ _ _ _ w1 Hv1 eq_refl) as (w2 & Hrun2 & Hv2)
  end.
  rewrite Hrun2.
  unfold bind at 1. unfold getStore at 1.
  rewrite (viewIs_lookup _ _ _ _ _ _ _ _ Hv2).
  unfold bind at 1. unfold ret at 1. cbn [messages].
  rewrite inputMessages_spec.
  fold (chosenInput ignoreHistory (messages conv) message). fold input.
  unfold bind at 1. unfold ret at 1. fold request.
  destruct (step_emit id (PredictStream model request extraSuffix stopSequences)
              _ _ _ _ _ _ w2 Hv2) as (w3 & Hrun3 & Hv3).
  unfold bind at 1. rewrite Hrun3.
  rewrite snoc_two in Hv3.
  fold chunks.
  destruct (step_streamLoop id model chunks _ _ _ _ _ _ _ _ w3 Hv3)
    as (w4 & Hrun4 & Hv4).
  unfold bind at 1. rewrite Hrun4.
  assert (∃ w5,
    match postProcessOutput with
    | Some f => postProcess id model f
    | None => ret tt
    end w4 = Returned tt w5 ∧
    viewIs id (store w) (mkConversation (chat conv) streamed)
      (<[id := true]> (loading (store w)))
      (match postProcessOutput with Some _ => 1 | None => 0 end
       + (length chunks + S (S (length (snapshots w)))))
      (PredictStream model request extraSuffix stopSequences :: events w)
      (drawn w) w5) as (w5 & Hrun5 & Hv5).
  { subst streamed. unfold streamedReply.
    rewrite snoc_two.
    destruct postProcessOutput as [f|].
    - apply (step_postProcess id model f _ _ _ _ _ _ _ _ w4 Hv4).
    - exists w4. by split. }
  unfold bind at 1. rewrite Hrun5.
  destruct (step_setLoading id false _ _ _ _ _ _ w5 Hv5) as (w6 & Hrun6 & Hv6).
  unfold bind at 1. rewrite Hrun6.
  unfold bind at 1. unfold getStore at 1.
  rewrite (viewIs_lookup _ _ _ _ _ _ _ _ Hv6).
  unfold bind at 1. unfold ret at 1.
  destruct (step_createChat env id _ _ _ _ _ _ w6 Hv6) as (w7 & Hrun7 & Hv7).
  unfold bind at 1. rewrite Hrun7.
  cbn [chat messages length] in Hv7. fold finalChat in Hv7.
  unfold bind at 1. unfold getStore at 1.
  destruct (step_titleCheck id _ _ _ _ _ _ _ w7 Hv7) as (w8 & Hrun8 & Hv8).
  unfold bind at 1. rewrite Hrun8.
  destruct (step_assign env id _ _ _ _ _ _ w8 Hv8) as (w9 & Hrun9 & Hv9).
  unfold bind at 1. rewrite Hrun9.
  cbn [chat messages] in Hv9. fold r in Hv9. cbn [messages]. fold r.
  destruct (step_emit id (CreateMessages (chatId finalChat) r.1.2)
              _ _ _ _ _ _ w9 Hv9) as (w10 & Hrun10 & Hv10).
  unfold bind at 1. cbn [chat length]. fold finalChat. rewrite Hrun10.
  destruct (step_merge id (createMessages env (chatId finalChat) r.1.2)
              _ _ _ _ _ _ w10 Hv10) as (w11 & Hrun11 & Hv11).
  rewrite Hrun11.
  exists w11, model, request, chunks, streamed, finalChat, r.
  do 6 (split; [reflexivity|]). split; [reflexivity|].
  cbn [chat messages] in Hv11.
  destruct Hv11 as (Hchats & Hm & Hl & Hn & He & Hd).
  repeat split; try done.
  - by rewrite Hl, insert_insert_eq.
  - rewrite Hn. destruct postProcessOutput, (chat conv); lia.
  - rewrite He. by destruct (chat conv), (String.eqb (title finalChat) "").
Qed.

(** ** [post] in any weather *)

Lemma bind_ret_l {A B} (a : A) (k : A → Eng B) w : bind (ret a) k w = k a w.
Proof. reflexivity. Qed.

Lemma bind_ext {A B} (m : Eng A) (k1 k2 : A → Eng B) w :
  (∀ a w', k1 a w' = k2 a w') → bind m k1 w = bind m k2 w.
Proof. intros H. unfold bind. destruct (m w); [apply H|done]. Qed.

Lemma createChatIfNotExistIn_answers env wx id c :
  (c = None → createChatRejects wx = false) →
  createChatIfNotExistIn env wx id c = createChatIfNotExist env id c.
Proof.
  intros H. destruct c as [c|]; [done|].
  unfold createChatIfNotExistIn, createChatIfNotExist. by rewrite (H eq_refl).
Qed.

Lemma step_createChatRejected env wx id base ms ld n evs d w :
  viewIs id base (mkConversation None ms) ld n evs d w →
  createChatRejects wx = true →
  ∃ w',
    createChatIfNotExistIn env wx id None w = Thrown Rejected w' ∧
    viewIs id base (mkConversation None ms) ld n (CreateChat :: evs) d w'.
Proof.
  intros Hv Hr. unfold createChatIfNotExistIn. rewrite Hr.
  destruct (step_emit id CreateChat _ _ _ _ _ _ w Hv) as (w1 & Hrun & Hv1).
  unfold bind at 1. rewrite Hrun. exists w1. by split.
Qed.

Lemma step_startTitleTask id base c ms ld n evs d w :
  viewIs id base (mkConversation (Some c) ms) ld n evs d w →
  ∃ w',
    startTitleTask id w =
      Returned
        (if String.eqb (title c) ""
         then Some (c, omitUnusedMessageProperties ms) else None) w' ∧
    viewIs id base (mkConversation (Some c) ms) ld n
      ((if String.eqb (title c) ""
        then [PredictTitle (Some c) (omitUnusedMessageProperties ms)] else [])
       ++ evs) d w'.
Proof.
  intros Hv. unfold startTitleTask, bind at 1, getStore.
  rewrite (viewIs_lookup _ _ _ _ _ _ _ _ Hv). cbn [chat messages].
  destruct (String.eqb (title c) "").
  - unfold setPredictedTitle, bind, getStore.
    rewrite (viewIs_lookup _ _ _ _ _ _ _ _ Hv). cbn [chat messages app].
    destruct (step_emit id (PredictTitle (Some c) (omitUnusedMessageProperties ms))
                _ _ _ _ _ _ w Hv) as (w1 & Hrun & Hv1).
    rewrite Hrun. exists w1. by split.
  - exists w. by split.
Qed.

(** The title task completing on a view that holds a chat. *)
Lemma step_titleArrives env id c0 history base c ms ld n evs d w :
  viewIs id base (mkConversation (Some c) ms) ld n evs d w →
  ∃ w',
    detached (titleTaskCompletes env id c0 history) w = Returned tt w' ∧
    viewIs id base
      (mkConversation (Some (mkChat (chatId c) (predictTitle env c0 history))) ms)
      ld (S n) (MutateListChat :: evs) d w'.
Proof.
  intros Hv. unfold detached, titleTaskCompletes, bind, setTitle.
  match goal with
  | |- context [set (onConversation id ?f) w] =>
      destruct (step_set id f _ _
                  (mkConversation (Some (mkChat (chatId c) (predictTitle env c0 history)))
                     ms)
                  _ _ _ _ w Hv eq_refl) as (w1 & Hrun1 & Hv1)
  end.
  rewrite Hrun1.
  destruct (step_emit id MutateListChat _ _ _ _ _ _ w1 Hv1) as (w2 & Hrun2 & Hv2).
  rewrite Hrun2. exists w2. by split.
Qed.

Lemma submitAndMerge_run env wx id cid task base c ms ld n evs d w :
  viewIs id base (mkConversation (Some c) ms) ld n evs d w →
  ∃ w',
    submitAndMerge env wx id cid task w
      = (if createMessagesRejects wx then Thrown Rejected w' else Returned tt w') ∧
    viewIs id base
      (mkConversation
         (Some (match arrived wx task with
                | Some (c0, history) => mkChat (chatId c) (predictTitle env c0 history)
                | None => c
                end))
         (if createMessagesRejects wx then (assignIds env id d ms).1.1
          else replaceAll (createMessages env cid (assignIds env id d ms).1.2)
                 (assignIds env id d ms).1.1))
      ld
      (S n + (match arrived wx task with Some _ => 1 | None => 0 end)
       + (if createMessagesRejects wx then 0 else 1))
      ((match arrived wx task with Some _ => [MutateListChat] | None => [] end)
       ++ CreateMessages cid (assignIds env id d ms).1.2 :: evs)
      (assignIds env id d ms).2 w'.
Proof.
  intros Hv. unfold submitAndMerge.
  destruct (step_assign env id _ _ _ _ _ _ w Hv) as (w1 & Hrun1 & Hv1).
  cbn [chat messages] in Hrun1, Hv1.
  unfold bind at 1. rewrite Hrun1.
  set (r := assignIds env id d ms) in *.
  destruct (step_emit id (CreateMessages cid r.1.2) _ _ _ _ _ _ w1 Hv1)
    as (w2 & Hrun2 & Hv2).
  unfold bind at 1. rewrite Hrun2.
  assert (∃ w3,
    (if titleArrivesEarly wx
     then match task with
          | Some (c0, history) => detached (titleTaskCompletes env id c0 history)
          | None => ret tt
          end
     else ret tt) w2 = Returned tt w3 ∧
    viewIs id base
      (mkConversation
         (Some (match arrived wx task with
                | Some (c0, history) => mkChat (chatId c) (predictTitle env c0 history)
                | None => c
                end)) r.1.1)
      ld (S n + (match arrived wx task with Some _ => 1 | None => 0 end))
      ((match arrived wx task with Some _ => [MutateListChat] | None => [] end)
       ++ CreateMessages cid r.1.2 :: evs) r.2 w3) as (w3 & Hrun3 & Hv3).
  { unfold arrived. destruct (titleArrivesEarly wx), task as [[c0 history]|];
      try (exists w2; split; [done|]; by rewrite Nat.add_0_r).
    destruct (step_titleArrives env id c0 history _ _ _ _ _ _ _ w2 Hv2)
      as (w3 & Hrun3 & Hv3).
    exists w3. split; [done|]. by rewrite Nat.add_1_r. }
  unfold bind at 1. rewrite Hrun3.
  destruct (createMessagesRejects wx).
  - exists w3. split; [done|]. by rewrite Nat.add_0_r.
  - unfold raiseIf. rewrite bind_ret_l.
    destruct (step_merge id (createMessages env cid r.1.2) _ _ _ _ _ _ w3 Hv3)
      as (w4 & Hrun4 & Hv4).
    exists w4. split; [done|]. cbn [chat messages] in Hv4. by rewrite Nat.add_1_r.
Qed.

(** Behind the loop, when the stream has ended and the chat is there or
    gets created: the batch is submitted, and [post] returns unless that
    request is rejected. *)
Lemma afterStream_submits env wx id model pp base c0 front old ld n evs d w :
  viewIs id base (mkConversation c0 (front ++ [old])) ld n evs d w →
  streamRaises wx = false →
  (c0 = None → createChatRejects wx = false) →
  ∃ w' streamed finalChat task r,
    streamed =
      front ++ [match pp with
                | Some f => assistantMessage model (f (content old))
                | None => old
                end] ∧
    finalChat = default (createChat env (length evs)) c0 ∧
    task =
      arrived wx
        (if String.eqb (title finalChat) ""
         then Some (finalChat, omitUnusedMessageProperties streamed) else None) ∧
    r = assignIds env id d streamed ∧
    afterStream env wx id model pp w
      = (if createMessagesRejects wx then Thrown Rejected w' else Returned tt w') ∧
    viewIs id base
      (mkConversation
         (Some (match task with
                | Some (c1, history) =>
                    mkChat (chatId finalChat) (predictTitle env c1 history)
                | None => finalChat
                end))
         (if createMessagesRejects wx then r.1.1
          else replaceAll (createMessages env (chatId finalChat) r.1.2) r.1.1))
      (<[id := false]> ld)
      (n + 2
       + (match pp with Some _ => 1 | None => 0 end)
       + (match c0 with Some _ => 0 | None => 1 end)
       + (match task with Some _ => 1 | None => 0 end)
       + (if createMessagesRejects wx then 0 else 1))
      ((match task with Some _ => [MutateListChat] | None => [] end) ++
       CreateMessages (chatId finalChat) r.1.2 ::
       (if String.eqb (title finalChat) ""
        then [PredictTitle (Some finalChat) (omitUnusedMessageProperties streamed)]
        else []) ++
       (match c0 with Some _ => [] | None => [CreateChat] end) ++ evs)
      r.2 w'.
Proof.
  intros Hv Hraise Hchat.
  set (streamed := front ++ [match pp with
                             | Some f => assistantMessage model (f (content old))
                             | None => old
                             end]).
  set (finalChat := default (createChat env (length evs)) c0).
  unfold afterStream. rewrite Hraise. unfold raiseIf. rewrite bind_ret_l.
  assert (∃ w5,
    match pp with
    | Some f => postProcess id model f
    | None => ret tt
    end w = Returned tt w5 ∧
    viewIs id base (mkConversation c0 streamed) ld
      (n + match pp with Some _ => 1 | None => 0 end) evs d w5)
    as (w5 & Hrun5 & Hv5).
  { subst streamed. destruct pp as [f|].
    - destruct (step_postProcess id model f _ _ _ _ _ _ _ _ w Hv) as (w5 & Hrun & Hv5).
      exists w5. split; [done|]. by rewrite Nat.add_1_r.
    - exists w. split; [done|]. by rewrite Nat.add_0_r. }
  unfold bind at 1. rewrite Hrun5.
  destruct (step_setLoading id false _ _ _ _ _ _ w5 Hv5) as (w6 & Hrun6 & Hv6).
  unfold bind at 1. rewrite Hrun6.
  unfold promoteAndSubmit. unfold bind at 1. unfold getStore at 1.
  rewrite (viewIs_lookup _ _ _ _ _ _ _ _ Hv6).
  unfold bind at 1. unfold ret at 1. cbn [chat].
  rewrite (createChatIfNotExistIn_answers env wx id c0 Hchat).
  destruct (step_createChat env id _ _ _ _ _ _ w6 Hv6) as (w7 & Hrun7 & Hv7).
  cbn [chat messages] in Hrun7, Hv7. fold finalChat in Hrun7, Hv7.
  unfold bind at 1. rewrite Hrun7.
  destruct (step_startTitleTask id _ _ _ _ _ _ _ w7 Hv7) as (w8 & Hrun8 & Hv8).
  unfold bind at 1. rewrite Hrun8.
  destruct (submitAndMerge_run env wx id (chatId finalChat)
              (if String.eqb (title finalChat) ""
               then Some (finalChat, omitUnusedMessageProperties streamed) else None)
              _ _ _ _ _ _ _ w8 Hv8) as (w9 & Hrun9 & Hv9).
  exists w9, streamed, finalChat. eexists _, _.
  split; [reflexivity|]. split; [reflexivity|]. split; [reflexivity|].
  split; [reflexivity|]. split; [exact Hrun9|].
  destruct Hv9 as (Hchats & Hm & Hl & Hn & He & Hd).
  repeat split; try done.
  - rewrite Hn. destruct c0, (arrived wx _), (createMessagesRejects wx); lia.
  - rewrite He. by destruct c0, (arrived wx _), (String.eqb (title finalChat) "").
Qed.

(** Behind the loop, when the stream has raised. *)
Lemma afterStream_raised env wx id model pp w :
  streamRaises wx = true → afterStream env wx id model pp w = Thrown Rejected w.
Proof. intros H. unfold afterStream. by rewrite H. Qed.

(** Behind the loop, when the view holds no chat and the creation of one
    is rejected. *)
Lemma afterStream_chat_rejected env wx id model pp base front old ld n evs d w :
  viewIs id base (mkConversation None (front ++ [old])) ld n evs d w →
  streamRaises wx = false →
  createChatRejects wx = true →
  ∃ w',
    afterStream env wx id model pp w = Thrown Rejected w' ∧
    viewIs id base
      (mkConversation None
         (front ++ [match pp with
                    | Some f => assistantMessage model (f (content old))
                    | None => old
                    end]))
      (<[id := false]> ld)
      (S n + match pp with Some _ => 1 | None => 0 end)
      (CreateChat :: evs) d w'.
Proof.
  intros Hv Hraise Hrej.
  unfold afterStream. rewrite Hraise. unfold raiseIf. rewrite bind_ret_l.
  assert (∃ w5,
    match pp with
    | Some f => postProcess id model f
    | None => ret tt
    end w = Returned tt w5 ∧
    viewIs id base
      (mkConversation None
         (front ++ [match pp with
                    | Some f => assistantMessage model (f (content old))
                    | None => old
                    end]))
      ld (n + match pp with Some _ => 1 | None => 0 end) evs d w5)
    as (w5 & Hrun5 & Hv5).
  { destruct pp as [f|].
    - destruct (step_postProcess id model f _ _ _ _ _ _ _ _ w Hv) as (w5 & Hrun & Hv5).
      exists w5. split; [done|]. by rewrite Nat.add_1_r.
    - exists w. split; [done|]. by rewrite Nat.add_0_r. }
  unfold bind at 1. rewrite Hrun5.
  destruct (step_setLoading id false _ _ _ _ _ _ w5 Hv5) as (w6 & Hrun6 & Hv6).
  unfold bind at 1. rewrite Hrun6.
  unfold promoteAndSubmit. unfold bind at 1. unfold getStore at 1.
  rewrite (viewIs_lookup _ _ _ _ _ _ _ _ Hv6).
  unfold bind at 1. unfold ret at 1. cbn [chat].
  destruct (step_createChatRejected env wx id _ _ _ _ _ _ w6 Hv6 Hrej)
    as (w7 & Hrun7 & Hv7).
  unfold bind at 1. rewrite Hrun7. exists w7. by split.
Qed.

(** Up to the end of the streaming loop the weather plays no part. *)
Lemma postWith_reaches_the_end_of_the_stream env id message ignoreHistory
    preProcessInput extraSuffix stopSequences session w mid model0 conv :
  modelIds (store w) !! id = Some mid →
  mid ≠ "" →
  findModelByModelId env mid = Some model0 →
  chats (store w) !! id = Some conv →
  ∃ w4 model request chunks,
    model = modelFor model0 session ∧
    request =
      omitUnusedMessageProperties
        (match preProcessInput with
         | Some f => f (chosenInput ignoreHistory (messages conv) message)
         | None => chosenInput ignoreHistory (messages conv) message
         end) ∧
    chunks = predictStream env model request extraSuffix stopSequences ∧
    (∀ wx postProcessOutput,
       postWith env wx id message ignoreHistory preProcessInput postProcessOutput
         extraSuffix stopSequences session w
       = afterStream env wx id model postProcessOutput w4) ∧
    viewIs id (store w)
      (mkConversation (chat conv)
         ((messages conv ++ [unrecorded User message]) ++
          [match chunks with
           | [] => unrecorded Assistant ""
           | _ => assistantMessage model (accumulate "" chunks)
           end]))
      (<[id := true]> (loading (store w)))
      (length chunks + S (S (length (snapshots w))))
      (PredictStream model request extraSuffix stopSequences :: events w)
      (drawn w) w4.
Proof.
  intros Hmid Hne Hfind Hc.
  set (model := modelFor model0 session).
  set (input := chosenInput ignoreHistory (messages conv) message).
  set (request := omitUnusedMessageProperties
           (match preProcessInput with Some f => f input | None => input end)).
  set (chunks := predictStream env model request extraSuffix stopSequences).
  pose proof (viewIs_start id w conv Hc) as Hv0.
  destruct (step_setLoading id true _ _ _ _ _ _ w Hv0) as (w1 & Hrun1 & Hv1).
  destruct (step_set id
              (fun conv => Some (mkConversation (chat conv)
                 (messages conv ++ [unrecorded User message; unrecorded Assistant ""])))
              _ _
              (mkConversation (chat conv)
                 (messages conv ++ [unrecorded User message; unrecorded Assistant ""]))
              _ _ _ _ w1 Hv1 eq_refl) as (w2 & Hrun2 & Hv2).
  destruct (step_emit id (PredictStream model request extraSuffix stopSequences)
              _ _ _ _ _ _ w2 Hv2) as (w3 & Hrun3 & Hv3).
  rewrite snoc_two in Hv3.
  destruct (step_streamLoop id model chunks _ _ _ _ _ _ _ _ w3 Hv3)
    as (w4 & Hrun4 & Hv4).
  exists w4, model, request, chunks.
  split; [done|]. split; [done|]. split; [done|]. split; [|exact Hv4].
  intros wx postProcessOutput.
  unfold postWith. unfold bind at 1. unfold getStore at 1. rewrite Hmid.
  rewrite (truthy_Some_nonempty mid Hne). cbn [negb]. rewrite Hfind.
  fold model.
  unfold bind at 1. rewrite Hrun1.
  unfold bind at 1. rewrite Hrun2.
  unfold bind at 1. unfold getStore at 1.
  rewrite (viewIs_lookup _ _ _ _ _ _ _ _ Hv2).
  unfold bind at 1. unfold ret at 1. cbn [messages].
  rewrite inputMessages_spec.
  fold (chosenInput ignoreHistory (messages conv) message). fold input.
  unfold bind at 1. unfold ret at 1. fold request.
  unfold bind at 1. rewrite Hrun3. fold chunks.
  unfold bind at 1. by rewrite Hrun4.
Qed.

Lemma startTitleTask_unused id (k1 : option (Chat * list Message) → Eng unit)
    (k2 : Eng unit) w :
  (∀ task w', k1 task w' = k2 w') →
  (do task <- startTitleTask id; k1 task) w =
  (do st3 <- getStore;
   match chats st3 !! id with
   | Some conv =>
       match chat conv with
       | Some c => if String.eqb (title c) "" then setPredictedTitle id else ret tt
       | None => ret tt
       end
   | None => throw TypeError
   end ;; k2) w.
Proof.
  intros Hk. unfold startTitleTask, bind, getStore.
  destruct (chats (store w) !! id) as [conv|]; [|done].
  destruct (chat conv) as [c|]; [|apply Hk].
  destruct (String.eqb (title c) ""); [|apply Hk].
  destruct (setPredictedTitle id w); [apply Hk|done].
Qed.

(** In calm weather [postWith] is [post]. *)
Lemma postWith_calm env id message ignoreHistory preProcessInput postProcessOutput
    extraSuffix stopSequences session w :
  postWith env calm id message ignoreHistory preProcessInput postProcessOutput
    extraSuffix stopSequences session w
  = post env id message ignoreHistory preProcessInput postProcessOutput
      extraSuffix stopSequences session w.
Proof.
  unfold postWith, post. apply bind_ext. intros st w0.
  destruct (modelIds st !! id) as [mid|]; [|done].
  destruct (negb (truthy (Some mid))); [done|].
  destruct (findModelByModelId env mid) as [model0|]; [|done].
  cbv zeta. do 7 (apply bind_ext; intros ? ?).
  unfold afterStream, raiseIf, calm. cbn [streamRaises]. rewrite bind_ret_l.
  do 2 (apply bind_ext; intros ? ?).
  unfold promoteAndSubmit. do 2 (apply bind_ext; intros ? ?).
  unfold createChatIfNotExistIn. cbn [createChatRejects].
  match goal with
  | |- bind ?m1 _ _ = bind ?m2 _ _ => change m1 with m2
  end.
  apply bind_ext. intros cid w7.
  apply startTitleTask_unused. intros task w8.
  unfold submitAndMerge. cbn [titleArrivesEarly createMessagesRejects].
  apply bind_ext. intros batch w9. by apply bind_ext.
Qed.

Lemma modelFor_cases model0 session :
  modelFor model0 session =
    match session with
    | Some s => if String.eqb s "" then model0 else mkModel (modelId model0) (Some s)
    | None => model0
    end.
Proof.
  unfold modelFor, truthy. destruct session as [s|]; [|done].
  by destruct (String.eqb s "").
Qed.

Lemma arrived_if wx (t : bool) (x : Chat * list Message) :
  arrived wx (if t then Some x else None)
  = if titleArrivesEarly wx && t then Some x else None.
Proof. unfold arrived. by destruct (titleArrivesEarly wx), t. Qed.

(** [post] when the stream ends and the chat is there or gets created:
    the outcome, as seen from the view. *)
Lemma postWith_submits env wx id message ignoreHistory
    preProcessInput postProcessOutput extraSuffix stopSequences session
    w mid model0 conv :
  modelIds (store w) !! id = Some mid →
  mid ≠ "" →
  findModelByModelId env mid = Some model0 →
  chats (store w) !! id = Some conv →
  streamRaises wx = false →
  (chat conv = None → createChatRejects wx = false) →
  ∃ w' model request chunks streamed finalChat early r,
    model = modelFor model0 session ∧
    request =
      omitUnusedMessageProperties
        (match preProcessInput with
         | Some f => f (chosenInput ignoreHistory (messages conv) message)
         | None => chosenInput ignoreHistory (messages conv) message
         end) ∧
    chunks = predictStream env model request extraSuffix stopSequences ∧
    streamed =
      messages conv ++
      [unrecorded User message; streamedReply model chunks postProcessOutput] ∧
    finalChat = default (createChat env (S (length (events w)))) (chat conv) ∧
    early = titleArrivesEarly wx && String.eqb (title finalChat) "" ∧
    r = assignIds env id (drawn w) streamed ∧
    postWith env wx id message ignoreHistory preProcessInput postProcessOutput
      extraSuffix stopSequences session w
      = (if createMessagesRejects wx then Thrown Rejected w' else Returned tt w') ∧
    viewIs id (store w)
      (mkConversation
         (Some (if early
                then mkChat (chatId finalChat)
                       (predictTitle env finalChat (omitUnusedMessageProperties streamed))
                else finalChat))
         (if createMessagesRejects wx then r.1.1
          else replaceAll (createMessages env (chatId finalChat) r.1.2) r.1.1))
      (<[id := false]> (loading (store w)))
      (length (snapshots w) + 4 + length chunks
       + (match postProcessOutput with Some _ => 1 | None => 0 end)
       + (match chat conv with Some _ => 0 | None => 1 end)
       + (if early then 1 else 0)
       + (if createMessagesRejects wx then 0 else 1))
      ((if early then [MutateListChat] else []) ++
       CreateMessages (chatId finalChat) r.1.2 ::
       (if String.eqb (title finalChat) ""
        then [PredictTitle (Some finalChat) (omitUnusedMessageProperties streamed)]
        else []) ++
       (match chat conv with Some _ => [] | None => [CreateChat] end) ++
       PredictStream model request extraSuffix stopSequences :: events w)
      r.2 w'.
Proof.
  intros Hmid Hne Hfind Hc Hraise Hchat.
  destruct (postWith_reaches_the_end_of_the_stream env id message ignoreHistory
              preProcessInput extraSuffix stopSequences session w mid model0 conv
              Hmid Hne Hfind Hc)
    as (w4 & model & request & chunks & Hmodel & Hreq & Hchunks & Hpost & Hv4).
  destruct (afterStream_submits env wx id model postProcessOutput _ _ _ _ _ _ _ _ w4
              Hv4 Hraise Hchat)
    as (w' & streamed & finalChat & task & r & Hs & Hf & Ht & Hr & Hrun & Hv).
  cbn [length] in Hf.
  assert (Hs' : streamed =
    messages conv ++
    [unrecorded User message; streamedReply model chunks postProcessOutput]).
  { rewrite Hs, snoc_two. unfold streamedReply. by destruct postProcessOutput. }
  rewrite arrived_if in Ht.
  exists w', model, request, chunks, streamed, finalChat,
    (titleArrivesEarly wx && String.eqb (title finalChat) ""), r.
  split; [done|]. split; [done|]. split; [done|]. split; [done|].
  split; [done|]. split; [done|]. split; [done|].
  split; [by rewrite Hpost|].
  destruct Hv as (Hchats & Hm & Hl & Hn & He & Hd).
  rewrite Ht in Hchats, Hn, He.
  repeat split; try done.
  - rewrite Hchats. by destruct (titleArrivesEarly wx && String.eqb (title finalChat) "").
  - by rewrite Hl, insert_insert_eq.
  - rewrite Hn.
    destruct (titleArrivesEarly wx && String.eqb (title finalChat) ""),
      postProcessOutput, (chat conv), (createMessagesRejects wx); lia.
  - rewrite He. by destruct (titleArrivesEarly wx && String.eqb (title finalChat) "").
Qed.

(** [post] when the stream raises. *)
Lemma postWith_raised env wx id message ignoreHistory
    preProcessInput postProcessOutput extraSuffix stopSequences session
    w mid model0 conv :
  modelIds (store w) !! id = Some mid →
  mid ≠ "" →
  findModelByModelId env mid = Some model0 →
  chats (store w) !! id = Some conv →
  streamRaises wx = true →
  ∃ w' model request chunks,
    model = modelFor model0 session ∧
    request =
      omitUnusedMessageProperties
        (match preProcessInput with
         | Some f => f (chosenInput ignoreHistory (messages conv) message)
         | None => chosenInput ignoreHistory (messages conv) message
         end) ∧
    chunks = predictStream env model request extraSuffix stopSequences ∧
    postWith env wx id message ignoreHistory preProcessInput postProcessOutput
      extraSuffix stopSequences session w = Thrown Rejected w' ∧
    viewIs id (store w)
      (mkConversation (chat conv)
         (messages conv ++
          [unrecorded User message; streamedReply model chunks None]))
      (<[id := true]> (loading (store w)))
      (length (snapshots w) + 2 + length chunks)
      (PredictStream model request extraSuffix stopSequences :: events w)
      (drawn w) w'.
Proof.
  intros Hmid Hne Hfind Hc Hraise.
  destruct (postWith_reaches_the_end_of_the_stream env id message ignoreHistory
              preProcessInput extraSuffix stopSequences session w mid model0 conv
              Hmid Hne Hfind Hc)
    as (w4 & model & request & chunks & Hmodel & Hreq & Hchunks & Hpost & Hv4).
  exists w4, model, request, chunks.
  split; [done|]. split; [done|]. split; [done|].
  split; [by rewrite Hpost, (afterStream_raised _ _ _ _ _ _ Hraise)|].
  rewrite <- snoc_two in Hv4.
  destruct Hv4 as (Hchats & Hm & Hl & Hn & He & Hd).
  repeat split; try done. rewrite Hn. lia.
Qed.

(** [post] when the view holds no chat and [createChat] is rejected. *)
Lemma postWith_chat_rejected env wx id message ignoreHistory
    preProcessInput postProcessOutput extraSuffix stopSequences session
    w mid model0 conv :
  modelIds (store w) !! id = Some mid →
  mid ≠ "" →
  findModelByModelId env mid = Some model0 →
  chats (store w) !! id = Some conv →
  streamRaises wx = false →
  chat conv = None →
  createChatRejects wx = true →
  ∃ w' model request chunks,
    model = modelFor model0 session ∧
    request =
      omitUnusedMessageProperties
        (match preProcessInput with
         | Some f => f (chosenInput ignoreHistory (messages conv) message)
         | None => chosenInput ignoreHistory (messages conv) message
         end) ∧
    chunks = predictStream env model request extraSuffix stopSequences ∧
    postWith env wx id message ignoreHistory preProcessInput postProcessOutput
      extraSuffix stopSequences session w = Thrown Rejected w' ∧
    viewIs id (store w)
      (mkConversation None
         (messages conv ++
          [unrecorded User message; streamedReply model chunks postProcessOutput]))
      (<[id := false]> (loading (store w)))
      (length (snapshots w) + 3 + length chunks
       + (match postProcessOutput with Some _ => 1 | None => 0 end))
      (CreateChat :: PredictStream model request extraSuffix stopSequences :: events w)
      (drawn w) w'.
Proof.
  intros Hmid Hne Hfind Hc Hraise Hnone Hrej.
  destruct (postWith_reaches_the_end_of_the_stream env id message ignoreHistory
              preProcessInput extraSuffix stopSequences session w mid model0 conv
              Hmid Hne Hfind Hc)
    as (w4 & model & request & chunks & Hmodel & Hreq & Hchunks & Hpost & Hv4).
  rewrite Hnone in Hv4.
  destruct (afterStream_chat_rejected env wx id model postProcessOutput _ _ _ _ _ _ _ w4
              Hv4 Hraise Hrej) as (w' & Hrun & Hv).
  exists w', model, request, chunks.
  split; [done|]. split; [done|]. split; [done|].
  split; [by rewrite Hpost|].
  destruct Hv as (Hchats & Hm & Hl & Hn & He & Hd).
  repeat split; try done.
  - rewrite Hchats, snoc_two. unfold streamedReply. by destruct postProcessOutput.
  - by rewrite Hl, insert_insert_eq.
  - rewrite Hn. destruct postProcessOutput; lia.
Qed.

(** ** [post], as its caller sees it *)

(** X16.  On a view with a state and a model the catalog knows, when the
    stream ends without raising and the chat is there or gets created:
    [post] returns, unless [createMessages] is rejected, in which case it
    throws what the request failed with.  Either way the view then holds
    the chat it held, or else the one the persistence service created,
    with the predicted title in it when the title was empty and the title
    task completed during the submission; and its former messages, the
    user message and the reply (the placeholder when no fragment came,
    else the accumulated content with the model as [llmType], through
    [postProcessOutput] when given), every one without identifier given
    the next fresh one and the tag of the view; these are merged with the
    records the service answered, or left as they are when it rejected
    the batch.  Two messages have been added and the loading flag is
    [false]. *)
Theorem post_records_the_exchange env wx id message ignoreHistory
    preProcessInput postProcessOutput extraSuffix stopSequences session
    w mid model0 conv :
  modelIds (store w) !! id = Some mid →
  mid ≠ "" →
  findModelByModelId env mid = Some model0 →
  chats (store w) !! id = Some conv →
  streamRaises wx = false →
  (chat conv = None → createChatRejects wx = false) →
  ∃ w' request reply finalChat heldChat identified batch,
    postWith env wx id message ignoreHistory preProcessInput postProcessOutput
      extraSuffix stopSequences session w
      = (if createMessagesRejects wx then Thrown Rejected w' else Returned tt w') ∧
    request =
      map (fun m => mkMessage (role m) (content m) None None None None None)
        (match preProcessInput with
         | Some f => f (chosenInput ignoreHistory (messages conv) message)
         | None => chosenInput ignoreHistory (messages conv) message
         end) ∧
    reply =
      streamedReply (modelFor model0 session)
        (predictStream env (modelFor model0 session) request extraSuffix stopSequences)
        postProcessOutput ∧
    finalChat = default (createChat env (S (length (events w)))) (chat conv) ∧
    heldChat =
      (if titleArrivesEarly wx && String.eqb (title finalChat) ""
       then mkChat (chatId finalChat)
              (predictTitle env finalChat
                 (map (fun m => mkMessage (role m) (content m) None None None None None)
                    (messages conv ++
                     [mkMessage User message None None None None None; reply])))
       else finalChat) ∧
    assignIds env id (drawn w)
      (messages conv ++ [mkMessage User message None None None None None; reply])
      = (identified, batch, drawn w') ∧
    chats (store w') !! id =
      Some (mkConversation (Some heldChat)
              (if createMessagesRejects wx then identified
               else replaceAll (createMessages env (chatId finalChat) batch)
                      identified)) ∧
    length (messagesOf id (store w')) = (length (messages conv) + 2)%nat ∧
    loading (store w') !! id = Some false.
Proof.
  intros Hmid Hne Hfind Hc Hraise Hchat.
  destruct (postWith_submits env wx id message ignoreHistory preProcessInput
              postProcessOutput extraSuffix stopSequences session w mid model0 conv
              Hmid Hne Hfind Hc Hraise Hchat)
    as (w' & model & request & chunks & streamed & finalChat & early & r &
        -> & -> & -> & -> & -> & -> & -> & Hrun & Hv).
  pose proof (viewIs_lookup _ _ _ _ _ _ _ _ Hv) as Hc'.
  destruct Hv as (_ & _ & Hl & _ & _ & Hd).
  eexists w', _, _, _, _, _, _. split; [exact Hrun|].
  split; [reflexivity|]. split; [reflexivity|]. split; [reflexivity|].
  split; [reflexivity|].
  split; [|split; [exact Hc'|split]].
  - rewrite Hd. by destruct (assignIds _ _ _ _) as [[? ?] ?].
  - rewrite (messagesOf_Some _ _ _ Hc'). cbn [messages].
    destruct (createMessagesRejects wx);
      rewrite ?replaceAll_length, assignIds_length, length_app; done.
  - by rewrite Hl, lookup_insert_eq.
Qed.

(** X17.  In any weather (the stream raising or not, the persistence
    service rejecting a request or not, the title task completing early
    or not) such a [post] stays in its view: every other view and the
    model selection are as before.  The loading flag of the view ends
    [false] when the stream has ended, and stays [true] when the stream
    raised; the hook reads the same, and no other flag changes.  A chat
    the view held keeps its identifier, and is kept as it is unless its
    title was empty and the title task completed before [post] was
    over. *)
Theorem post_stays_in_its_view env wx id message ignoreHistory
    preProcessInput postProcessOutput extraSuffix stopSequences session
    w mid model0 conv :
  modelIds (store w) !! id = Some mid →
  mid ≠ "" →
  findModelByModelId env mid = Some model0 →
  chats (store w) !! id = Some conv →
  ∃ w',
    w' = finalWorld
           (postWith env wx id message ignoreHistory preProcessInput
              postProcessOutput extraSuffix stopSequences session w) ∧
    (∀ k, k ≠ id → chats (store w') !! k = chats (store w) !! k) ∧
    modelIds (store w') = modelIds (store w) ∧
    loading (store w') = <[id := streamRaises wx]> (loading (store w)) ∧
    hookLoading id (store w') = streamRaises wx ∧
    (∀ k, k ≠ id → hookLoading k (store w') = hookLoading k (store w)) ∧
    (∀ c, chat conv = Some c →
       ∃ conv' c',
         chats (store w') !! id = Some conv' ∧ chat conv' = Some c' ∧
         chatId c' = chatId c ∧
         (title c ≠ "" ∨ titleArrivesEarly wx = false ∨ streamRaises wx = true →
          c' = c)).
Proof.
  intros Hmid Hne Hfind Hc.
  assert (∃ w' conv',
    w' = finalWorld
           (postWith env wx id message ignoreHistory preProcessInput
              postProcessOutput extraSuffix stopSequences session w) ∧
    chats (store w') = <[id := conv']> (chats (store w)) ∧
    modelIds (store w') = modelIds (store w) ∧
    loading (store w') = <[id := streamRaises wx]> (loading (store w)) ∧
    ∀ c, chat conv = Some c →
      ∃ c', chat conv' = Some c' ∧ chatId c' = chatId c ∧
            (title c ≠ "" ∨ titleArrivesEarly wx = false ∨ streamRaises wx = true →
             c' = c)) as (w' & conv' & Hw & Hchats & Hm & Hl & Hheld).
  { destruct (streamRaises wx) eqn:Hraise.
    - destruct (postWith_raised env wx id message ignoreHistory preProcessInput
                  postProcessOutput extraSuffix stopSequences session w mid model0 conv
                  Hmid Hne Hfind Hc Hraise)
        as (w' & model & request & chunks & _ & _ & _ & Hrun & Hv).
      destruct Hv as (Hchats & Hm & Hl & _).
      eexists w', _. split; [by rewrite Hrun|]. split; [exact Hchats|].
      split; [exact Hm|]. split; [exact Hl|].
      intros c Hchat. exists c. by rewrite Hchat.
    - destruct (chat conv) as [held|] eqn:Hheld.
      + destruct (postWith_submits env wx id message ignoreHistory preProcessInput
                    postProcessOutput extraSuffix stopSequences session w mid model0
                    conv Hmid Hne Hfind Hc Hraise)
          as (w' & model & request & chunks & streamed & finalChat & early & r &
              _ & _ & _ & _ & HfinalChat & Hearly & _ & Hrun & Hv);
          [by rewrite Hheld|].
        destruct Hv as (Hchats & Hm & Hl & _).
        eexists w', _. split; [by destruct (createMessagesRejects wx); rewrite Hrun|].
        split; [exact Hchats|]. split; [exact Hm|]. split; [exact Hl|].
        intros c [= <-]. rewrite Hheld in HfinalChat. cbn in HfinalChat. subst finalChat.
        eexists. split; [reflexivity|]. split; [by destruct early|].
        intros Hkeep. subst early.
        destruct (titleArrivesEarly wx); [|done].
        destruct (String.eqb_spec (title held) "") as [E|_]; [|done].
        by destruct Hkeep as [?|[?|?]].
      + destruct (createChatRejects wx) eqn:Hrej.
        * destruct (postWith_chat_rejected env wx id message ignoreHistory
                      preProcessInput postProcessOutput extraSuffix stopSequences
                      session w mid model0 conv Hmid Hne Hfind Hc Hraise Hheld Hrej)
            as (w' & model & request & chunks & _ & _ & _ & Hrun & Hv).
          destruct Hv as (Hchats & Hm & Hl & _).
          eexists w', _. split; [by rewrite Hrun|]. split; [exact Hchats|].
          split; [exact Hm|]. split; [exact Hl|]. by intros c.
        * destruct (postWith_submits env wx id message ignoreHistory preProcessInput
                      postProcessOutput extraSuffix stopSequences session w mid model0
                      conv Hmid Hne Hfind Hc Hraise)
            as (w' & model & request & chunks & streamed & finalChat & early & r &
                _ & _ & _ & _ & _ & _ & _ & Hrun & Hv);
            [done|].
          destruct Hv as (Hchats & Hm & Hl & _).
          eexists w', _. split; [by destruct (createMessagesRejects wx); rewrite Hrun|].
          split; [exact Hchats|]. split; [exact Hm|]. split; [exact Hl|]. by intros c. }
  exists w'. split; [exact Hw|].
  split; [by intros k Hk; rewrite Hchats, lookup_insert_ne|].
  split; [exact Hm|]. split; [exact Hl|].
  split; [unfold hookLoading; by rewrite Hl, lookup_insert_eq|].
  split; [intros k Hk; unfold hookLoading; by rewrite Hl, lookup_insert_ne|].
  intros c Hchat. destruct (Hheld c Hchat) as (c' & Hc' & Hid & Hkeep).
  exists conv', c'. split; [by rewrite Hchats, lookup_insert_eq|]. by split.
Qed.

(** X18.  The calls such a [post] makes when the stream ends without
    raising and the chat is there or gets created, in order: the request
    for the stream; the creation of a chat, exactly when the view held
    none; the request for a title, exactly when the chat of the view has
    the empty title, with the chat and the whole exchange reduced to role
    and content; the submission of the batch; and, when the title task
    completes during that submission, the refresh of the list of chats.
    The store is replaced four times, once more per fragment, once more
    when there is a post-processing function, once more for the creation
    of the chat, once more for the title when it arrives early, and once
    more for the merge unless the submission is rejected. *)
Theorem post_calls_in_order env wx id message ignoreHistory
    preProcessInput postProcessOutput extraSuffix stopSequences session
    w mid model0 conv :
  modelIds (store w) !! id = Some mid →
  mid ≠ "" →
  findModelByModelId env mid = Some model0 →
  chats (store w) !! id = Some conv →
  streamRaises wx = false →
  (chat conv = None → createChatRejects wx = false) →
  ∃ w' model request chunks streamed finalChat batch,
    w' = finalWorld
           (postWith env wx id message ignoreHistory preProcessInput
              postProcessOutput extraSuffix stopSequences session w) ∧
    model =
      match session with
      | Some s => if String.eqb s "" then model0 else mkModel (modelId model0) (Some s)
      | None => model0
      end ∧
    request =
      map (fun m => mkMessage (role m) (content m) None None None None None)
        (match preProcessInput with
         | Some f => f (chosenInput ignoreHistory (messages conv) message)
         | None => chosenInput ignoreHistory (messages conv) message
         end) ∧
    chunks = predictStream env model request extraSuffix stopSequences ∧
    streamed =
      messages conv ++
      [mkMessage User message None None None None None;
       streamedReply model chunks postProcessOutput] ∧
    finalChat = default (createChat env (S (length (events w)))) (chat conv) ∧
    batch = (assignIds env id (drawn w) streamed).1.2 ∧
    events w' =
      (if titleArrivesEarly wx && String.eqb (title finalChat) ""
       then [MutateListChat] else []) ++
      CreateMessages (chatId finalChat) batch ::
      (if String.eqb (title finalChat) ""
       then [PredictTitle (Some finalChat)
               (map (fun m => mkMessage (role m) (content m) None None None None None)
                  streamed)]
       else []) ++
      (match chat conv with Some _ => [] | None => [CreateChat] end) ++
      PredictStream model request extraSuffix stopSequences :: events w ∧
    length (snapshots w') =
      (length (snapshots w) + 4 + length chunks
       + (match postProcessOutput with Some _ => 1 | None => 0 end)
       + (match chat conv with Some _ => 0 | None => 1 end)
       + (if titleArrivesEarly wx && String.eqb (title finalChat) "" then 1 else 0)
       + (if createMessagesRejects wx then 0 else 1))%nat.
Proof.
  intros Hmid Hne Hfind Hc Hraise Hchat.
  destruct (postWith_submits env wx id message ignoreHistory preProcessInput
              postProcessOutput extraSuffix stopSequences session w mid model0 conv
              Hmid Hne Hfind Hc Hraise Hchat)
    as (w' & model & request & chunks & streamed & finalChat & early & r &
        Hmodel & Hreq & Hchunks & Hstreamed & HfinalChat & Hearly & Hr & Hrun & Hv).
  destruct Hv as (_ & _ & _ & Hn & He & _).
  exists w', model, request, chunks, streamed, finalChat, r.1.2.
  split; [by destruct (createMessagesRejects wx); rewrite Hrun|].
  split; [rewrite Hmodel; apply modelFor_cases|]. split; [exact Hreq|].
  split; [exact Hchunks|]. split; [exact Hstreamed|].
  split; [exact HfinalChat|]. split; [by rewrite Hr|].
  rewrite <- Hearly. by split.
Qed.

Lemma lacking_app ms ms' : lacking (ms ++ ms') = lacking ms ++ lacking ms'.
Proof. unfold lacking. apply filter_app. Qed.

(** X11.  When the stream ends without raising and the chat is there or
    gets created, such a [post] submits the turn, whether or not the
    service then accepts it and whenever the title task completes: the
    batch handed to the persistence service ends with the user message
    and the reply, with two consecutive fresh identifiers and the tag of
    the view, behind the earlier messages that had no identifier yet. *)
Theorem post_submits_the_turn env wx id message ignoreHistory
    preProcessInput postProcessOutput extraSuffix stopSequences session
    w mid model0 conv :
  modelIds (store w) !! id = Some mid →
  mid ≠ "" →
  findModelByModelId env mid = Some model0 →
  chats (store w) !! id = Some conv →
  streamRaises wx = false →
  (chat conv = None → createChatRejects wx = false) →
  ∃ w' cid earlier request reply k,
    w' = finalWorld
           (postWith env wx id message ignoreHistory preProcessInput
              postProcessOutput extraSuffix stopSequences session w) ∧
    cid = chatId (default (createChat env (S (length (events w)))) (chat conv)) ∧
    request =
      map (fun m => mkMessage (role m) (content m) None None None None None)
        (match preProcessInput with
         | Some f => f (chosenInput ignoreHistory (messages conv) message)
         | None => chosenInput ignoreHistory (messages conv) message
         end) ∧
    reply =
      streamedReply (modelFor model0 session)
        (predictStream env (modelFor model0 session) request extraSuffix stopSequences)
        postProcessOutput ∧
    k = (drawn w + length (lacking (messages conv)))%nat ∧
    earlier =
      zip_with (identify env id) (seq (drawn w) (length (lacking (messages conv))))
        (lacking (messages conv)) ∧
    role reply = Assistant ∧ messageId reply = None ∧
    CreateMessages cid
      (earlier ++
       [mkMessage User message (Some (uuid env k)) (Some (usecaseTag id))
          None None None;
        mkMessage Assistant (content reply) (Some (uuid env (S k)))
          (Some (usecaseTag id)) (llmType reply) None None]) ∈ events w' ∧
    drawn w' = S (S k).
Proof.
  intros Hmid Hne Hfind Hc Hraise Hchat.
  destruct (postWith_submits env wx id message ignoreHistory preProcessInput
              postProcessOutput extraSuffix stopSequences session w mid model0 conv
              Hmid Hne Hfind Hc Hraise Hchat)
    as (w' & model & request & chunks & streamed & finalChat & early & r &
        -> & -> & -> & Hstreamed & HfinalChat & _ & Hr & Hrun & Hv).
  destruct Hv as (_ & _ & _ & _ & He & Hd).
  set (reply := streamedReply _ _ postProcessOutput) in *.
  assert (Hreply : role reply = Assistant ∧ messageId reply = None ∧
                   createdDate reply = None ∧ feedback reply = None).
  { subst reply. unfold streamedReply.
    by destruct postProcessOutput, (predictStream _ _ _ _ _). }
  destruct Hreply as (Hrole & Hid & Hdate & Hfb).
  destruct (assignIds_batch_spec env id streamed (drawn w)) as [Hb Hn].
  assert (Hl : lacking streamed =
               lacking (messages conv) ++ [unrecorded User message; reply]).
  { rewrite Hstreamed, lacking_app. f_equal. unfold lacking.
    rewrite filter_cons_True by done. rewrite filter_cons_True by (by rewrite Hid).
    done. }
  rewrite Hl, length_app in Hb, Hn. cbn [length] in Hb, Hn.
  rewrite seq_app, zip_with_app in Hb by (by rewrite length_seq).
  eexists w', (chatId finalChat), _, _, reply, _.
  split; [by destruct (createMessagesRejects wx); rewrite Hrun|].
  split; [by rewrite HfinalChat|].
  split; [reflexivity|]. split; [reflexivity|].
  split; [reflexivity|]. split; [reflexivity|].
  split; [exact Hrole|]. split; [exact Hid|]. split.
  - rewrite He, Hr, Hb. apply elem_of_app. right. apply elem_of_cons. left.
    cbn [seq zip_with]. unfold identify. cbn [role content llmType createdDate
      feedback unrecorded]. by rewrite Hrole, Hdate, Hfb.
  - rewrite Hd, Hr, Hn. lia.
Qed.

(** X25.  When the stream raises, such a [post] throws what the stream
    raised, at once: the loading flag of the view is [true] and stays so;
    the view holds its former messages, the user message and the reply as
    far as it came (the placeholder when no fragment came), not
    post-processed and without identifiers; no chat has been created,
    nothing has been submitted to the persistence service and no title
    has been asked for. *)
Theorem post_when_the_stream_raises env wx id message ignoreHistory
    preProcessInput postProcessOutput extraSuffix stopSequences session
    w mid model0 conv :
  modelIds (store w) !! id = Some mid →
  mid ≠ "" →
  findModelByModelId env mid = Some model0 →
  chats (store w) !! id = Some conv →
  streamRaises wx = true →
  ∃ w' model request chunks,
    postWith env wx id message ignoreHistory preProcessInput postProcessOutput
      extraSuffix stopSequences session w = Thrown Rejected w' ∧
    model =
      match session with
      | Some s => if String.eqb s "" then model0 else mkModel (modelId model0) (Some s)
      | None => model0
      end ∧
    request =
      map (fun m => mkMessage (role m) (content m) None None None None None)
        (match preProcessInput with
         | Some f => f (chosenInput ignoreHistory (messages conv) message)
         | None => chosenInput ignoreHistory (messages conv) message
         end) ∧
    chunks = predictStream env model request extraSuffix stopSequences ∧
    chats (store w') !! id =
      Some (mkConversation (chat conv)
              (messages conv ++
               [mkMessage User message None None None None None;
                match chunks with
                | [] => mkMessage Assistant "" None None None None None
                | _ =>
                    mkMessage Assistant (accumulate "" chunks) None None
                      (Some (modelId model)) None None
                end])) ∧
    (∀ k, k ≠ id → chats (store w') !! k = chats (store w) !! k) ∧
    modelIds (store w') = modelIds (store w) ∧
    loading (store w') = <[id := true]> (loading (store w)) ∧
    hookLoading id (store w') = true ∧
    events w' = PredictStream model request extraSuffix stopSequences :: events w ∧
    drawn w' = drawn w ∧
    length (snapshots w') = (length (snapshots w) + 2 + length chunks)%nat.
Proof.
  intros Hmid Hne Hfind Hc Hraise.
  destruct (postWith_raised env wx id message ignoreHistory preProcessInput
              postProcessOutput extraSuffix stopSequences session w mid model0 conv
              Hmid Hne Hfind Hc Hraise)
    as (w' & model & request & chunks & Hmodel & Hreq & Hchunks & Hrun & Hv).
  pose proof (viewIs_lookup _ _ _ _ _ _ _ _ Hv) as Hc'.
  destruct Hv as (Hchats & Hm & Hl & Hn & He & Hd).
  exists w', model, request, chunks.
  split; [exact Hrun|]. split; [rewrite Hmodel; apply modelFor_cases|].
  split; [exact Hreq|]. split; [exact Hchunks|].
  split; [rewrite Hc'; unfold streamedReply; by destruct chunks|].
  split; [by intros k Hk; rewrite Hchats, lookup_insert_ne|].
  split; [exact Hm|]. split; [exact Hl|].
  split; [unfold hookLoading; by rewrite Hl, lookup_insert_eq|].
  by repeat split.
Qed.

Lemma omitUnused_bare ms :
  Forall (fun m => m = unrecorded (role m) (content m))
    (omitUnusedMessageProperties ms).
Proof. unfold omitUnusedMessageProperties. apply Forall_fmap, Forall_true. done. Qed.

(** X19.  Whatever [preProcessInput] returns, what such a [post] hands to
    inference is role and content only: no identifier, tag, model,
    timestamp or feedback of a message leaves the store that way; and the
    request is as long as the pre-processed input. *)
Theorem post_sends_role_and_content_only env id message ignoreHistory
    preProcessInput postProcessOutput extraSuffix stopSequences session
    w mid model0 conv :
  modelIds (store w) !! id = Some mid →
  mid ≠ "" →
  findModelByModelId env mid = Some model0 →
  chats (store w) !! id = Some conv →
  ∃ w' model request,
    post env id message ignoreHistory preProcessInput postProcessOutput
      extraSuffix stopSequences session w = Returned tt w' ∧
    model = modelFor model0 session ∧
    request =
      omitUnusedMessageProperties
        (match preProcessInput with
         | Some f => f (chosenInput ignoreHistory (messages conv) message)
         | None => chosenInput ignoreHistory (messages conv) message
         end) ∧
    PredictStream model request extraSuffix stopSequences ∈ events w' ∧
    (∀ e, e ∈ events w' → isPredictStream e = true →
       e = PredictStream model request extraSuffix stopSequences ∨ e ∈ events w) ∧
    Forall (fun m => m = unrecorded (role m) (content m)) request ∧
    length request =
      length (match preProcessInput with
              | Some f => f (chosenInput ignoreHistory (messages conv) message)
              | None => chosenInput ignoreHistory (messages conv) message
              end).
Proof.
  intros Hmid Hne Hfind Hc.
  destruct (post_full env id message ignoreHistory preProcessInput postProcessOutput
              extraSuffix stopSequences session w mid model0 conv Hmid Hne Hfind Hc)
    as (w' & model & request & chunks & streamed & finalChat & r &
        Hmodel & Hreq & _ & _ & _ & _ & Hrun & Hv).
  destruct Hv as (_ & _ & _ & _ & He & _).
  exists w', model, request. split; [exact Hrun|].
  split; [exact Hmodel|]. split; [exact Hreq|]. rewrite He. split; [|split].
  - right. apply elem_of_app. right. apply elem_of_app. right. by left.
  - intros e [->|Hin]%elem_of_cons Hp; [done|].
    apply elem_of_app in Hin as [Hin|Hin].
    { destruct (String.eqb (title finalChat) "");
        [apply list_elem_of_singleton in Hin as ->; done|by apply elem_of_nil in Hin]. }
    apply elem_of_app in Hin as [Hin|Hin].
    { destruct (chat conv);
        [by apply elem_of_nil in Hin|apply list_elem_of_singleton in Hin as ->; done]. }
    apply elem_of_cons in Hin as [->|Hin]; [by left|by right].
  - rewrite Hreq. split; [apply omitUnused_bare|].
    unfold omitUnusedMessageProperties. apply length_map.
Qed.

(** X20.  [post] on a view the store has no state of, with a model the
    catalog knows, throws: the loading flag of the view has been set and
    stays set, nothing has been asked of any collaborator, and no view has
    been created. *)
Theorem post_without_state_leaves_loading env id message ignoreHistory
    preProcessInput postProcessOutput extraSuffix stopSequences session
    w mid model0 :
  modelIds (store w) !! id = Some mid →
  mid ≠ "" →
  findModelByModelId env mid = Some model0 →
  chats (store w) !! id = None →
  ∃ w',
    post env id message ignoreHistory preProcessInput postProcessOutput
      extraSuffix stopSequences session w = Thrown TypeError w' ∧
    hookLoading id (store w') = true ∧
    loading (store w') = <[id := true]> (loading (store w)) ∧
    chats (store w') = chats (store w) ∧
    modelIds (store w') = modelIds (store w) ∧
    events w' = events w ∧
    snapshots w' = store w :: snapshots w.
Proof.
  intros Hmid Hne Hfind Hc.
  unfold post. unfold bind at 1. unfold getStore at 1. rewrite Hmid.
  rewrite (truthy_Some_nonempty mid Hne). cbn [negb]. rewrite Hfind.
  unfold bind at 1. unfold setLoading at 1, set at 1.
  unfold bind at 1. unfold set at 1, onConversation at 1. cbn [store chats].
  rewrite Hc. eexists. split; [reflexivity|]. cbn [store loading chats modelIds events snapshots].
  repeat split. unfold hookLoading. cbn. by rewrite lookup_insert_eq.
Qed.

(** ** What the hook shows *)

(** X24.  For a view the store has no state of and whose key is no
    property name of [Object.prototype], the first effect of the hook
    creates the blank state only when no chat identifier is given; either
    way the hook then shows no message and reports the view as empty, also
    when the store holds the system message; the loading flag it reports
    is the one from before.  For such a name the effect creates nothing,
    the raw messages are empty, and deriving the shown messages throws. *)
Theorem hook_of_a_new_view env id cid w :
  chats (store w) !! id = None →
  ∃ w',
    hookMount env id cid w = Returned tt w' ∧
    if inherited id then
      w' = w ∧
      hookRawMessages id (store w') = [] ∧
      hookMessages id (store w') = None ∧
      hookIsEmpty id (store w') = None
    else
      hookRawMessages id (store w') =
        (if truthy cid then []
         else [mkMessage System (systemContext env (getModelId id (store w)) id)
                 None None None None None]) ∧
      hookMessages id (store w') = Some [] ∧
      hookIsEmpty id (store w') = Some true ∧
      hookLoading id (store w') = hookLoading id (store w).
Proof.
  intros Hc. unfold hookMount, hookRawMessages, hookIsEmpty, hookMessages.
  destruct (inherited id) eqn:Hi.
  - exists w. split.
    + destruct (truthy cid); [done|]. unfold init, bind, getStore. by rewrite Hc, Hi.
    + by rewrite Hc.
  - destruct (truthy cid).
    + exists w. split; [done|]. by rewrite Hc.
    + eexists. split.
      { unfold init, bind, getStore. rewrite Hc, Hi.
        apply initChatWithSystemContext_run, inherited_proto, Hi. }
      cbn [store withChats chats]. rewrite lookup_insert_eq.
      unfold blankConversation. cbn [messages].
      split; [done|]. rewrite filter_cons_False by (by intros H; apply H).
      by repeat split.
Qed.

(** ** Concrete runs *)

Lemma post_sends_role_and_content_only_witness :
  ∃ w' model request,
    post sampleEnv "/chat" "Hello" false (@None (list Message → list Message)) (@None (string → string))
      (@None string) (@None (list string)) (@None string) freshChat = Returned tt w' ∧
    model = modelFor modelA (@None string) ∧
    request =
      omitUnusedMessageProperties
        (match (@None (list Message → list Message)) with
         | Some f => f (chosenInput false (messages freshView) "Hello")
         | None => chosenInput false (messages freshView) "Hello"
         end) ∧
    PredictStream model request (@None string) (@None (list string)) ∈ events w' ∧
    (∀ e, e ∈ events w' → isPredictStream e = true →
       e = PredictStream model request (@None string) (@None (list string)) ∨ e ∈ events freshChat) ∧
    Forall (fun m => m = unrecorded (role m) (content m)) request ∧
    length request =
      length (match (@None (list Message → list Message)) with
              | Some f => f (chosenInput false (messages freshView) "Hello")
              | None => chosenInput false (messages freshView) "Hello"
              end).
Proof.
  apply (post_sends_role_and_content_only sampleEnv "/chat" "Hello" false None None None None None freshChat "modelA" modelA).
  - vm_compute. reflexivity.
  - discriminate.
  - reflexivity.
  - vm_compute. reflexivity.
Defined.

Lemma post_without_state_leaves_loading_witness :
  ∃ w',
    post sampleEnv "/chat/chat-1" "Hello" false (@None (list Message → list Message)) (@None (string → string))
      (@None string) (@None (list string)) (@None string) loadingChat = Thrown TypeError w' ∧
    hookLoading "/chat/chat-1" (store w') = true ∧
    loading (store w') = <["/chat/chat-1" := true]> (loading (store loadingChat)) ∧
    chats (store w') = chats (store loadingChat) ∧
    modelIds (store w') = modelIds (store loadingChat) ∧
    events w' = events loadingChat ∧
    snapshots w' = store loadingChat :: snapshots loadingChat.
Proof.
  apply (post_without_state_leaves_loading sampleEnv "/chat/chat-1" "Hello" false
           None None None None None loadingChat "modelA" modelA).
  - vm_compute. reflexivity.
  - discriminate.
  - reflexivity.
  - vm_compute. reflexivity.
Defined.

Lemma push_then_pop_witness :
  ∃ w',
    (pushMessage "/chat" User "again" ;; popMessage "/chat") streamingChat = Returned (Some (unrecorded User "again")) w' ∧
    store w' = store streamingChat ∧
    length (snapshots w') = S (S (length (snapshots streamingChat))) ∧
    events w' = events streamingChat ∧
    runOps sampleEnv "/chat" [OpPush User "again"; OpPop] streamingChat = Returned tt w'.
Proof.
  apply (push_then_pop sampleEnv "/chat" User "again" streamingChat
           streamingView).
  vm_compute. reflexivity.
Defined.

Lemma updateSystemContext_then_read_witness :
  ∃ w',
    updateSystemContext "/chat" "Be brief." streamingChat = Returned tt w' ∧
    chats (store w') !! "/chat" =
      Some (mkConversation (chat streamingView) ((@nil Message) ++ withContent "Be brief." (unrecorded System "You are an assistant on /chat") :: [unrecorded User "Hello"; unrecorded Assistant ""])) ∧
    (∀ k, k ≠ "/chat" → chats (store w') !! k = chats (store streamingChat) !! k) ∧
    getCurrentSystemContext "/chat" w' = Returned "Be brief." w'.
Proof.
  apply (updateSystemContext_then_read "/chat" "Be brief." streamingChat
           streamingView [] (unrecorded System "You are an assistant on /chat")
           [unrecorded User "Hello"; unrecorded Assistant ""]).
  - vm_compute. reflexivity.
  - reflexivity.
  - reflexivity.
  - constructor.
Defined.

Lemma updateSystemContext_without_system_message_witness :
  ∃ w',
    updateSystemContext "/chat" "Be brief." restoredEmptyChat = Returned tt w' ∧
    store w' = store restoredEmptyChat ∧
    snapshots w' = store restoredEmptyChat :: snapshots restoredEmptyChat ∧
    getCurrentSystemContext "/chat" w' = Thrown TypeError w'.
Proof.
  apply (updateSystemContext_without_system_message "/chat" "Be brief."
           restoredEmptyChat emptyView).
  - vm_compute. reflexivity.
  - constructor.
Defined.

Lemma late_title_lands_on_the_current_chat_witness :
  ∃ w',
    titleTaskCompletes sampleEnv "/chat" (mkChat "chat-0" "") [unrecorded User "Hi"] boundChat = Returned tt w' ∧
    chats (store w') !! "/chat" =
      Some (mkConversation
              ((fun held => mkChat (chatId held) (predictTitle sampleEnv (mkChat "chat-0" "") [unrecorded User "Hi"]))
                 <$> chat boundView)
              (messages boundView)) ∧
    (∀ k, k ≠ "/chat" → chats (store w') !! k = chats (store boundChat) !! k) ∧
    events w' = MutateListChat :: events boundChat.
Proof.
  apply (late_title_lands_on_the_current_chat sampleEnv "/chat" (mkChat "chat-0" "")
           [unrecorded User "Hi"] boundChat boundView).
  vm_compute. reflexivity.
Defined.

Lemma addMessageIds_batch_witness :
  ∃ w' batch,
    addMessageIdsToUnrecordedMessages sampleEnv "/chat" streamingChat = Returned batch w' ∧
    batch =
      zip_with (identify sampleEnv "/chat")
        (seq (drawn streamingChat) (length (lacking (messages streamingView)))) (lacking (messages streamingView)) ∧
    drawn w' = (drawn streamingChat + length (lacking (messages streamingView)))%nat ∧
    map messageId batch =
      map (fun k => Some (uuid sampleEnv k))
        (seq (drawn streamingChat) (length (lacking (messages streamingView)))) ∧
    ((∀ a b, uuid sampleEnv a = uuid sampleEnv b → a = b) → NoDup (map messageId batch)) ∧
    events w' = events streamingChat.
Proof.
  apply (addMessageIds_batch sampleEnv "/chat" streamingChat streamingView).
  vm_compute. reflexivity.
Defined.

Lemma replaceMessages_any_order_witness :
  replaceMessages "/chat" [recordHello; recordHi] restoredChat
  = replaceMessages "/chat" [recordHi; recordHello] restoredChat.
Proof.
  apply (replaceMessages_any_order "/chat").
  - apply NoDup_cons. split; [|apply NoDup_singleton].
    intros H. apply list_elem_of_singleton in H. discriminate.
  - constructor.
Defined.

Lemma sendFeedback_replaces_one_message_witness :
  ∃ w' rec,
    rec = updateFeedback sampleEnv (chatId (mkChat "chat-1" "Greeting")) "t2" "good" ∧
    sendFeedback sampleEnv "/chat" "t2" "good" boundChat = Returned tt w' ∧
    events w' = UpdateFeedback (chatId (mkChat "chat-1" "Greeting")) "t2" "good" :: events boundChat ∧
    (∃ conv', chats (store w') !! "/chat" = Some conv' ∧ chat conv' = Some (mkChat "chat-1" "Greeting") ∧
              messages conv' = messagesOf "/chat" (store w')) ∧
    length (messagesOf "/chat" (store w')) = length (messages boundView) ∧
    (∀ j m, messages boundView !! j = Some m → messageId m ≠ messageId rec →
            messagesOf "/chat" (store w') !! j = Some m) ∧
    match indexOf (messageId rec) (map messageId (messages boundView)) with
    | Some p =>
        messagesOf "/chat" (store w') = <[p := rec]> (messages boundView) ∧
        ∀ j m, (j < p)%nat → messages boundView !! j = Some m →
               messageId m ≠ messageId rec
    | None => messagesOf "/chat" (store w') = messages boundView
    end.
Proof.
  apply (sendFeedback_replaces_one_message sampleEnv "/chat" "t2" "good" boundChat
           boundView (mkChat "chat-1" "Greeting")).
  - vm_compute. reflexivity.
  - reflexivity.
Defined.

Lemma plain_fragments_are_concatenated_witness :
  ∃ w',
    streamLoop "/chat" modelA ["Hi"; " there"] streamingChat = Returned tt w' ∧
    trailingContent "/chat" (store w') = Some (Str.joinAll ["Hi"; " there"]) ∧
    accumulate "" ["Hi"; " there"] = Str.joinAll ["Hi"; " there"].
Proof.
  apply (plain_fragments_are_concatenated "/chat" modelA ["Hi"; " there"] streamingChat
           streamingView
           [unrecorded System "You are an assistant on /chat"; unrecorded User "Hello"]).
  - vm_compute. reflexivity.
  - reflexivity.
  - repeat constructor.
Defined.

Lemma usecaseTag_of_subpaths_witness :
  usecaseTag ("/" +:+ "chat" +:+ "/sub/page") = "/" +:+ "chat".
Proof.
  apply (usecaseTag_of_subpaths "/" "chat" "/sub/page").
  - reflexivity.
  - reflexivity.
  - discriminate.
  - right. eexists. reflexivity.
Defined.

Lemma hook_of_a_new_view_witness :
  ∃ w',
    hookMount sampleEnv "/chat" None loadingChat = Returned tt w' ∧
    if inherited "/chat" then
      w' = loadingChat ∧
      hookRawMessages "/chat" (store w') = [] ∧
      hookMessages "/chat" (store w') = None ∧
      hookIsEmpty "/chat" (store w') = None
    else
      hookRawMessages "/chat" (store w') =
        [mkMessage System "You are an assistant on /chat" None None None None None] ∧
      hookMessages "/chat" (store w') = Some [] ∧
      hookIsEmpty "/chat" (store w') = Some true ∧
      hookLoading "/chat" (store w') = hookLoading "/chat" (store loadingChat).
Proof.
  apply (hook_of_a_new_view sampleEnv "/chat" None loadingChat).
  vm_compute. reflexivity.
Defined.

Example hook_of_an_inherited_name :
  hookMount sampleEnv "toString" None initialWorld = Returned tt initialWorld ∧
  hookMessages "toString" emptyStore = None ∧
  hookMessages "/chat" emptyStore = Some [].
Proof. by repeat split. Qed.

Lemma post_records_the_exchange_witness :
  ∃ w' request reply finalChat heldChat identified batch,
    postWith sampleEnv (mkWeather false false false true) "/chat" "Hello" false (@None (list Message → list Message)) (@None (string → string))
      (@None string) (@None (list string)) (@None string) freshChat
      = (if createMessagesRejects (mkWeather false false false true) then Thrown Rejected w' else Returned tt w') ∧
    request =
      map (fun m => mkMessage (role m) (content m) None None None None None)
        (match (@None (list Message → list Message)) with
         | Some f => f (chosenInput false (messages freshView) "Hello")
         | None => chosenInput false (messages freshView) "Hello"
         end) ∧
    reply =
      streamedReply (modelFor modelA (@None string))
        (predictStream sampleEnv (modelFor modelA (@None string)) request (@None string) (@None (list string)))
        (@None (string → string)) ∧
    finalChat = default (createChat sampleEnv (S (length (events freshChat)))) (chat freshView) ∧
    heldChat =
      (if titleArrivesEarly (mkWeather false false false true) && String.eqb (title finalChat) ""
       then mkChat (chatId finalChat)
              (predictTitle sampleEnv finalChat
                 (map (fun m => mkMessage (role m) (content m) None None None None None)
                    (messages freshView ++
                     [mkMessage User "Hello" None None None None None; reply])))
       else finalChat) ∧
    assignIds sampleEnv "/chat" (drawn freshChat)
      (messages freshView ++ [mkMessage User "Hello" None None None None None; reply])
      = (identified, batch, drawn w') ∧
    chats (store w') !! "/chat" =
      Some (mkConversation (Some heldChat)
              (if createMessagesRejects (mkWeather false false false true) then identified
               else replaceAll (createMessages sampleEnv (chatId finalChat) batch)
                      identified)) ∧
    length (messagesOf "/chat" (store w')) = (length (messages freshView) + 2)%nat ∧
    loading (store w') !! "/chat" = Some false.
Proof.
  apply (post_records_the_exchange sampleEnv (mkWeather false false false true) "/chat" "Hello" false None None None None None freshChat "modelA" modelA freshView).
  - vm_compute. reflexivity.
  - discriminate.
  - reflexivity.
  - vm_compute. reflexivity.
  - reflexivity.
  - intros _. reflexivity.
Defined.

Lemma post_stays_in_its_view_witness :
  ∃ w',
    w' = finalWorld
           (postWith sampleEnv (mkWeather true false false false) "/chat" "Hello" false (@None (list Message → list Message))
              (@None (string → string)) (@None string) (@None (list string)) (@None string) freshChat) ∧
    (∀ k, k ≠ "/chat" → chats (store w') !! k = chats (store freshChat) !! k) ∧
    modelIds (store w') = modelIds (store freshChat) ∧
    loading (store w') = <["/chat" := streamRaises (mkWeather true false false false)]> (loading (store freshChat)) ∧
    hookLoading "/chat" (store w') = streamRaises (mkWeather true false false false) ∧
    (∀ k, k ≠ "/chat" → hookLoading k (store w') = hookLoading k (store freshChat)) ∧
    (∀ c, chat freshView = Some c →
       ∃ conv' c',
         chats (store w') !! "/chat" = Some conv' ∧ chat conv' = Some c' ∧
         chatId c' = chatId c ∧
         (title c ≠ "" ∨ titleArrivesEarly (mkWeather true false false false) = false ∨ streamRaises (mkWeather true false false false) = true →
          c' = c)).
Proof.
  apply (post_stays_in_its_view sampleEnv (mkWeather true false false false) "/chat" "Hello" false None None None None None freshChat "modelA" modelA freshView).
  - vm_compute. reflexivity.
  - discriminate.
  - reflexivity.
  - vm_compute. reflexivity.
Defined.

Lemma post_calls_in_order_witness :
  ∃ w' model request chunks streamed finalChat batch,
    w' = finalWorld
           (postWith sampleEnv (mkWeather false false false true) "/chat" "Hello" false (@None (list Message → list Message))
              (@None (string → string)) (@None string) (@None (list string)) (@None string) freshChat) ∧
    model =
      match (@None string) with
      | Some s => if String.eqb s "" then modelA else mkModel (modelId modelA) (Some s)
      | None => modelA
      end ∧
    request =
      map (fun m => mkMessage (role m) (content m) None None None None None)
        (match (@None (list Message → list Message)) with
         | Some f => f (chosenInput false (messages freshView) "Hello")
         | None => chosenInput false (messages freshView) "Hello"
         end) ∧
    chunks = predictStream sampleEnv model request (@None string) (@None (list string)) ∧
    streamed =
      messages freshView ++
      [mkMessage User "Hello" None None None None None;
       streamedReply model chunks (@None (string → string))] ∧
    finalChat = default (createChat sampleEnv (S (length (events freshChat)))) (chat freshView) ∧
    batch = (assignIds sampleEnv "/chat" (drawn freshChat) streamed).1.2 ∧
    events w' =
      (if titleArrivesEarly (mkWeather false false false true) && String.eqb (title finalChat) ""
       then [MutateListChat] else []) ++
      CreateMessages (chatId finalChat) batch ::
      (if String.eqb (title finalChat) ""
       then [PredictTitle (Some finalChat)
               (map (fun m => mkMessage (role m) (content m) None None None None None)
                  streamed)]
       else []) ++
      (match chat freshView with Some _ => [] | None => [CreateChat] end) ++
      PredictStream model request (@None string) (@None (list string)) :: events freshChat ∧
    length (snapshots w') =
      (length (snapshots freshChat) + 4 + length chunks
       + (match (@None (string → string)) with Some _ => 1 | None => 0 end)
       + (match chat freshView with Some _ => 0 | None => 1 end)
       + (if titleArrivesEarly (mkWeather false false false true) && String.eqb (title finalChat) "" then 1 else 0)
       + (if createMessagesRejects (mkWeather false false false true) then 0 else 1))%nat.
Proof.
  apply (post_calls_in_order sampleEnv (mkWeather false false false true) "/chat" "Hello" false None None None None None freshChat "modelA" modelA freshView).
  - vm_compute. reflexivity.
  - discriminate.
  - reflexivity.
  - vm_compute. reflexivity.
  - reflexivity.
  - intros _. reflexivity.
Defined.

Lemma post_submits_the_turn_witness :
  ∃ w' cid earlier request reply k,
    w' = finalWorld
           (postWith sampleEnv (mkWeather false false true false) "/chat" "Hello" false (@None (list Message → list Message))
              (@None (string → string)) (@None string) (@None (list string)) (@None string) freshChat) ∧
    cid = chatId (default (createChat sampleEnv (S (length (events freshChat)))) (chat freshView)) ∧
    request =
      map (fun m => mkMessage (role m) (content m) None None None None None)
        (match (@None (list Message → list Message)) with
         | Some f => f (chosenInput false (messages freshView) "Hello")
         | None => chosenInput false (messages freshView) "Hello"
         end) ∧
    reply =
      streamedReply (modelFor modelA (@None string))
        (predictStream sampleEnv (modelFor modelA (@None string)) request (@None string) (@None (list string)))
        (@None (string → string)) ∧
    k = (drawn freshChat + length (lacking (messages freshView)))%nat ∧
    earlier =
      zip_with (identify sampleEnv "/chat") (seq (drawn freshChat) (length (lacking (messages freshView))))
        (lacking (messages freshView)) ∧
    role reply = Assistant ∧ messageId reply = None ∧
    CreateMessages cid
      (earlier ++
       [mkMessage User "Hello" (Some (uuid sampleEnv k)) (Some (usecaseTag "/chat"))
          None None None;
        mkMessage Assistant (content reply) (Some (uuid sampleEnv (S k)))
          (Some (usecaseTag "/chat")) (llmType reply) None None]) ∈ events w' ∧
    drawn w' = S (S k).
Proof.
  apply (post_submits_the_turn sampleEnv (mkWeather false false true false) "/chat" "Hello" false None None None None None freshChat "modelA" modelA freshView).
  - vm_compute. reflexivity.
  - discriminate.
  - reflexivity.
  - vm_compute. reflexivity.
  - reflexivity.
  - intros _. reflexivity.
Defined.

Lemma post_when_the_stream_raises_witness :
  ∃ w' model request chunks,
    postWith sampleEnv (mkWeather true false false false) "/chat" "Hello" false (@None (list Message → list Message)) (@None (string → string))
      (@None string) (@None (list string)) (@None string) freshChat = Thrown Rejected w' ∧
    model =
      match (@None string) with
      | Some s => if String.eqb s "" then modelA else mkModel (modelId modelA) (Some s)
      | None => modelA
      end ∧
    request =
      map (fun m => mkMessage (role m) (content m) None None None None None)
        (match (@None (list Message → list Message)) with
         | Some f => f (chosenInput false (messages freshView) "Hello")
         | None => chosenInput false (messages freshView) "Hello"
         end) ∧
    chunks = predictStream sampleEnv model request (@None string) (@None (list string)) ∧
    chats (store w') !! "/chat" =
      Some (mkConversation (chat freshView)
              (messages freshView ++
               [mkMessage User "Hello" None None None None None;
                match chunks with
                | [] => mkMessage Assistant "" None None None None None
                | _ =>
                    mkMessage Assistant (accumulate "" chunks) None None
                      (Some (modelId model)) None None
                end])) ∧
    (∀ k, k ≠ "/chat" → chats (store w') !! k = chats (store freshChat) !! k) ∧
    modelIds (store w') = modelIds (store freshChat) ∧
    loading (store w') = <["/chat" := true]> (loading (store freshChat)) ∧
    hookLoading "/chat" (store w') = true ∧
    events w' = PredictStream model request (@None string) (@None (list string)) :: events freshChat ∧
    drawn w' = drawn freshChat ∧
    length (snapshots w') = (length (snapshots freshChat) + 2 + length chunks)%nat.
Proof.
  apply (post_when_the_stream_raises sampleEnv (mkWeather true false false false) "/chat" "Hello" false None None None None None freshChat "modelA" modelA freshView).
  - vm_compute. reflexivity.
  - discriminate.
  - reflexivity.
  - vm_compute. reflexivity.
  - reflexivity.
Defined.

Lemma clear_resets_the_view_witness :
  ∃ w',
    clear sampleEnv "/chat" boundChat = Returned tt w' ∧
    chats (store w') !! "/chat" =
      Some (mkConversation None
              [mkMessage System (systemContext sampleEnv (getModelId "/chat" (store boundChat)) "/chat")
                 None None None None None]) ∧
    (∀ k, k ≠ "/chat" → chats (store w') !! k = chats (store boundChat) !! k) ∧
    modelIds (store w') = modelIds (store boundChat) ∧
    loading (store w') = loading (store boundChat) ∧
    events w' = events boundChat ∧
    store (finalWorld (clear sampleEnv "/chat" w')) = store w'.
Proof.
  apply (clear_resets_the_view sampleEnv "/chat" boundChat).
  reflexivity.
Defined.


Lemma restore_twice_witness :
  ∃ w1 w2,
    restore sampleEnv "/summarize" [recordedAt "t0" (unrecorded System "s")] (mkChat "chat-1" "Restored") boundChat = Returned tt w1 ∧
    restore sampleEnv "/summarize" [recordedAt "t0" (unrecorded System "s")] (mkChat "chat-1" "Restored") w1 = Returned tt w2 ∧
    store w2 = store w1 ∧
    chats (store w1) !! "/summarize" = Some (mkConversation (Some (mkChat "chat-1" "Restored")) [recordedAt "t0" (unrecorded System "s")]) ∧
    (∀ k conv, k ≠ "/summarize" → chats (store boundChat) !! k = Some conv →
       holdsChat (chatId (mkChat "chat-1" "Restored")) conv = false → chats (store w1) !! k = Some conv) ∧
    (∀ k, k ≠ "/summarize" → chats (store boundChat) !! k = None → chats (store w1) !! k = None).
Proof.
  apply (restore_twice sampleEnv "/summarize" [recordedAt "t0" (unrecorded System "s")] (mkChat "chat-1" "Restored") boundChat).
  - vm_compute. reflexivity.
  - reflexivity.
Defined.

(** The run of the spec in three kinds of weather: the stream raises
    behind its fragments; the submission is rejected; the title arrives
    while the submission is awaited. *)
Example post_while_the_stream_raises :
  ∃ w',
    postWith sampleEnv (mkWeather true false false false) "/chat" "Hello" false
      None None None None None freshChat = Thrown Rejected w' ∧
    loading (store w') !! "/chat" = Some true ∧
    chats (store w') !! "/chat" =
      Some (mkConversation None
              [mkMessage System "You are an assistant on /chat" None None None None None;
               mkMessage User "Hello" None None None None None;
               mkMessage Assistant "Hi there" None None (Some "modelA") None None]) ∧
    events w' =
      [PredictStream modelA
         [mkMessage System "You are an assistant on /chat" None None None None None;
          mkMessage User "Hello" None None None None None] None None].
Proof. eexists. split; [vm_compute; reflexivity|]. by repeat split. Qed.

Example post_while_the_submission_is_rejected :
  ∃ w',
    postWith sampleEnv (mkWeather false false true false) "/chat" "Hello" false
      None None None None None freshChat = Thrown Rejected w' ∧
    loading (store w') !! "/chat" = Some false ∧
    chats (store w') !! "/chat" =
      Some (mkConversation (Some (mkChat "chat-1" ""))
              [mkMessage System "You are an assistant on /chat" (Some "uuid-0")
                 (Some "/chat") None None None;
               mkMessage User "Hello" (Some "uuid-1") (Some "/chat") None None None;
               mkMessage Assistant "Hi there" (Some "uuid-2") (Some "/chat")
                 (Some "modelA") None None]) ∧
    map (fun e => match e with
                  | CreateMessages cid batch => Some (cid, length batch)
                  | _ => None
                  end) (events w')
    = [Some ("chat-1", 3%nat); None; None; None].
Proof. eexists. split; [vm_compute; reflexivity|]. by repeat split. Qed.

Example post_while_the_title_arrives :
  ∃ w',
    postWith sampleEnv (mkWeather false false false true) "/chat" "Hello" false
      None None None None None freshChat = Returned tt w' ∧
    chat <$> chats (store w') !! "/chat" = Some (Some (mkChat "chat-1" "Greeting")) ∧
    map (fun m => (content m, messageId m, createdDate m))
      (messagesOf "/chat" (store w'))
    = [("You are an assistant on /chat", Some "uuid-0", Some "2024-01-01T00:00:00Z");
       ("Hello", Some "uuid-1", Some "2024-01-01T00:00:00Z");
       ("Hi there", Some "uuid-2", Some "2024-01-01T00:00:00Z")] ∧
    head (events w') = Some MutateListChat ∧
    length (events w') = 5%nat.
Proof. eexists. split; [vm_compute; reflexivity|]. by repeat split. Qed.
